(** * Local Knowledge RAG: indexing and retrieval engine

    A shallow embedding of the vector repository, the vector manager, the
    chunker's line-number calculation, the file-system diff and the index
    manager's request handler, with the properties of the specification
    stated over it.

    Conventions.
    - A JavaScript [number] holding an integer (mtime, size, line numbers,
      lock keys) is a [Z]; a [number] holding a vector component or a
      similarity is an IEEE-754 binary64 [float], which is what the
      JavaScript runtime computes with.
    - A [string] is a list of 8-bit code units; workspace identifiers are
      hexadecimal, so [charCodeAt] is the byte value.
    - A function that may throw returns an [Outcome]; [async] functions are
      run to completion, one after the other, unless a definition says
      otherwise.
    - Collaborators outside the repository (the glob scanner, the text
      splitter, the embedding provider, the database's distance operator)
      are the fields of the classes [Env] and [DbEngine]. The table
      accepts every row the repository inserts. *)

From Stdlib Require Import ZArith List Bool Lia Ascii PrimFloat.
From stdpp Require Import base option list strings pretty gmap.

Local Open Scope Z_scope.

(** * Part I: the embedding *)

(** ** Outcomes of code that may throw *)

Inductive Outcome (E A : Type) : Type :=
| Returned (a : A)
| Thrown (e : E).
Arguments Returned {E A} a.
Arguments Thrown {E A} e.

(** A thrown JavaScript error object, as far as the code inspects it:
    [error instanceof EmbeddingError], [error.status], [error.message].
    Every error of the model is an instance of [Error]. *)
Record JsError : Type := mkJsError {
  instanceOfEmbeddingError : bool;
  status : option Z;
  message : string
}.

(** [new Error(msg)], [new EmbeddingError(msg, provider)] and
    [new IndexingError(msg)]; neither class defines [status]. *)
Definition Error (msg : string) : JsError := mkJsError false None msg.
Definition EmbeddingError (msg : string) : JsError := mkJsError true None msg.
Definition IndexingError (msg : string) : JsError := mkJsError false None msg.

(** ** 32-bit integer arithmetic of the lock-key hash *)

(** ECMAScript [ToInt32]: reduce modulo 2^32 into [-2^31, 2^31). *)
Definition toInt32 (x : Z) : Z := (x + 2 ^ 31) mod 2 ^ 32 - 2 ^ 31.

(** [a << n] *)
Definition shl32 (a n : Z) : Z := toInt32 (Z.shiftl (toInt32 a) (n mod 32)).

(** [a & b] *)
Definition and32 (a b : Z) : Z := toInt32 (Z.land (toInt32 a) (toInt32 b)).

(** [s.charCodeAt(i)] for every [i], in order. *)
Definition charCodes (s : string) : list Z :=
  map (fun c => Z.of_N (Ascii.N_of_ascii c)) (String.list_ascii_of_string s).

(** One iteration of the loop of [workspaceIdToLockKey]:
    [hash = ((hash << 5) - hash) + char; hash = hash & hash]. *)
Definition lockKeyStep (hash char : Z) : Z :=
  let hash1 := (shl32 hash 5 - hash) + char in
  and32 hash1 hash1.

(** [VectorRepository.workspaceIdToLockKey]. *)
Definition workspaceIdToLockKey (workspaceId : string) : Z :=
  Z.abs (fold_left lockKeyStep (charCodes workspaceId) 0).

(** ** Data model (types/rag.types.ts) *)

Record VectorMetaData : Type := mkMeta {
  startLine : Z;
  endLine : Z;
  skipped : option bool;
  reason : option string;
  originalSize : option Z
}.

Record FileStat : Type := mkStat { st_mtime : Z; st_size : Z }.

Record FileInfo : Type := mkFileInfo { fi_path : string; fi_stat : FileStat }.

Record ContentChunk : Type := mkChunk {
  ch_path : string;
  ch_mtime : Z;
  ch_content : string;
  ch_metadata : VectorMetaData
}.

(** [InsertEmbedding]: a row without its surrogate key. *)
Record InsertEmbedding : Type := mkInsert {
  workspaceId : string;
  path : string;
  mtime : Z;
  content : string;
  model : string;
  dimension : nat;
  embedding : list float;
  metadata : VectorMetaData
}.

(** [SelectEmbedding]: a persisted row, the serial [id] and the inserted
    values. *)
Record SelectEmbedding : Type := mkRow { row_id : Z; row : InsertEmbedding }.

(** The identity of an embedding client: [id] and [dimension]. *)
Record EmbeddingModelClient : Type := mkModel { em_id : string; em_dimension : nat }.

(** ** The embeddings table *)

(** The state of the database the engine is connected to: the declared
    type of the [embedding] column as the catalog reports it, the next
    value of the serial, and the rows in insertion order. *)
Record Database : Type := mkDb {
  schemaDimension : option nat;          (* vector(n), None when absent *)
  embeddingColumn : option (string * string); (* data_type, udt_name *)
  nextId : Z;
  rows : list SelectEmbedding
}.

Definition setRows (db : Database) (rs : list SelectEmbedding) : Database :=
  mkDb (schemaDimension db) (embeddingColumn db) (nextId db) rs.

(** [eq(workspaceId, w) and eq(model, m.id)] *)
Definition inPartition (w : string) (m : EmbeddingModelClient) (r : SelectEmbedding) : bool :=
  bool_decide (workspaceId (row r) = w) && bool_decide (model (row r) = em_id m).

(** [[...new Set(xs)]]: first occurrences, in order. *)
Fixpoint uniqueFrom (seen : list string) (xs : list string) : list string :=
  match xs with
  | [] => []
  | x :: xs' =>
      if bool_decide (x ∈ seen) then uniqueFrom seen xs'
      else x :: uniqueFrom (x :: seen) xs'
  end.
Definition unique (xs : list string) : list string := uniqueFrom [] xs.

(** [VectorRepository.getIndexedFilePaths] *)
Definition getIndexedFilePaths (w : string) (m : EmbeddingModelClient) (db : Database)
  : list string :=
  unique (map (fun r => path (row r)) (List.filter (fun r => inPartition w m r) (rows db))).

(** [VectorRepository.deleteVectorsForMultipleFiles] *)
Definition deleteVectorsForMultipleFiles (w : string) (filePaths : list string)
    (m : EmbeddingModelClient) (db : Database) : Database :=
  match filePaths with
  | [] => db
  | _ => setRows db
           (List.filter (fun r => negb (inPartition w m r && bool_decide (path (row r) ∈ filePaths)))
                   (rows db))
  end.

(** The rows [insert ... values(vectors)] appends: serial ids from [n]. *)
Fixpoint assignIds (n : Z) (vectors : list InsertEmbedding) : list SelectEmbedding :=
  match vectors with
  | [] => []
  | v :: vs => mkRow n v :: assignIds (n + 1) vs
  end.

(** [VectorRepository.insertVectors] *)
Definition insertVectors (vectors : list InsertEmbedding) (db : Database) : Database :=
  match vectors with
  | [] => db
  | _ => mkDb (schemaDimension db) (embeddingColumn db)
              (nextId db + Z.of_nat (length vectors))
              (rows db ++ assignIds (nextId db) vectors)
  end.

(** [VectorRepository.clearAllVectors] *)
Definition clearAllVectors (w : string) (m : EmbeddingModelClient) (db : Database) : Database :=
  setRows db (List.filter (fun r => negb (inPartition w m r)) (rows db)).

(** [VectorRepository.deleteVectorsForDeletedFiles]: with no surviving
    path the partition is cleared, otherwise the rows whose path is
    [NOT IN] the surviving ones are deleted. *)
Definition deleteVectorsForDeletedFiles (w : string) (existingFilePaths : list string)
    (m : EmbeddingModelClient) (db : Database) : Database :=
  match existingFilePaths with
  | [] => clearAllVectors w m db
  | _ => setRows db
           (List.filter (fun r => negb (inPartition w m r
                                   && negb (bool_decide (path (row r) ∈ existingFilePaths))))
                   (rows db))
  end.

(** [VectorRepository.getFileModificationTimes]: the loop keeps, per
    path, the largest [mtime] that exceeds [mtimeMap.get(path) || 0]. *)
Definition mtimeStep (mtimeMap : gmap string Z) (result : SelectEmbedding) : gmap string Z :=
  let currentMtime := default 0 (mtimeMap !! path (row result)) in
  if currentMtime <? mtime (row result)
  then <[path (row result) := mtime (row result)]> mtimeMap
  else mtimeMap.

Definition getFileModificationTimes (w : string) (filePaths : list string)
    (m : EmbeddingModelClient) (db : Database) : gmap string Z :=
  match filePaths with
  | [] => ∅
  | _ => fold_left mtimeStep
           (List.filter (fun r => inPartition w m r && bool_decide (path (row r) ∈ filePaths))
                   (rows db))
           ∅
  end.

(** ** Cosine similarity in memory (the JSONB fallback) *)

Local Open Scope float_scope.

(** The body of the [for] loop of [calculateCosineSimilarity]: the three
    accumulators [dotProduct], [magnitudeA], [magnitudeB]. *)
Definition cosineStep (acc : float * float * float) (ab : float * float)
  : float * float * float :=
  let '(dotProduct, magnitudeA, magnitudeB) := acc in
  let '(a, b) := ab in
  (dotProduct + a * b, magnitudeA + a * a, magnitudeB + b * b).

(** [VectorRepository.calculateCosineSimilarity]; [===] on numbers is the
    IEEE comparison [=?]. *)
Definition calculateCosineSimilarity (vectorA vectorB : list float)
  : Outcome JsError float :=
  if negb (Nat.eqb (length vectorA) (length vectorB))
  then Thrown (Error "Vector dimensions must match")
  else
    let '(dotProduct, sumA, sumB) :=
      fold_left cosineStep (combine vectorA vectorB) (0, 0, 0) in
    let magnitudeA := PrimFloat.sqrt sumA in
    let magnitudeB := PrimFloat.sqrt sumB in
    if (magnitudeA =? 0) || (magnitudeB =? 0) then Returned 0
    else Returned (dotProduct / (magnitudeA * magnitudeB)).

(** The quantities the loop computes, each on its own: the dot product
    and the Euclidean norm, summed from the left starting at 0. *)
Definition dotOf (a b : list float) : float :=
  fold_left (fun acc xy => acc + fst xy * snd xy) (combine a b) 0.
Definition normOf (a : list float) : float :=
  PrimFloat.sqrt (fold_left (fun acc x => acc + x * x) a 0).

(** ** Similarity search *)

Record SearchHit : Type := mkHit { hit_row : SelectEmbedding; similarity : float }.

Record SearchOptions : Type := mkOptions {
  minSimilarity : float;
  limit : nat;
  scope_files : option (list string)
}.

Inductive ColumnType : Type := VectorColumn | JsonbColumn.

(** The database engine behind the native-vector query: the cosine
    distance operator [<=>] and [ORDER BY key LIMIT n], which yields rows
    of its input (possibly through an approximate index). *)
Class DbEngine : Type := mkEngine {
  cosineDistance : list float -> list float -> float;
  orderByLimit : (SelectEmbedding -> float) -> nat ->
                 list SelectEmbedding -> list SelectEmbedding;
  orderByLimit_In : forall key n l r, In r (orderByLimit key n l) -> In r l
}.

(** [VectorRepository.detectEmbeddingColumnType] *)
Definition detectEmbeddingColumnType (db : Database) : Outcome JsError ColumnType :=
  match embeddingColumn db with
  | None => Thrown (Error "embedding column not found in embeddings table")
  | Some (data_type, udt_name) =>
      if bool_decide (udt_name = "vector") || bool_decide (data_type = "USER-DEFINED")
      then Returned VectorColumn
      else if bool_decide (data_type = "jsonb") then Returned JsonbColumn
      else Thrown (Error ("Unsupported embedding column type: " +:+ data_type))
  end.

(** [metadata->>'skipped' IS NULL OR metadata->>'skipped' != 'true'] *)
Definition notSkipped (r : SelectEmbedding) : bool :=
  match skipped (metadata (row r)) with
  | None => true
  | Some b => negb b
  end.

(** The [whereConditions] array of [performSimilaritySearch]. *)
Definition whereConditions (w : string) (m : EmbeddingModelClient)
    (files : option (list string)) : list (SelectEmbedding -> bool) :=
  [ (fun r => bool_decide (workspaceId (row r) = w));
    (fun r => Nat.eqb (dimension (row r)) (em_dimension m));
    (fun r => bool_decide (model (row r) = em_id m));
    notSkipped ]
  ++ match files with
     | Some (f :: fs) => [ fun r => bool_decide (path (row r) ∈ f :: fs) ]
     | _ => []
     end.

(** [and(...whereConditions)] *)
Definition and_ (conds : list (SelectEmbedding -> bool)) (r : SelectEmbedding) : bool :=
  forallb (fun c => c r) conds.

(** [VectorRepository.performSimilaritySearchWithPgvector] *)
Definition performSimilaritySearchWithPgvector `{DbEngine} (queryEmbedding : list float)
    (conds : list (SelectEmbedding -> bool)) (minSim : float) (lim : nat)
    (db : Database) : list SearchHit :=
  let results :=
    orderByLimit (fun r => cosineDistance (embedding (row r)) queryEmbedding)
                 (lim * 2) (List.filter (and_ conds) (rows db)) in
  take lim
    (omap (fun r =>
             let sim := 1 - cosineDistance (embedding (row r)) queryEmbedding in
             if sim <? minSim then None else Some (mkHit r sim))
          results).

(** [Array.prototype.sort] with a comparator: a stable insertion sort;
    [compareFn y x > 0] puts [y] after [x]. *)
Fixpoint insertBy {A : Type} (compareFn : A -> A -> float) (x : A) (l : list A) : list A :=
  match l with
  | [] => [x]
  | y :: l' => if 0 <? compareFn y x then x :: y :: l' else y :: insertBy compareFn x l'
  end.
Definition sortBy {A : Type} (compareFn : A -> A -> float) (l : list A) : list A :=
  fold_left (fun acc x => insertBy compareFn x acc) l [].

(** [xs.map(f)] where [f] may throw: the first exception aborts. *)
Fixpoint mapOutcome {E A B : Type} (f : A -> Outcome E B) (xs : list A) : Outcome E (list B) :=
  match xs with
  | [] => Returned []
  | x :: xs' =>
      match f x with
      | Thrown e => Thrown e
      | Returned y =>
          match mapOutcome f xs' with
          | Thrown e => Thrown e
          | Returned ys => Returned (y :: ys)
          end
      end
  end.

(** [VectorRepository.performSimilaritySearchWithJavaScript] *)
Definition performSimilaritySearchWithJavaScript (queryEmbedding : list float)
    (conds : list (SelectEmbedding -> bool)) (minSim : float) (lim : nat)
    (db : Database) : Outcome JsError (list SearchHit) :=
  let dbResults := List.filter (and_ conds) (rows db) in
  match mapOutcome
          (fun r =>
             match calculateCosineSimilarity queryEmbedding (embedding (row r)) with
             | Thrown e => Thrown e
             | Returned sim =>
                 Returned (if sim <? minSim then None else Some (mkHit r sim))
             end)
          dbResults with
  | Thrown e => Thrown e
  | Returned hits =>
      Returned (take lim
                  (sortBy (fun a b => similarity b - similarity a) (omap id hits)))
  end.

(** [VectorRepository.performSimilaritySearch] *)
Definition performSimilaritySearch `{DbEngine} (w : string) (queryEmbedding : list float)
    (m : EmbeddingModelClient) (options : SearchOptions) (db : Database)
  : Outcome JsError (list SearchHit) :=
  match detectEmbeddingColumnType db with
  | Thrown e => Thrown e
  | Returned columnType =>
      let conds := whereConditions w m (scope_files options) in
      match columnType with
      | VectorColumn =>
          Returned (performSimilaritySearchWithPgvector queryEmbedding conds
                      (minSimilarity options) (limit options) db)
      | JsonbColumn =>
          performSimilaritySearchWithJavaScript queryEmbedding conds
            (minSimilarity options) (limit options) db
      end
  end.

Local Close Scope float_scope.

(** ** File-system diff (utils/file-utils.ts) *)

(** [FileSystemUtils.getFilesToReindex]; [!indexedMtime] holds for a
    missing entry and for the number 0. *)
Definition getFilesToReindex (allFiles : list FileInfo) (indexedFiles : gmap string Z)
  : list FileInfo :=
  List.filter
    (fun file =>
       if st_size (fi_stat file) =? 0 then false
       else match indexedFiles !! fi_path file with
            | None => true
            | Some indexedMtime =>
                if indexedMtime =? 0 then true
                else indexedMtime <? st_mtime (fi_stat file)
            end)
    allFiles.

(** [FileSystemUtils.sanitizeContent]: [content.replace(/\x00/g, '')]. *)
Fixpoint removeNul (s : string) : string :=
  match s with
  | EmptyString => EmptyString
  | String c s' => if Ascii.eqb c Ascii.zero then removeNul s' else String c (removeNul s')
  end.

(** [content.includes('\x00')] *)
Fixpoint includesNul (s : string) : bool :=
  match s with
  | EmptyString => false
  | String c s' => Ascii.eqb c Ascii.zero || includesNul s'
  end.

(** ** Line numbers of a chunk (utils/chunk-utils.ts) *)

(** [s.split('\n')]: never empty. *)
Fixpoint splitLines (s : string) : list string :=
  match s with
  | EmptyString => [EmptyString]
  | String c s' =>
      if Ascii.eqb c "010"%char then EmptyString :: splitLines s'
      else match splitLines s' with
           | [] => [String c EmptyString]
           | l :: ls => String c l :: ls
           end
  end.

(** The search loop of [calculateLineNumbers], entered at index [i] with
    [lines] the lines from [i] on: the loop runs while
    [i <= lines.length - chunkLines.length] and stops at the first [i]
    where every [lines[i + j]] equals [chunkLines[j]]. *)
Fixpoint findChunk (lines chunkLines : list string) (i : nat) {struct lines} : option nat :=
  if (length chunkLines <=? length lines)%nat then
    if bool_decide (take (length chunkLines) lines = chunkLines) then Some i
    else match lines with
         | [] => None
         | _ :: rest => findChunk rest chunkLines (S i)
         end
  else None.

(** [TextChunker.calculateLineNumbers] *)
Definition calculateLineNumbers (originalContent chunkContent : string) : Z * Z :=
  let lines := splitLines originalContent in
  let chunkLines := splitLines chunkContent in
  match findChunk lines chunkLines 0 with
  | Some i => (Z.of_nat i + 1, Z.of_nat i + Z.of_nat (length chunkLines))
  | None => (1, 1)
  end.

(** ** The environment of a run *)

Inductive ProviderType : Type := OpenAI | OpenAICompatible | Ollama.

(** [EmbeddingModelConfig], the mutable configuration of the client. *)
Record EmbeddingModelConfig : Type := mkConfig {
  cfg_provider : ProviderType;
  cfg_model : string;
  cfg_apiKey : option string;
  cfg_dimension : nat
}.

(** The client's getters [id] and [dimension]. *)
Definition clientOf (c : EmbeddingModelConfig) : EmbeddingModelClient :=
  mkModel (cfg_model c) (cfg_dimension c).

(** What the engine does not define itself: its configuration, the files
    on disk as the scanner reports them for the configured patterns, the
    text functions built from regular expressions and the library
    splitter, and three oracles read in order of use: the cancellation
    flag at its n-th reading, the provider's answer to the n-th request
    (a failure carries [status] and [message]), and [Date.now()] at its
    n-th reading. *)
Class Env : Type := mkEnv {
  thisWorkspaceId : string;
  chunkSize : nat;
  scanFiles : list FileInfo;
  fileExists : string -> bool;
  readFileContent : string -> Outcome JsError string;
  extname : string -> string;
  basename : string -> string;
  extractTextContent : string -> string -> string;
  cleanTextForEmbedding : string -> string;
  trim : string -> string;
  createDocuments : string -> Outcome JsError (list string);
  chunkSanitizeContent : string -> string;
  isCancelledAt : nat -> bool;
  embeddingsCreate : nat -> string -> Outcome JsError (list float);
  dateNowAt : nat -> Z
}.

(** ** Chunking with the configured splitter *)

Section Chunker.
Context `{Env}.

(** [TextChunker.createChunks]: every document of the splitter gets the
    line numbers of its first occurrence; when the splitter throws, the
    whole content is one chunk. *)
Definition createChunks (fileContent filePath : string) (fileMtime : Z)
  : list ContentChunk :=
  match createDocuments fileContent with
  | Returned documents =>
      map (fun chunkContent =>
             let '(s, e) := calculateLineNumbers fileContent chunkContent in
             mkChunk filePath fileMtime chunkContent (mkMeta s e None None None))
          documents
  | Thrown _ =>
      [ mkChunk filePath fileMtime fileContent
          (mkMeta 1 (Z.of_nat (length (splitLines fileContent))) None None None) ]
  end.

(** An entry of [fileContents] in [prepareContentChunks]. *)
Record FileContent : Type := mkFileContent {
  fc_path : string; fc_content : string; fc_mtime : Z
}.

(** [TextChunker.createChunksForFiles] *)
Definition createChunksForFiles (files : list FileContent) : list ContentChunk :=
  concat (map (fun f => createChunks (fc_content f) (fc_path f) (fc_mtime f)) files).

(** [TextChunker.validateChunk] *)
Definition validateChunk (chunk : ContentChunk) : bool :=
  if Nat.eqb (String.length (trim (ch_content chunk))) 0 then false
  else if includesNul (ch_content chunk) then false
  else if (chunkSize * 2 <? String.length (ch_content chunk))%nat then false
  else true.

(** [TextChunker.processChunks] *)
Definition processChunks (chunks : list ContentChunk) : list ContentChunk :=
  List.filter validateChunk
    (map (fun chunk =>
            mkChunk (ch_path chunk) (ch_mtime chunk)
                    (chunkSanitizeContent (ch_content chunk)) (ch_metadata chunk))
         chunks).

Record SkippedFile : Type := mkSkipped {
  sk_path : string; sk_reason : string; sk_size : Z
}.
Record FailedFile : Type := mkFailed {
  ff_path : string; ff_error : string; ff_size : Z
}.

Record Prepared : Type := mkPrepared {
  contentChunks : list ContentChunk;
  failedFiles : list FailedFile;
  skippedFiles : list SkippedFile
}.

(** The text of a file as it reaches the chunker: extraction by
    extension, removal of NUL, whitespace normalisation. *)
Definition processedText (file : FileInfo) (raw : string) : string :=
  cleanTextForEmbedding
    (removeNul (extractTextContent raw (extname (fi_path file)))).

(** The body of the reading loop of [prepareContentChunks], on the
    three arrays [failedFiles], [skippedFiles], [fileContents]. *)
Definition readStep
    (acc : list FailedFile * list SkippedFile * list FileContent) (file : FileInfo)
  : list FailedFile * list SkippedFile * list FileContent :=
  let '(failed, skippedFs, fileContents) := acc in
  match readFileContent (fi_path file) with
  | Thrown error =>
      (failed ++ [mkFailed (fi_path file) (message error) (st_size (fi_stat file))],
       skippedFs, fileContents)
  | Returned raw =>
      let text := processedText file raw in
      if Nat.eqb (String.length (trim text)) 0 then
        let why := if st_size (fi_stat file) =? 0
                   then "File is empty (size: 0 bytes)"
                   else "File contains no indexable content after processing" in
        (failed,
         skippedFs ++ [mkSkipped (fi_path file) why (st_size (fi_stat file))],
         fileContents)
      else
        (failed, skippedFs,
         fileContents ++ [mkFileContent (fi_path file) text (st_mtime (fi_stat file))])
  end.

(** [VectorManager.prepareContentChunks] *)
Definition prepareContentChunks (files : list FileInfo) : Prepared :=
  let '(failed, skippedFs, fileContents) := fold_left readStep files ([], [], []) in
  mkPrepared (processChunks (createChunksForFiles fileContents)) failed skippedFs.

(** The marker row of [recordSkippedFiles] for one skipped file. *)
Definition skippedMarker (m : EmbeddingModelClient) (fileInfo : FileInfo)
    (skippedF : SkippedFile) : InsertEmbedding :=
  mkInsert thisWorkspaceId (sk_path skippedF) (st_mtime (fi_stat fileInfo))
    "[SKIPPED: No indexable content]" (em_id m) (em_dimension m)
    (replicate (em_dimension m) 0%float)
    (mkMeta 0 0 (Some true) (Some (sk_reason skippedF)) (Some (sk_size skippedF))).

(** [new Map(allFiles.map(f => [f.path, f]))]: a later entry replaces
    an earlier one with the same key. *)
Definition fileMapOf (allFiles : list FileInfo) : gmap string FileInfo :=
  fold_left (fun fm f => <[fi_path f := f]> fm) allFiles ∅.

(** The array [dummyEmbeddings] of [recordSkippedFiles]. *)
Definition dummyEmbeddings (skippedFs : list SkippedFile) (allFiles : list FileInfo)
    (m : EmbeddingModelClient) : list InsertEmbedding :=
  omap (fun skippedF =>
          match fileMapOf allFiles !! sk_path skippedF with
          | None => None
          | Some fileInfo => Some (skippedMarker m fileInfo skippedF)
          end)
       skippedFs.

End Chunker.

(** ** Worlds, events and the monad of effectful code *)

(** The places where the indexing code reads [isCancelled]. *)
Inductive Checkpoint : Type :=
| AfterPrepare   (* updateVaultIndexInternal, after reading and chunking *)
| BeforeBatch    (* top of the batch loop *)
| ChunkStart     (* start of a chunk's callback *)
| BeforeCall     (* inside backOff, before getEmbedding *)
| AfterCall      (* inside backOff, after getEmbedding *)
| AfterBatch     (* after Promise.all *)
| AfterInsert.   (* after insertVectors *)

Inductive LogType : Type :=
| LogStart | LogProgress | LogComplete | LogError | LogCancelled | LogWarning.

Record IndexProgress : Type := mkProgress {
  completedChunks : nat;
  totalChunks : nat;
  totalFiles : nat;
  currentFileName : option string;
  completedFiles : option nat;
  waitingForRateLimit : bool;
  isCancelled : bool
}.

(** What a run does that can be observed from outside, in order. Of the
    console output only the warnings a property speaks about are kept,
    each by its headline. *)
Inductive Event : Type :=
| CancelRead (cp : Checkpoint) (tick : nat) (observed : bool)
| EmbeddingCall (n : nat) (text : string)
| Inserted (vectors : list InsertEmbedding)
| Progress (p : IndexProgress)
| Logged (ty : LogType) (msg : string)
| ConsoleWarn (msg : string)
| AdvisoryLock (key : Z)
| AdvisoryUnlock (key : Z).

(** The local variables of a running [processEmbeddings], which its
    callbacks share and update. *)
Record Locals : Type := mkLocals {
  completed : nat;
  processedFiles : list string;
  lastProgressUpdate : Z;
  failedChunks : list (string * string)
}.

(** The mutable state a run works on: the database, the advisory locks
    this session holds, the client's configuration, the local variables
    of the embedding loop, how many times each oracle was read, and the
    events so far. *)
Record World : Type := mkWorld {
  db : Database;
  heldLocks : list Z;
  config : EmbeddingModelConfig;
  locals : Locals;
  cancelReads : nat;
  embeddingCalls : nat;
  clockReads : nat;
  trace : list Event
}.

Definition M (A : Type) : Type := World -> Outcome JsError A * World.

Definition ret {A : Type} (a : A) : M A := fun w => (Returned a, w).

Definition throw {A : Type} (e : JsError) : M A := fun w => (Thrown e, w).

Definition bind {A B : Type} (m : M A) (f : A -> M B) : M B :=
  fun w =>
    match m w with
    | (Returned a, w') => f a w'
    | (Thrown e, w') => (Thrown e, w')
    end.

(** [try { m } catch (error) { handler(error) }] *)
Definition tryCatch {A : Type} (m : M A) (handler : JsError -> M A) : M A :=
  fun w =>
    match m w with
    | (Returned a, w') => (Returned a, w')
    | (Thrown e, w') => handler e w'
    end.

(** [try { m } finally { cleanup }] with a [cleanup] that does not throw. *)
Definition tryFinally {A : Type} (m : M A) (cleanup : World -> World) : M A :=
  fun w =>
    match m w with
    | (Returned a, w') => (Returned a, cleanup w')
    | (Thrown e, w') => (Thrown e, cleanup w')
    end.

Declare Scope monad_scope.
Delimit Scope monad_scope with monad.
Notation "'let*' x := m 'in' k" := (bind m (fun x => k))
  (at level 10, x name, m at level 100, k at level 200) : monad_scope.
Notation "m >> k" := (bind m (fun _ => k))
  (at level 100, k at level 200, right associativity) : monad_scope.
Local Open Scope monad_scope.

Definition withDb (f : Database -> Database) (w : World) : World :=
  mkWorld (f (db w)) (heldLocks w) (config w) (locals w)
          (cancelReads w) (embeddingCalls w) (clockReads w) (trace w).
Definition withLocks (f : list Z -> list Z) (w : World) : World :=
  mkWorld (db w) (f (heldLocks w)) (config w) (locals w)
          (cancelReads w) (embeddingCalls w) (clockReads w) (trace w).
Definition withConfig (f : EmbeddingModelConfig -> EmbeddingModelConfig) (w : World) : World :=
  mkWorld (db w) (heldLocks w) (f (config w)) (locals w)
          (cancelReads w) (embeddingCalls w) (clockReads w) (trace w).
Definition withLocals (f : Locals -> Locals) (w : World) : World :=
  mkWorld (db w) (heldLocks w) (config w) (f (locals w))
          (cancelReads w) (embeddingCalls w) (clockReads w) (trace w).
Definition record (e : Event) (w : World) : World :=
  mkWorld (db w) (heldLocks w) (config w) (locals w)
          (cancelReads w) (embeddingCalls w) (clockReads w) (trace w ++ [e]).

(** Primitive actions. *)
Definition emit (e : Event) : M unit := fun w => (Returned tt, record e w).
Definition updateDb (f : Database -> Database) : M unit :=
  fun w => (Returned tt, withDb f w).
(** A query: its result on the current table. *)
Definition queryDb {A : Type} (q : Database -> A) : M A :=
  fun w => (Returned (q (db w)), w).
Definition getModel : M EmbeddingModelClient := fun w => (Returned (clientOf (config w)), w).
Definition getLocals : M Locals := fun w => (Returned (locals w), w).
Definition updateLocals (f : Locals -> Locals) : M unit :=
  fun w => (Returned tt, withLocals f w).

(** [xs.map(f)] for an effectful [f], the calls made one after the
    other; for the callbacks given to [Promise.all] this is the schedule
    in which each callback has settled before the next one starts. *)
Fixpoint mapM {A B : Type} (f : A -> M B) (xs : list A) : M (list B) :=
  match xs with
  | [] => ret []
  | x :: xs' => let* y := f x in let* ys := mapM f xs' in ret (y :: ys)
  end.

Section Oracles.
Context `{Env}.

(** [cancellationController?.isCancelled], read at checkpoint [cp]. *)
Definition readCancelled (cp : Checkpoint) : M bool :=
  fun w =>
    let b := isCancelledAt (cancelReads w) in
    (Returned b,
     mkWorld (db w) (heldLocks w) (config w) (locals w)
             (S (cancelReads w)) (embeddingCalls w) (clockReads w)
             (trace w ++ [CancelRead cp (cancelReads w) b])).

(** [Date.now()] *)
Definition dateNow : M Z :=
  fun w =>
    (Returned (dateNowAt (clockReads w)),
     mkWorld (db w) (heldLocks w) (config w) (locals w)
             (cancelReads w) (embeddingCalls w) (S (clockReads w)) (trace w)).

(** [this.client.embeddings.create({ model, input: text })], returning
    [embedding.data[0].embedding]. *)
Definition embeddingsCreateM (text : string) : M (list float) :=
  fun w =>
    (embeddingsCreate (embeddingCalls w) text,
     mkWorld (db w) (heldLocks w) (config w) (locals w)
             (cancelReads w) (S (embeddingCalls w)) (clockReads w)
             (trace w ++ [EmbeddingCall (embeddingCalls w) text])).

End Oracles.

(** ** Embedding clients (core/embedding-client.ts) *)

Section Engine.
Context `{Env}.

(** [getEmbedding] of the three clients. Each wraps whatever the
    provider call throws in an [EmbeddingError]; the OpenAI-compatible
    client also overwrites its configured dimension with the length of
    the vector it received. *)
Definition getEmbedding (text : string) : M (list float) :=
  let* m := (fun w => (Returned (config w), w)) in
  match cfg_provider m with
  | OpenAI =>
      match cfg_apiKey m with
      | None =>
          throw (EmbeddingError "OpenAI API key is missing. Please set it in configuration.")
      | Some _ =>
          tryCatch (embeddingsCreateM text)
            (fun error =>
               if bool_decide (status error = Some 401) then
                 throw (EmbeddingError
                          "OpenAI API key is invalid. Please update it in configuration.")
               else if bool_decide (status error = Some 429) then
                 throw (EmbeddingError
                          "OpenAI API rate limit exceeded. Please try again later.")
               else
                 throw (EmbeddingError ("OpenAI embedding failed: " +:+ message error)))
      end
  | OpenAICompatible =>
      tryCatch
        (let* embeddingVector := embeddingsCreateM text in
         (if negb (Nat.eqb (length embeddingVector) (cfg_dimension m))
          then fun w =>
                 (Returned tt,
                  withConfig (fun c => mkConfig (cfg_provider c) (cfg_model c)
                                         (cfg_apiKey c) (length embeddingVector)) w)
          else ret tt) >>
         ret embeddingVector)
        (fun error =>
           if bool_decide (status error = Some 401) then
             throw (EmbeddingError
                      "OpenAI-compatible API key is invalid. Please update it in configuration.")
           else if bool_decide (status error = Some 429) then
             throw (EmbeddingError
                      "OpenAI-compatible API rate limit exceeded. Please try again later.")
           else
             throw (EmbeddingError
                      ("OpenAI-compatible embedding failed: " +:+ message error)))
  | Ollama =>
      tryCatch (embeddingsCreateM text)
        (fun error =>
           throw (EmbeddingError ("Ollama embedding failed: " +:+ message error)))
  end.

(** ** Retrying (the exponential-backoff library)

    [backOff(request, { numOfAttempts, retry })]: after a failed
    attempt the [retry] callback is asked; the error is rethrown when it
    answers false or when no attempt is left. The delays between
    attempts take time and nothing else. *)
Fixpoint backOff {A : Type} (numOfAttempts : nat) (request : M A)
    (retry : JsError -> M bool) : M A :=
  match numOfAttempts with
  | O => throw (Error "Something went wrong.")
  | S remaining =>
      tryCatch request
        (fun e =>
           let* shouldRetry := retry e in
           if negb shouldRetry || Nat.eqb remaining 0 then throw e
           else backOff remaining request retry)
  end.

(** ** The embedding loop ([VectorManager.processEmbeddings]) *)

(** [processedFiles.add(p)] on a [Set]. *)
Definition setAdd (p : string) (s : list string) : list string :=
  if bool_decide (p ∈ s) then s else s ++ [p].

(** The progress object built from the loop's variables. *)
Definition progressOf (l : Locals) (total nFiles : nat) (current : option string)
    (waiting cancelled : bool) : IndexProgress :=
  mkProgress (completed l) total nFiles current
             (Some (length (processedFiles l))) waiting cancelled.

(** The function retried by [backOff] for one chunk, from the moment the
    provider has answered. *)
Definition finishRequest (chunk : ContentChunk) (total nFiles : nat) (vector : list float)
  : M InsertEmbedding :=
  let* c2 := readCancelled AfterCall in
  if c2 then throw (Error "Cancelled") else
  updateLocals (fun l => mkLocals (S (completed l)) (setAdd (ch_path chunk) (processedFiles l))
                           (lastProgressUpdate l) (failedChunks l)) >>
  let* now := dateNow in
  let* l := getLocals in
  (if (500 <=? now - lastProgressUpdate l)%Z then
     updateLocals (fun l => mkLocals (completed l) (processedFiles l) now (failedChunks l)) >>
     emit (Progress (progressOf l total nFiles (Some (basename (ch_path chunk))) false false)) >>
     emit (Logged LogProgress "")
   else ret tt) >>
  let* m := getModel in
  ret (mkInsert thisWorkspaceId (ch_path chunk) (ch_mtime chunk) (ch_content chunk)
         (em_id m) (em_dimension m) vector (ch_metadata chunk)).

(** The function retried by [backOff] for one chunk. *)
Definition embedRequest (chunk : ContentChunk) (total nFiles : nat) : M InsertEmbedding :=
  let* c1 := readCancelled BeforeCall in
  if c1 then throw (Error "Cancelled") else
  let* vector := getEmbedding (ch_content chunk) in
  finishRequest chunk total nFiles vector.

(** The [retry] option: [error.status === 429 || error instanceof
    EmbeddingError]. *)
Definition retryOption (chunk : ContentChunk) (total nFiles : nat) (error : JsError)
  : M bool :=
  if bool_decide (status error = Some 429) || instanceOfEmbeddingError error then
    let* l := getLocals in
    emit (Progress (progressOf l total nFiles (Some (basename (ch_path chunk))) true false)) >>
    emit (Logged LogProgress "") >>
    ret true
  else ret false.

(** The callback of [batch.map]: one chunk to one row, or [null]. *)
Definition processChunk (total nFiles : nat) (chunk : ContentChunk)
  : M (option InsertEmbedding) :=
  let* c := readCancelled ChunkStart in
  if c then ret None else
  tryCatch
    (let* e := backOff 5 (embedRequest chunk total nFiles)
                 (retryOption chunk total nFiles) in
     ret (Some e))
    (fun error =>
       if bool_decide (message error = "Cancelled") then ret None
       else
         updateLocals (fun l => mkLocals (completed l) (processedFiles l)
                                  (lastProgressUpdate l)
                                  (failedChunks l ++ [(ch_path chunk, message error)])) >>
         ret None).

(** [repository.insertVectors(vectors)] *)
Definition insertVectorsM (vectors : list InsertEmbedding) : M unit :=
  updateDb (insertVectors vectors) >> emit (Inserted vectors).

(** The three statements run where the loop finds the flag set. *)
Definition reportCancelled (total nFiles : nat) : M unit :=
  let* l := getLocals in
  emit (Logged LogCancelled "") >>
  emit (Progress (progressOf l total nFiles None false true)).

End Engine.

Section IndexEngine.
Context `{Env}.

(** [contentChunks.slice(i, i + n)] for [i = 0, n, 2n, ...]. *)
Fixpoint slices {A : Type} (fuel n : nat) (l : list A) : list (list A) :=
  match fuel with
  | O => []
  | S fuel' =>
      match l with
      | [] => []
      | _ => take n l :: slices fuel' n (drop n l)
      end
  end.

Definition batchSize : nat := 10.

Record EmbeddingsResult : Type := mkResult { wasCancelled : bool }.

(** The batch loop of [processEmbeddings], on the batches that remain;
    it answers whether it returned early because of cancellation. *)
Fixpoint batchLoop (total nFiles : nat) (batches : list (list ContentChunk)) : M bool :=
  match batches with
  | [] => ret false
  | batch :: rest =>
      let* c0 := readCancelled BeforeBatch in
      if c0 then reportCancelled total nFiles >> ret true else
      let* embeddingBatch := mapM (processChunk total nFiles) batch in
      let* c1 := readCancelled AfterBatch in
      if c1 then reportCancelled total nFiles >> ret true else
      let validEmbeddings := omap id embeddingBatch in
      (match validEmbeddings with
       | [] => ret tt
       | _ => insertVectorsM validEmbeddings
       end) >>
      let* c2 := readCancelled AfterInsert in
      if c2 then reportCancelled total nFiles >> ret true else
      let* l := getLocals in
      emit (Progress (progressOf l total nFiles None false false)) >>
      emit (Logged LogProgress "") >>
      batchLoop total nFiles rest
  end.

(** [VectorManager.processEmbeddings] *)
Definition processEmbeddings (chunks : list ContentChunk) (nFiles : nat)
  : M EmbeddingsResult :=
  let total := length chunks in
  let* start := dateNow in
  updateLocals (fun _ => mkLocals 0 [] start []) >>
  let* cancelled := batchLoop total nFiles (slices total batchSize chunks) in
  if cancelled then ret (mkResult true) else
  let* l := getLocals in
  match failedChunks l with
  | _ :: _ =>
      let msg := "Failed to embed " +:+ pretty (length (failedChunks l))
                 +:+ " out of " +:+ pretty total +:+ " chunks" in
      emit (Logged LogWarning msg) >>
      throw (IndexingError (msg +:+ ". Check API configuration and rate limits."))
  | [] =>
      emit (Progress (progressOf l total nFiles None false false)) >>
      emit (Logged LogProgress "") >>
      ret (mkResult false)
  end.

(** [VectorManager.recordSkippedFiles] *)
Definition recordSkippedFiles (skippedFs : list SkippedFile) (allFiles : list FileInfo)
  : M unit :=
  match skippedFs with
  | [] => ret tt
  | _ =>
      let* m := getModel in
      match dummyEmbeddings skippedFs allFiles m with
      | [] => ret tt
      | dummies => insertVectorsM dummies
      end
  end.

(** [VectorManager.getFilesToIndex]: the files on disk that are new or
    modified with respect to the store. *)
Definition getFilesToIndex (m : EmbeddingModelClient) (d : Database) : list FileInfo :=
  let allFiles := scanFiles in
  let indexedFilePaths := getIndexedFilePaths thisWorkspaceId m d in
  let indexedMtimes := getFileModificationTimes thisWorkspaceId indexedFilePaths m d in
  getFilesToReindex allFiles indexedMtimes.

(** [VectorManager.deleteVectorsForDeletedFiles] *)
Definition pruneDeletedFiles (m : EmbeddingModelClient) (d : Database) : Database :=
  let indexedFilePaths := getIndexedFilePaths thisWorkspaceId m d in
  let existingFilePaths := List.filter fileExists indexedFilePaths in
  let currentFilePaths := map fi_path scanFiles in
  let validFilePaths :=
    List.filter (fun p => bool_decide (p ∈ currentFilePaths)) existingFilePaths in
  deleteVectorsForDeletedFiles thisWorkspaceId validFilePaths m d.

(** The files an update works on, with the deletions that come first:
    a full rebuild takes every file of the scan and clears the partition;
    an incremental update prunes the rows of files that are gone, takes
    the new or modified files and deletes the rows they already have. *)
Definition selectFilesToIndex (reindexAll : bool) : M (list FileInfo) :=
  let* m := getModel in
  if reindexAll then
    updateDb (clearAllVectors thisWorkspaceId m) >> ret scanFiles
  else
    updateDb (pruneDeletedFiles m) >>
    let* files := queryDb (getFilesToIndex m) in
    (match files with
     | [] => ret tt
     | _ => updateDb (deleteVectorsForMultipleFiles thisWorkspaceId
                         (map fi_path files) m)
     end) >>
    ret files.

(** "Record skipped files in database to prevent re-indexing attempts". *)
Definition recordSkipped (prepared : Prepared) (filesToIndex : list FileInfo) : M unit :=
  match skippedFiles prepared with
  | [] => ret tt
  | skippedFs =>
      emit (ConsoleWarn ("Skipped " +:+ pretty (length skippedFs)
                         +:+ " file(s) with no indexable content")) >>
      recordSkippedFiles skippedFs filesToIndex
  end.

(** From the warning about failed files to the end of the [try] block. *)
Definition embedPrepared (prepared : Prepared) (nFiles : nat) : M unit :=
  let chunks := contentChunks prepared in
  (match failedFiles prepared with
   | [] => ret tt
   | failed =>
       emit (Logged LogWarning ("Failed to process " +:+ pretty (length failed)
                                +:+ " file(s)"))
   end) >>
  match chunks with
  | [] =>
      if Nat.eqb (length (failedFiles prepared)) 0
         && (0 <? length (skippedFiles prepared))%nat
      then emit (Logged LogComplete "")
      else
        let errorMessage :=
          "All files failed to process. No content to index. (Total: " +:+ pretty nFiles
          +:+ ", Skipped: " +:+ pretty (length (skippedFiles prepared))
          +:+ ", Failed: " +:+ pretty (length (failedFiles prepared)) +:+ ")" in
        emit (Logged LogError errorMessage) >>
        emit (Logged LogWarning "Index preparation failed") >>
        throw (IndexingError errorMessage)
  | _ =>
      emit (Logged LogStart "") >>
      emit (Progress (mkProgress 0 (length chunks) nFiles None (Some 0%nat) false false)) >>
      let* result := processEmbeddings chunks nFiles in
      if negb (wasCancelled result) then emit (Logged LogComplete "")
      else ret tt
  end.

(** The [try] block of [updateVaultIndexInternal]. *)
Definition updateBody (reindexAll : bool) : M unit :=
  let* filesToIndex := selectFilesToIndex reindexAll in
  match filesToIndex with
  | [] => emit (Progress (mkProgress 0 0 0 None None false false))
  | _ =>
      let prepared := prepareContentChunks filesToIndex in
      let nFiles := length filesToIndex in
      let* c := readCancelled AfterPrepare in
      if c then
        emit (Logged LogCancelled "") >>
        emit (Progress (mkProgress 0 (length (contentChunks prepared)) nFiles None
                          (Some 0%nat) false true))
      else
        recordSkipped prepared filesToIndex >>
        embedPrepared prepared nFiles
  end.

(** [VectorManager.updateVaultIndexInternal]: the body, and the [catch]
    that logs the error and throws it again. The two readings of the
    clock that only time the run for the log are left out. *)
Definition updateVaultIndexInternal (reindexAll : bool) : M unit :=
  tryCatch (updateBody reindexAll)
    (fun error => emit (Logged LogError (message error)) >> throw error).

(** [VectorRepository.acquireAdvisoryLock], from the moment the
    database grants the lock. *)
Definition acquireAdvisoryLock (w : string) : M unit :=
  let lockKey := workspaceIdToLockKey w in
  fun st => (Returned tt, record (AdvisoryLock lockKey) (withLocks (cons lockKey) st)).

(** Removing one hold of a key, as [pg_advisory_unlock] does. *)
Fixpoint removeOne (k : Z) (ks : list Z) : list Z :=
  match ks with
  | [] => []
  | k' :: ks' => if k =? k' then ks' else k' :: removeOne k ks'
  end.

(** [VectorRepository.releaseAdvisoryLock] as a state change. *)
Definition releaseAdvisoryLock (w : string) (st : World) : World :=
  let lockKey := workspaceIdToLockKey w in
  record (AdvisoryUnlock lockKey) (withLocks (removeOne lockKey) st).

(** [VectorRepository.withAdvisoryLock] *)
Definition withAdvisoryLock {A : Type} (w : string) (fn : M A) : M A :=
  acquireAdvisoryLock w >> tryFinally fn (releaseAdvisoryLock w).

(** [VectorManager.updateVaultIndex] *)
Definition updateVaultIndex (reindexAll : bool) : M unit :=
  withAdvisoryLock thisWorkspaceId (updateVaultIndexInternal reindexAll).

(** ** Schema validation at start-up (core/rag-engine.ts) *)

Record SchemaValidation : Type := mkValidation {
  valid : bool;
  v_schemaDimension : option nat;
  v_embeddingDimension : nat;
  v_message : option string
}.

(** [VectorManager.validateSchemaDimension] *)
Definition validateSchemaDimension (embeddingDimension : nat) (d : Database)
  : SchemaValidation :=
  match schemaDimension d with
  | None =>
      mkValidation false None embeddingDimension
        (Some "Database schema not initialized. Please run schema initialization.")
  | Some sd =>
      if negb (Nat.eqb sd embeddingDimension) then
        mkValidation false (Some sd) embeddingDimension
          (Some ("Schema dimension mismatch: database expects vector(" +:+ pretty sd
                 +:+ "), but embedding model produces " +:+ pretty embeddingDimension
                 +:+ " dimensions."))
      else mkValidation true (Some sd) embeddingDimension None
  end.

(** [RAGEngine.validateSchemaDimension]: a failed validation is written
    to the console and nothing else. *)
Definition engineValidateSchemaDimension : M unit :=
  let* m := getModel in
  let* validation := queryDb (validateSchemaDimension (em_dimension m)) in
  if negb (valid validation) then
    emit (ConsoleWarn ("SCHEMA DIMENSION MISMATCH DETECTED: "
                       +:+ default "Unknown validation error" (v_message validation)))
  else ret tt.

(** [createEmbeddingsTableSQL]: [CREATE TABLE IF NOT EXISTS] with an
    [embedding vector(768)] column. *)
Definition createEmbeddingsTable (d : Database) : Database :=
  match embeddingColumn d with
  | Some _ => d
  | None => mkDb (Some 768%nat) (Some ("USER-DEFINED", "vector")) (nextId d) (rows d)
  end.

(** [RAGEngine.initialize]: create the table when it is absent, then
    validate. *)
Definition initialize : M unit :=
  updateDb createEmbeddingsTable >> engineValidateSchemaDimension.

End IndexEngine.

(** ** The rebuild handlers (index-manager.ts, mcp-server.ts)

    The index manager, which serves the console, and the MCP server each
    guard indexing with a mutex of the async-mutex library and run the
    same callback under [runExclusive]. *)

Module IndexManager.

Record Request : Type := mkRequest { req_id : nat; reindexAll : bool }.

(** The handler's answer, in the tool-result format; the texts without
    their decoration and without the progress log. *)
Record McpResult : Type := mkMcp { isError : bool; text : string }.

(** How [ragEngine.updateVaultIndex] ended, as the handler sees it. *)
Inductive IndexingOutcome : Type :=
| Completed
| CancelledByUser
| Failed (errorMessage : string).

(** The value the callback given to [runExclusive] returns. *)
Definition callbackResult (r : Request) (o : IndexingOutcome) : McpResult :=
  match o with
  | CancelledByUser => mkMcp false "Index operation cancelled."
  | Completed =>
      mkMcp false ("Index " +:+ (if reindexAll r then "rebuild" else "update")
                   +:+ " completed successfully.")
  | Failed errorMessage => mkMcp true ("Index operation failed: " +:+ errorMessage)
  end.

(** The value of the [catch] around [runExclusive]. *)
Definition busyResult : McpResult :=
  mkMcp true
    ("Index operation already in progress. Please wait for the current "
     +:+ "operation to complete or cancel it first.").

(** The console's status code for an answer (progress-server.ts). *)
Definition httpStatus (res : McpResult) : Z := if isError res then 409 else 200.

(** How the mutex was built: [new Mutex()] in index-manager.ts,
    [tryAcquire(new Mutex())] in mcp-server.ts. *)
Inductive MutexKind : Type := PlainMutex | TryAcquireMutex.

(** The process between two turns of the event loop: the mutex is held
    by the request whose indexing is in progress, if any; the callers
    suspended inside [runExclusive] wait in arrival order; the answers
    already sent are kept with the request they answer. *)
Record Manager : Type := mkManager {
  running : option Request;
  waiting : list Request;
  isCancelledFlag : bool;
  answered : list (nat * McpResult)
}.

Definition idle : Manager := mkManager None [] false [].

Inductive Input : Type :=
| RebuildRequested (r : Request)       (* a rebuild request reaches the handler *)
| CancelRequested                      (* a cancel request reaches its handler *)
| IndexingSettled (o : IndexingOutcome). (* updateVaultIndex of the holder settles *)

(** [runExclusive(callback)] of async-mutex acquires the mutex, runs the
    callback and releases the mutex. On a plain mutex the caller waits
    in a queue while the mutex is held, and the call rejects only when
    the mutex is cancelled, which neither process does; on a mutex
    wrapped by [tryAcquire] the call rejects at once when the mutex is
    held. The callback resets the cancellation flag and starts
    indexing. *)
Definition step (kind : MutexKind) (m : Manager) (i : Input) : Manager :=
  match i with
  | RebuildRequested r =>
      match running m with
      | None => mkManager (Some r) (waiting m) false (answered m)
      | Some _ =>
          match kind with
          | PlainMutex =>
              mkManager (running m) (waiting m ++ [r]) (isCancelledFlag m) (answered m)
          | TryAcquireMutex =>
              mkManager (running m) (waiting m) (isCancelledFlag m)
                        (answered m ++ [(req_id r, busyResult)])
          end
      end
  | CancelRequested => mkManager (running m) (waiting m) true (answered m)
  | IndexingSettled o =>
      match running m with
      | None => m
      | Some r =>
          let answered' := answered m ++ [(req_id r, callbackResult r o)] in
          match waiting m with
          | [] => mkManager None [] (isCancelledFlag m) answered'
          | next :: rest => mkManager (Some next) rest false answered'
          end
      end
  end.

Definition run (kind : MutexKind) (m : Manager) (inputs : list Input) : Manager :=
  fold_left (step kind) inputs m.

(** The handler set by [setupHandlers] in index-manager.ts. *)
Definition rebuildIndexHandler : Manager -> list Input -> Manager := run PlainMutex.

(** [SmartComposerRAGServer.handleRebuildIndex] in mcp-server.ts. *)
Definition handleRebuildIndex : Manager -> list Input -> Manager := run TryAcquireMutex.

End IndexManager.

(** ** The diff as the specification words it

    The rows the store holds for a path, the stored modification time
    (the largest [mtime] among them, when there is one), and the rule
    "new, or modified since; never an empty file". *)

Definition storedRows (w : string) (m : EmbeddingModelClient) (p : string) (d : Database)
  : list SelectEmbedding :=
  List.filter (fun r => inPartition w m r && bool_decide (path (row r) = p)) (rows d).

Definition storedMtime (w : string) (m : EmbeddingModelClient) (p : string) (d : Database)
  : option Z :=
  match map (fun r => mtime (row r)) (storedRows w m p d) with
  | [] => None
  | t :: ts => Some (fold_left Z.max ts t)
  end.

(** The largest of 0 and the stored [mtime]s of a path. *)
Definition storedMax0 (w : string) (m : EmbeddingModelClient) (p : string) (d : Database) : Z :=
  fold_left Z.max (map (fun r => mtime (row r)) (storedRows w m p d)) 0.

Definition specSelectsForReindex (w : string) (m : EmbeddingModelClient) (d : Database)
    (file : FileInfo) : bool :=
  negb (st_size (fi_stat file) =? 0)
  && match storedMtime w m (fi_path file) d with
     | None => true
     | Some t => t <? st_mtime (fi_stat file)
     end.

(** ** Predicates on rows and events used in the statements *)

(** The row [e] was built from the chunk [c] by the embedding loop. *)
Definition FromChunk `{Env} (c : ContentChunk) (e : InsertEmbedding) : Prop :=
  workspaceId e = thisWorkspaceId /\ path e = ch_path c /\ mtime e = ch_mtime c
  /\ content e = ch_content c /\ metadata e = ch_metadata c.

Definition isInsert (e : Event) : bool :=
  match e with Inserted _ => true | _ => false end.

Definition isCall (e : Event) : bool :=
  match e with EmbeddingCall _ _ => true | _ => false end.

(** Progress callbacks, log entries and console warnings. *)
Definition isLog (e : Event) : bool :=
  match e with Progress _ | Logged _ _ | ConsoleWarn _ => true | _ => false end.

(** A reading of the flag that found it set. *)
Definition observesCancel (e : Event) : bool :=
  match e with CancelRead _ _ b => b | _ => false end.

(** A change of the table that only removes rows. *)
Definition Shrinks (f : Database -> Database) : Prop :=
  forall d r, In r (rows (f d)) -> In r (rows d).

(** The line range of a chunk row: 1-based and not empty. *)
Definition ChunkLines (md : VectorMetaData) : Prop :=
  skipped md = None /\ 1 <= startLine md /\ startLine md <= endLine md.

(** The line range of a skipped-file marker. *)
Definition MarkerLines (md : VectorMetaData) : Prop :=
  skipped md = Some true /\ startLine md = 0 /\ endLine md = 0.

(** The rows of [w'] are rows of [w] or satisfy [P]. *)
Definition RowsAdded (P : InsertEmbedding -> Prop) (w w' : World) : Prop :=
  forall r, In r (rows (db w')) -> In r (rows (db w)) \/ P (row r).

(** ** A small workspace for concrete runs *)

Definition isSpace (c : ascii) : bool :=
  Ascii.eqb c " " || Ascii.eqb c "009" || Ascii.eqb c "010" || Ascii.eqb c "013".

Fixpoint trimStart (s : string) : string :=
  match s with
  | EmptyString => EmptyString
  | String c s' => if isSpace c then trimStart s' else s
  end.

Definition reverseString (s : string) : string :=
  String.string_of_list_ascii (rev (String.list_ascii_of_string s)).

(** [String.prototype.trim] on ASCII blanks. *)
Definition asciiTrim (s : string) : string :=
  reverseString (trimStart (reverseString (trimStart s))).

(** An environment with the given files, file contents, cancellation
    oracle and provider; text is taken as it is and the splitter yields
    one document per line. *)
Definition demoEnv (files : list FileInfo) (contents : string -> Outcome JsError string)
    (cancel : nat -> bool) (provider : nat -> string -> Outcome JsError (list float)) : Env :=
  {| thisWorkspaceId := "0123456789abcdef";
     chunkSize := 1000;
     scanFiles := files;
     fileExists := fun p => bool_decide (p ∈ map fi_path files);
     readFileContent := contents;
     extname := fun _ => ".md";
     basename := fun p => p;
     extractTextContent := fun text _ => text;
     cleanTextForEmbedding := fun text => text;
     trim := asciiTrim;
     createDocuments := fun text => Returned (splitLines text);
     chunkSanitizeContent := fun text => text;
     isCancelledAt := cancel;
     embeddingsCreate := provider;
     dateNowAt := fun n => 1000 * Z.of_nat n |}.

Definition demoConfig : EmbeddingModelConfig := mkConfig Ollama "nomic-embed-text" None 2.

Definition demoWorld (d : Database) : World :=
  mkWorld d [] demoConfig (mkLocals 0 [] 0 []) 0 0 0 [].

Definition emptyDb : Database :=
  mkDb (Some 2%nat) (Some ("USER-DEFINED", "vector")) 1 [].

Definition neverCancelled : nat -> bool := fun _ => false.

(** A provider that answers every request with the same unit vector. *)
Definition constantProvider : nat -> string -> Outcome JsError (list float) :=
  fun _ _ => Returned [1%float; 0%float].

(** A file stamped with the epoch, already indexed with that stamp. *)
Definition epochFile : FileInfo := mkFileInfo "a.md" (mkStat 0 5).

Definition epochDb : Database :=
  mkDb (Some 2%nat) (Some ("USER-DEFINED", "vector")) 2
    [ mkRow 1 (mkInsert "0123456789abcdef" "a.md" 0 "hello" "nomic-embed-text" 2
                 [1%float; 0%float] (mkMeta 1 1 None None None)) ].

Definition epochEnv : Env :=
  demoEnv [epochFile] (fun _ => Returned "hello") neverCancelled constantProvider.

(** A workspace with one file of blanks and one file of two lines. *)
Definition blankFile : FileInfo := mkFileInfo "blank.md" (mkStat 10 3).
Definition notesFile : FileInfo := mkFileInfo "notes.md" (mkStat 20 10).

Definition twoFilesContents (p : string) : Outcome JsError string :=
  if bool_decide (p = "blank.md") then Returned "   "
  else if bool_decide (p = "notes.md") then Returned ("alpha" +:+ String "010" "beta")
  else Thrown (Error "ENOENT").

Definition twoFilesEnv : Env :=
  demoEnv [blankFile; notesFile] twoFilesContents neverCancelled constantProvider.

(** A table shared by two workspaces, with a native vector column or
    with the legacy JSONB column. *)
Definition sharedRows : list SelectEmbedding :=
  [ mkRow 1 (mkInsert "0123456789abcdef" "a.md" 10 "alpha" "nomic-embed-text" 2
               [1%float; 0%float] (mkMeta 1 1 None None None));
    mkRow 2 (mkInsert "fedcba9876543210" "b.md" 10 "alpha" "nomic-embed-text" 2
               [1%float; 0%float] (mkMeta 1 1 None None None));
    mkRow 3 (mkInsert "0123456789abcdef" "c.md" 10 "[SKIPPED: No indexable content]"
               "nomic-embed-text" 2 [0%float; 0%float]
               (mkMeta 0 0 (Some true) (Some "File is empty (size: 0 bytes)") (Some 0))) ].

Definition sharedDbVector : Database :=
  mkDb (Some 2%nat) (Some ("USER-DEFINED", "vector")) 4 sharedRows.

Definition sharedDbJsonb : Database :=
  mkDb None (Some ("jsonb", "jsonb")) 4 sharedRows.

Definition demoOptions : SearchOptions := mkOptions 0%float 10 None.

(** An operation that fails after one insertion. *)
Definition failingOperation : M unit :=
  insertVectorsM [mkInsert "0123456789abcdef" "a.md" 10 "alpha" "nomic-embed-text" 2
                    [1%float; 0%float] (mkMeta 1 1 None None None)]
  >> throw (Error "connection reset").

(** An incremental update of the two-file workspace, from an empty table. *)
Definition twoFilesRun : Outcome JsError unit * World :=
  @updateVaultIndex twoFilesEnv false (demoWorld emptyDb).

(** The entry of [skippedFiles] a file yields, if any: the file is read
    and its processed text is blank. *)
Definition skipOf `{Env} (file : FileInfo) : option SkippedFile :=
  match readFileContent (fi_path file) with
  | Thrown _ => None
  | Returned raw =>
      if Nat.eqb (String.length (trim (processedText file raw))) 0 then
        Some (mkSkipped (fi_path file)
                (if st_size (fi_stat file) =? 0
                 then "File is empty (size: 0 bytes)"
                 else "File contains no indexable content after processing")
                (st_size (fi_stat file)))
      else None
  end.

(** The rows of the partition stored for path [p] are the same in both
    worlds. *)
Definition SameStored (w0 : string) (m : EmbeddingModelClient) (p : string)
    (w w' : World) : Prop :=
  storedRows w0 m p (db w') = storedRows w0 m p (db w).

(** The files [selectFilesToIndex] returns and the table it leaves. *)
Definition filesSelected `{Env} (reindexAll : bool) (m : EmbeddingModelClient) (d : Database)
  : list FileInfo :=
  if reindexAll then scanFiles else getFilesToIndex m (pruneDeletedFiles m d).

Definition dbAfterSelect `{Env} (reindexAll : bool) (m : EmbeddingModelClient) (d : Database)
  : Database :=
  if reindexAll then clearAllVectors thisWorkspaceId m d
  else deleteVectorsForMultipleFiles thisWorkspaceId
         (map fi_path (getFilesToIndex m (pruneDeletedFiles m d))) m
         (pruneDeletedFiles m d).

(** The row is in the partition of [w0] and [m] and belongs to path [p]. *)
Definition storedAt (w0 : string) (m : EmbeddingModelClient) (p : string)
    (e : InsertEmbedding) : bool :=
  bool_decide (workspaceId e = w0) && bool_decide (model e = em_id m)
  && bool_decide (path e = p).

(** The two-file workspace with the cancellation flag set throughout. *)
Definition cancelledEnv : Env :=
  demoEnv [blankFile; notesFile] twoFilesContents (fun _ => true) constantProvider.

(** The entry of [skippedFiles] for [blank.md]. *)
Definition blankSkipped : SkippedFile :=
  mkSkipped "blank.md" "File contains no indexable content after processing" 3.

(** The session holds the same advisory locks in both worlds. *)
Definition SameLocks (w w' : World) : Prop := heldLocks w' = heldLocks w.

(** ** Cancellation checkpoints in a trace *)

(** [guards g e]: the event [e] is an embedding call and [g] the reading
    before the call that found the flag clear, or [e] is an insertion and
    [g] the reading after the batch that found the flag clear. *)
Definition guards (g e : Event) : bool :=
  match e, g with
  | EmbeddingCall _ _, CancelRead BeforeCall _ false => true
  | Inserted _, CancelRead AfterBatch _ false => true
  | _, _ => false
  end.

Definition needsGuard (e : Event) : bool := isCall e || isInsert e.

(** In [t], every embedding call and every insertion comes immediately
    after the reading that guards it. *)
Definition Guarded (t : list Event) : Prop :=
  forall t1 e t2, t = t1 ++ e :: t2 -> needsGuard e = true ->
    exists t0 g, t1 = t0 ++ [g] /\ guards g e = true.

(** The readings of [t] are the oracle's answers at the ticks from [lo]
    up to [hi]. *)
Definition Faithful `{Env} (lo hi : nat) (t : list Event) : Prop :=
  forall cp k b, In (CancelRead cp k b) t -> (lo <= k < hi)%nat /\ b = isCancelledAt k.

(** The table after the insertions of a trace. *)
Definition applyInserts (t : list Event) (d : Database) : Database :=
  fold_left (fun d e => match e with Inserted vs => insertVectors vs d | _ => d end) t d.

(** What the processing of chunks does to a world: it appends events,
    none of them an insertion, every call guarded, the readings faithful,
    and it leaves the table alone. *)
Definition ChunkSteps `{Env} (w w' : World) : Prop :=
  exists t, trace w' = trace w ++ t
    /\ Guarded t
    /\ Forall (fun e => isInsert e = false) t
    /\ Faithful (cancelReads w) (cancelReads w') t
    /\ (cancelReads w <= cancelReads w')%nat
    /\ db w' = db w.

(** A cancellation flag that stays set once it is set: [cancel()] sets
    it and [reset()] is only called before an operation starts. *)
Definition Monotone (cancel : nat -> bool) : Prop :=
  forall i j, (i <= j)%nat -> cancel i = true -> cancel j = true.

(** What a run of the batch loop does to a world. Its trace [t] keeps
    calls and insertions guarded and the readings faithful, the table is
    the old one after the insertions of [t], and [t] splits in two: a
    first part in which no reading finds the flag set, and a rest without
    insertion, which is empty unless the loop returned because of
    cancellation. *)
Definition LoopRun `{Env} (w : World) (r : Outcome JsError bool) (w' : World) : Prop :=
  exists t, trace w' = trace w ++ t
    /\ Guarded t
    /\ Faithful (cancelReads w) (cancelReads w') t
    /\ (cancelReads w <= cancelReads w')%nat
    /\ db w' = applyInserts t (db w)
    /\ exists q tail, t = q ++ tail
         /\ Forall (fun e => observesCancel e = false) q
         /\ Forall (fun e => isInsert e = false) tail
         /\ (r = Returned true \/ (r = Returned false /\ tail = [])).

(** A flag that is set from the [k]-th reading on. *)
Definition cancelFrom (k : nat) : nat -> bool := fun n => Nat.leb k n.

(** The two-line file, with the flag set between the two provider calls. *)
Definition lateCancelEnv : Env :=
  demoEnv [notesFile] twoFilesContents (cancelFrom 3) constantProvider.

Definition notesChunks : list ContentChunk :=
  [ mkChunk "notes.md" 20 "alpha" (mkMeta 1 1 None None None);
    mkChunk "notes.md" 20 "beta" (mkMeta 2 2 None None None) ].

(** ** Failed attempts in a trace *)

(** What one failed attempt of [backOff] leaves in the trace when the
    [retry] option answers true: the reading before the call, the call,
    and the progress report with [waitingForRateLimit]. *)
Definition attemptEvents `{Env} (chunk : ContentChunk) (total nFiles : nat) (l : Locals)
    (c k : nat) : list Event :=
  [ CancelRead BeforeCall c false;
    EmbeddingCall k (ch_content chunk);
    Progress (progressOf l total nFiles (Some (basename (ch_path chunk))) true false);
    Logged LogProgress "" ].

(** [n] such attempts in a row, from the [c]-th reading of the flag and
    the [k]-th request. *)
Fixpoint attempts `{Env} (n : nat) (chunk : ContentChunk) (total nFiles : nat) (l : Locals)
    (c k : nat) : list Event :=
  match n with
  | O => []
  | S n' => attemptEvents chunk total nFiles l c k
            ++ attempts n' chunk total nFiles l (S c) (S k)
  end.

(** The world after [n] such attempts. *)
Definition afterAttempts `{Env} (n : nat) (chunk : ContentChunk) (total nFiles : nat)
    (w : World) : World :=
  mkWorld (db w) (heldLocks w) (config w) (locals w)
          (n + cancelReads w) (n + embeddingCalls w) (clockReads w)
          (trace w ++ attempts n chunk total nFiles (locals w)
                        (cancelReads w) (embeddingCalls w)).

(** The message the OpenAI client gives a request refused with 401. *)
Definition invalidKeyMessage : string :=
  "OpenAI API key is invalid. Please update it in configuration.".

(** A provider that refuses every request with 401, and a client
    configured for it. *)
Definition unauthorizedProvider : nat -> string -> Outcome JsError (list float) :=
  fun _ _ => Thrown (mkJsError false (Some 401) "Incorrect API key provided").

Definition unauthorizedEnv : Env :=
  demoEnv [notesFile] twoFilesContents neverCancelled unauthorizedProvider.

Definition openAIConfig : EmbeddingModelConfig :=
  mkConfig OpenAI "text-embedding-3-small" (Some "sk-invalid") 2.

Definition openAIWorld (d : Database) : World :=
  mkWorld d [] openAIConfig (mkLocals 0 [] 0 []) 0 0 0 [].

(** ** The declared dimension of the vector column *)

(** The same table with another declared dimension of its [embedding]
    column. *)
Definition setSchemaDimension (s : option nat) (d : Database) : Database :=
  mkDb s (embeddingColumn d) (nextId d) (rows d).

Definition declaring (s : option nat) (w : World) : World :=
  withDb (setSchemaDimension s) w.

(** An operation that does not look at the declared dimension and does
    not change it: with another declaration it gives the same outcome,
    and the same world up to the declaration. *)
Definition Blind {A : Type} (m : M A) : Prop :=
  forall s w, m (declaring s w) = ((m w).1, declaring s (m w).2).

(** A table with a declared dimension of 768, holding one row of the
    workspace for a model of dimension 2, and no file left on disk. *)
Definition mismatchedDb : Database :=
  mkDb (Some 768%nat) (Some ("USER-DEFINED", "vector")) 2
    [ mkRow 1 (mkInsert "0123456789abcdef" "a.md" 10 "hello" "nomic-embed-text" 2
                 [1%float; 0%float] (mkMeta 1 1 None None None)) ].

Definition noFilesEnv : Env :=
  demoEnv [] (fun _ => Thrown (Error "ENOENT")) neverCancelled constantProvider.

(** ** Folder scopes of a query (utils/folder-utils.ts) *)

(** [s.includes(c)] for a single character [c]. *)
Fixpoint includesChar (c : ascii) (s : string) : bool :=
  match s with
  | EmptyString => false
  | String c' s' => Ascii.eqb c' c || includesChar c s'
  end.

(** [convertFolderToGlob]: a glob is kept, a root-relative path loses its
    slash and gets [/**], a directory name is wrapped in [**/] and [/**]. *)
Definition convertFolderToGlob (folder : string) : string :=
  if includesChar "*" folder then folder
  else match folder with
       | String c rest =>
           if Ascii.eqb c "/" then rest +:+ "/**" else "**/" +:+ folder +:+ "/**"
       | EmptyString => "**/" +:+ folder +:+ "/**"
       end.

(** [SearchResult], what a query returns for a hit. *)
Record SearchResult : Type := mkSearchResult {
  sr_path : string;
  sr_content : string;
  sr_similarity : float;
  sr_metadata : VectorMetaData;
  sr_fileUri : string;
  sr_lineRange : Z * Z
}.

(** [filterByFolders]; [minimatch path pattern] is the glob matcher of
    the minimatch library with [matchBase: false]. *)
Definition filterByFolders (minimatch : string -> string -> bool)
    (results : list SearchResult) (folders : option (list string)) : list SearchResult :=
  match folders with
  | None | Some [] => results
  | Some fs =>
      let patterns := map convertFolderToGlob fs in
      List.filter
        (fun result => existsb (fun pattern => minimatch (sr_path result) pattern) patterns)
        results
  end.

(** ** Queries in the log (utils/log-sanitizer.ts) *)

(** [sanitizeQuery(query, maxLength)] for an integer [maxLength];
    [substring(0, n)] takes nothing when [n] is negative. *)
Definition sanitizeQuery (query : string) (maxLength : Z) : string :=
  if Z.of_nat (String.length query) <=? maxLength then query
  else String.substring 0 (Z.to_nat maxLength) query
       +:+ "... (" +:+ pretty (String.length query) +:+ " chars)".

(** ** The answer formatter's selection (core/response-formatter.ts) *)

(** The [filter] with the [seenPaths] set: the first result of each path. *)
Fixpoint dedupeFrom (seenPaths : list string) (rs : list SearchResult) : list SearchResult :=
  match rs with
  | [] => []
  | r :: rs' =>
      if bool_decide (sr_path r ∈ seenPaths) then dedupeFrom seenPaths rs'
      else r :: dedupeFrom (sr_path r :: seenPaths) rs'
  end.

(** [ResponseFormatter.filterAndDeduplicateResults] *)
Definition filterAndDeduplicateResults (results : list SearchResult) : list SearchResult :=
  let sortedResults :=
    take 5 (sortBy (fun a b => (sr_similarity b - sr_similarity a)%float) results) in
  dedupeFrom [] sortedResults.

(** ** The scan of the workspace (utils/file-utils.ts) *)

Module FileSystemUtils.

(** [getAllFiles]: the matches of every include pattern, without
    duplicates, minus the paths an exclude pattern matches. [glob] lists
    the files of the workspace a pattern matches; [minimatch] is the
    matcher with [dot: true]. *)
Definition getAllFiles (glob : string -> list string) (minimatch : string -> string -> bool)
    (includePatterns excludePatterns : list string) : list string :=
  let allFiles := concat (map glob includePatterns) in
  let uniqueFiles := unique allFiles in
  List.filter
    (fun filePath => negb (existsb (fun pattern => minimatch filePath pattern) excludePatterns))
    uniqueFiles.

(** [getFilesToIndex]: the same paths with their [stat]; a path whose
    [stat] fails or that is no regular file is left out. [statOf] answers
    [isFile()] and the [mtime] and [size] of a path. *)
Definition getFilesToIndex (glob : string -> list string) (minimatch : string -> string -> bool)
    (statOf : string -> Outcome JsError (bool * FileStat))
    (includePatterns excludePatterns : list string) : list FileInfo :=
  omap (fun filePath =>
          match statOf filePath with
          | Returned (true, fileStat) => Some (mkFileInfo filePath fileStat)
          | _ => None
          end)
       (getAllFiles glob minimatch includePatterns excludePatterns).

End FileSystemUtils.

(** ** More queries of the repository (database/vector-repository.ts) *)

(** [VectorRepository.getVectorsByFilePath]; the column [embedding] is
    [NOT NULL], so the final filter keeps every row. *)
Definition getVectorsByFilePath (w : string) (filePaths : list string)
    (m : EmbeddingModelClient) (db : Database) : list SelectEmbedding :=
  match filePaths with
  | [] => []
  | _ => List.filter (fun r => inPartition w m r && bool_decide (path (row r) ∈ filePaths))
           (rows db)
  end.

(** [VectorRepository.getTotalIndexedFiles]: [COUNT(DISTINCT path)]. *)
Definition getTotalIndexedFiles (w : string) (m : EmbeddingModelClient) (db : Database) : nat :=
  length (unique (map (fun r => path (row r)) (List.filter (inPartition w m) (rows db)))).

(** [VectorRepository.getTotalIndexedChunks] *)
Definition getTotalIndexedChunks (w : string) (m : EmbeddingModelClient) (db : Database) : nat :=
  length (List.filter (inPartition w m) (rows db)).

(** [VectorRepository.getIndexedFiles]: [SELECT DISTINCT path], here in
    the order of first occurrence. *)
Definition getIndexedFiles (w : string) (m : EmbeddingModelClient) (db : Database)
  : list string :=
  unique (map (fun r => path (row r)) (List.filter (inPartition w m) (rows db))).

(** The rows of the table that are not of workspace [w] and model [m]. *)
Definition otherRows (w : string) (m : EmbeddingModelClient) (db : Database)
  : list SelectEmbedding :=
  List.filter (fun r => negb (inPartition w m r)) (rows db).

(** ** Statistics and re-initialisation (core/vector-manager.ts) *)

Record ProjectStatistics : Type := mkStatistics {
  totalFilesInProject : nat;
  indexedFiles : nat;
  notIndexedFiles : Z;
  deletedFiles : nat
}.

Section Statistics.
Context `{Env}.

(** [VectorManager.getProjectStatistics] *)
Definition getProjectStatistics (m : EmbeddingModelClient) (d : Database)
  : ProjectStatistics :=
  let allFileInfos := scanFiles in
  let indexableFiles := List.filter (fun file => 0 <? st_size (fi_stat file)) allFileInfos in
  let indexableFilePaths := map fi_path indexableFiles in
  let total := length indexableFiles in
  let indexed := getTotalIndexedFiles thisWorkspaceId m d in
  let indexedFilePaths := getIndexedFiles thisWorkspaceId m d in
  let deleted :=
    length (List.filter (fun dbPath => negb (bool_decide (dbPath ∈ indexableFilePaths)))
              indexedFilePaths) in
  mkStatistics total indexed
    (Z.of_nat total - (Z.of_nat indexed - Z.of_nat deleted)) deleted.

(** [VectorManager.reinitializeSchema] *)
Definition reinitializeSchema (m : EmbeddingModelClient) : M unit :=
  updateDb (clearAllVectors thisWorkspaceId m).

End Statistics.

(** ** The registry of index managers (utils/index-manager-registry.ts)

    The registry is a JSON file with the list of the running index
    managers. The file is taken as it is on disk: absent, or holding a
    list; writing it succeeds. [isProcessAlive] is [process.kill(pid, 0)]
    and [now] the time of the call as an ISO string. *)

Module Registry.

Record IndexManagerInfo : Type := mkInfo {
  im_workspaceId : string;
  im_workspacePath : string;
  im_pid : Z;
  im_port : Z;
  im_startTime : string;
  im_lastActivity : option string
}.

Definition RegistryFile : Type := option (list IndexManagerInfo).

Definition read (file : RegistryFile) : list IndexManagerInfo := default [] file.

Definition cleanup (isProcessAlive : Z -> bool) (managers : list IndexManagerInfo)
  : list IndexManagerInfo :=
  List.filter (fun m => isProcessAlive (im_pid m)) managers.

(** [register(info)]: the file after the call. *)
Definition register (isProcessAlive : Z -> bool) (now : string) (info : IndexManagerInfo)
    (file : RegistryFile) : RegistryFile :=
  let data := cleanup isProcessAlive (read file) in
  let data :=
    List.filter (fun m => negb (bool_decide (im_workspaceId m = im_workspaceId info))) data in
  Some (data ++ [mkInfo (im_workspaceId info) (im_workspacePath info) (im_pid info)
                        (im_port info) (im_startTime info) (Some now)]).

(** [unregister(workspaceId)]: the file is written only when an entry
    went away. *)
Definition unregister (workspaceId : string) (file : RegistryFile) : RegistryFile :=
  let data := read file in
  let managers :=
    List.filter (fun m => negb (bool_decide (im_workspaceId m = workspaceId))) data in
  if (length managers <? length data)%nat then Some managers else file.

(** [getByWorkspace(workspaceId)]: the answer and the file after the
    call. *)
Definition getByWorkspace (isProcessAlive : Z -> bool) (workspaceId : string)
    (file : RegistryFile) : option IndexManagerInfo * RegistryFile :=
  let data := cleanup isProcessAlive (read file) in
  (List.find (fun m => bool_decide (im_workspaceId m = workspaceId)) data, Some data).

Definition getAll (isProcessAlive : Z -> bool) (file : RegistryFile)
  : list IndexManagerInfo * RegistryFile :=
  let data := cleanup isProcessAlive (read file) in (data, Some data).

Definition isPortInUse (port : Z) (file : RegistryFile) : bool :=
  existsb (fun m => im_port m =? port) (read file).

(** The [while] loop of [findAvailablePort] at [port], with [remaining]
    the number of ports above [port] that may still be tried: the loop
    gives up when [port + 1] exceeds [basePort + 100]. *)
Fixpoint probe (remaining : nat) (port : Z) (file : RegistryFile) : Outcome JsError Z :=
  if isPortInUse port file then
    match remaining with
    | O => Thrown (Error "No available ports (checked 100 ports)")
    | S remaining' => probe remaining' (port + 1) file
    end
  else Returned port.

(** [findAvailablePort(workspaceId, basePort)] *)
Definition findAvailablePort (isProcessAlive : Z -> bool) (workspaceId : string)
    (basePort : Z) (file : RegistryFile) : Outcome JsError Z * RegistryFile :=
  let '(existing, file') := getByWorkspace isProcessAlive workspaceId file in
  match existing with
  | Some info => (Returned (im_port info), file')
  | None => (probe 100 basePort file', file')
  end.

(** [cleanupAll()]: the counts [before], [after], [removed]. *)
Definition cleanupAll (isProcessAlive : Z -> bool) (file : RegistryFile)
  : (nat * nat * Z) * RegistryFile :=
  let before := length (read file) in
  let data := cleanup isProcessAlive (read file) in
  let after := length data in
  ((before, after, Z.of_nat before - Z.of_nat after), Some data).

End Registry.

(** ** The flag of the progress server (utils/progress-server-flag.ts)

    The flag file names the process that serves the console of a
    workspace. The file is absent or holds a record whose [server] may be
    missing; [self] is [process.pid]. *)

Module ProgressServerFlag.

Record Server : Type := mkServer { sv_pid : Z; sv_port : Z; sv_timestamp : string }.

Definition FlagFile : Type := option (option Server).

(** [readAndCleanup()]: the data and whether a dead server was removed. *)
Definition readAndCleanup (isProcessRunning : Z -> bool) (file : FlagFile)
  : option Server * bool :=
  match file with
  | None => (None, false)
  | Some None => (None, false)
  | Some (Some server) =>
      if negb (isProcessRunning (sv_pid server)) then (None, true)
      else (Some server, false)
  end.

(** [write(data)]: a record without server deletes the file. *)
Definition write (data : option Server) : FlagFile :=
  match data with
  | None => None
  | Some server => Some (Some server)
  end.

(** [getRunningServer()] *)
Definition getRunningServer (isProcessRunning : Z -> bool) (file : FlagFile)
  : option (Z * Z) * FlagFile :=
  let '(data, cleaned) := readAndCleanup isProcessRunning file in
  let file' := if cleaned then write data else file in
  (match data with
   | Some server => Some (sv_pid server, sv_port server)
   | None => None
   end, file').

(** [tryRegister(port)] *)
Definition tryRegister (isProcessRunning : Z -> bool) (self : Z) (now : string) (port : Z)
    (file : FlagFile) : bool * FlagFile :=
  let '(data, _) := readAndCleanup isProcessRunning file in
  match data with
  | Some server =>
      if isProcessRunning (sv_pid server) then (false, file)
      else (true, write (Some (mkServer self port now)))
  | None => (true, write (Some (mkServer self port now)))
  end.

(** [unregister()] *)
Definition unregister (isProcessRunning : Z -> bool) (self : Z) (file : FlagFile) : FlagFile :=
  let '(data, _) := readAndCleanup isProcessRunning file in
  match data with
  | Some server => if sv_pid server =? self then write None else file
  | None => file
  end.

End ProgressServerFlag.

(** ** Search sessions (core/session-manager.ts)

    [searchResults] is a [Map] from the identifier of a session to its
    results: an association list in insertion order, a key set again
    keeping its place. The two clock readings and the random identifier
    of [addSearchResult] are its inputs. *)

Module SessionManager.

Record SessionSearchResult : Type := mkSession {
  ss_id : string;
  ss_query : string;
  ss_timestamp : Z;
  ss_results : list SearchResult
}.

Definition Sessions : Type := list (string * SessionSearchResult).

Definition mapGet (id : string) (s : Sessions) : option SessionSearchResult :=
  option_map snd (List.find (fun e => bool_decide (e.1 = id)) s).

Definition mapDelete (id : string) (s : Sessions) : Sessions :=
  List.filter (fun e => negb (bool_decide (e.1 = id))) s.

Definition mapSet (id : string) (v : SessionSearchResult) (s : Sessions) : Sessions :=
  if existsb (fun e => bool_decide (e.1 = id)) s
  then map (fun e => if bool_decide (e.1 = id) then (id, v) else e) s
  else s ++ [(id, v)].

(** The body of the loop of [findOldestResult]. *)
Definition oldestStep (acc : option string * Z) (entry : string * SessionSearchResult)
  : option string * Z :=
  if ss_timestamp entry.2 <? acc.2 then (Some entry.1, ss_timestamp entry.2) else acc.

(** [findOldestResult()], with [now] the value of [Date.now()]. *)
Definition findOldestResult (now : Z) (s : Sessions) : option string :=
  (fold_left oldestStep s (None, now)).1.

(** [addSearchResult(query, results)]: the identifier and the map after
    the call. [uuid] is the value of [randomUUID()], [timestamp] the
    time of [new Date()]. An identifier that is the empty string counts
    as no identifier in [if (oldestId)]. *)
Definition addSearchResult (maxResults now : Z) (uuid : string) (timestamp : Z)
    (query : string) (results : list SearchResult) (s : Sessions) : string * Sessions :=
  let s1 :=
    if maxResults <=? Z.of_nat (length s) then
      match findOldestResult now s with
      | Some oldestId => if bool_decide (oldestId = "") then s else mapDelete oldestId s
      | None => s
      end
    else s in
  let id := "search_" +:+ String.substring 0 8 uuid in
  (id, mapSet id (mkSession id query timestamp results) s1).

(** [getResultsByIds(ids)] *)
Definition getResultsByIds (ids : list string) (s : Sessions) : list SearchResult :=
  concat (omap (fun id => option_map ss_results (mapGet id s)) ids).

End SessionManager.

(** ** What an update may write

    The rows an update of this workspace with the model [modelId] may
    add: they carry the workspace, the model, and the path and the
    modification time of a file of the scan. *)
Definition OwnRow `{Env} (modelId : string) (e : InsertEmbedding) : Prop :=
  workspaceId e = thisWorkspaceId /\ model e = modelId
  /\ exists file, In file scanFiles
                  /\ path e = fi_path file /\ mtime e = st_mtime (fi_stat file).

(** The table of [w'] holds the rows of other workspaces and models that
    the table of [w] holds, its embedding column is of the same type, and
    its other rows were in [w] or are rows the update may add. *)
Definition OwnWrites `{Env} (m : EmbeddingModelClient) (w w' : World) : Prop :=
  otherRows thisWorkspaceId m (db w') = otherRows thisWorkspaceId m (db w)
  /\ embeddingColumn (db w') = embeddingColumn (db w)
  /\ forall r, In r (rows (db w')) -> In r (rows (db w)) \/ OwnRow (em_id m) (row r).

(** The client is configured for the model of [m]. *)
Definition SameModelId (m : EmbeddingModelClient) (w : World) : Prop :=
  cfg_model (config w) = em_id m.

(** The chunk carries the path and the modification time of a file of
    the scan. *)
Definition FromScan `{Env} (c : ContentChunk) : Prop :=
  exists file, In file scanFiles
               /\ ch_path c = fi_path file /\ ch_mtime c = st_mtime (fi_stat file).

(** ** Progress reports in a trace *)

(** The progress objects given to [onProgress], in order. *)
Definition progressEvents (t : list Event) : list IndexProgress :=
  omap (fun e => match e with Progress p => Some p | _ => None end) t.

(** [ascending lo hi xs]: the numbers [xs] do not decrease, starting at
    [lo] or above and ending at [hi] or below. *)
Fixpoint ascending (lo hi : nat) (xs : list nat) : Prop :=
  match xs with
  | [] => (lo <= hi)%nat
  | x :: xs' => (lo <= x)%nat /\ ascending x hi xs'
  end.

(** From [w] to [w'] the count of completed chunks does not decrease,
    and the progress reports made in between carry counts that do not
    decrease either, between the count of [w] and the count of [w'],
    with [total] as the number of chunks and [nFiles] as the number of
    files. *)
Definition Advances (total nFiles : nat) (w w' : World) : Prop :=
  exists t, trace w' = trace w ++ t
    /\ ascending (completed (locals w)) (completed (locals w'))
         (map completedChunks (progressEvents t))
    /\ Forall (fun p => totalChunks p = total /\ totalFiles p = nFiles) (progressEvents t).

(** The count of completed chunks is [c]. *)
Definition Counting (c : nat) (w : World) : Prop := completed (locals w) = c.

(** The two worlds have the same count of completed chunks. *)
Definition SameCount (w w' : World) : Prop :=
  completed (locals w') = completed (locals w).

(** [Counts a b m]: a run of [m] that returns raises the count of
    completed chunks by [a] at most, and one that throws by [b] at
    most. *)
Definition Counts {A : Type} (a b : nat) (m : M A) : Prop :=
  forall w,
    (completed (locals (m w).2)
     <= completed (locals w) + match (m w).1 with Returned _ => a | Thrown _ => b end)%nat.

Section AfterReset.
Context `{Env}.

(** [processEmbeddings] from the batch loop on, that is, after it has
    set its variables. *)
Definition embedBatches (chunks : list ContentChunk) (nFiles : nat) : M EmbeddingsResult :=
  let total := length chunks in
  let* cancelled := batchLoop total nFiles (slices total batchSize chunks) in
  if cancelled then ret (mkResult true) else
  let* l := getLocals in
  match failedChunks l with
  | _ :: _ =>
      let msg := "Failed to embed " +:+ pretty (length (failedChunks l))
                 +:+ " out of " +:+ pretty total +:+ " chunks" in
      emit (Logged LogWarning msg) >>
      throw (IndexingError (msg +:+ ". Check API configuration and rate limits."))
  | [] =>
      emit (Progress (progressOf l total nFiles None false false)) >>
      emit (Logged LogProgress "") >>
      ret (mkResult false)
  end.

(** The world in which the batch loop starts: the clock has been read
    once and the variables are set. *)
Definition loopStart (w : World) : World :=
  withLocals (fun _ => mkLocals 0 [] (dateNowAt (clockReads w)) [])
    (mkWorld (db w) (heldLocks w) (config w) (locals w)
       (cancelReads w) (embeddingCalls w) (S (clockReads w)) (trace w)).

End AfterReset.

(** ** Queries (core/rag-engine.ts, core/vector-manager.ts) *)

(** [VaultSearchParams]; an absent field is [None]. *)
Record VaultSearchParams : Type := mkParams {
  vp_query : string;
  vp_limit : option nat;
  vp_minSimilarity : option float;
  vp_files : option (list string);
  vp_folders : option (list string)
}.

Section Queries.
Context `{Env} `{DbEngine}.
(** [fileUriOf p] is the [file://] URI built from the workspace path and
    [p] with [path.resolve] and [encodeURI]; [minimatch] is the glob
    matcher. *)
Variables (fileUriOf : string -> string) (minimatch : string -> string -> bool).

(** The object [VectorManager.performSimilaritySearch] builds from a
    result of the repository. *)
Definition toSearchResult (result : SearchHit) : SearchResult :=
  let e := row (hit_row result) in
  mkSearchResult (path e) (content e) (similarity result) (metadata e)
    (fileUriOf (path e)) (startLine (metadata e), endLine (metadata e)).

(** [VectorManager.performSimilaritySearch] *)
Definition managerPerformSimilaritySearch (queryEmbedding : list float)
    (embeddingModel : EmbeddingModelClient) (options : SearchOptions)
  : M (list SearchResult) :=
  fun w =>
    match performSimilaritySearch thisWorkspaceId queryEmbedding embeddingModel options
            (db w) with
    | Returned results => (Returned (map toSearchResult results), w)
    | Thrown e => (Thrown e, w)
    end.

(** [RAGEngine.processQuery]; [maxResults] and [minSimilarityDefault]
    are [config.search.maxResults] and [config.search.minSimilarity]. *)
Definition processQuery (maxResults : nat) (minSimilarityDefault : float)
    (params : VaultSearchParams) : M (list SearchResult) :=
  let limit := default maxResults (vp_limit params) in
  let minSimilarity := default minSimilarityDefault (vp_minSimilarity params) in
  let* queryEmbedding := getEmbedding (vp_query params) in
  let* embeddingModel := getModel in
  let* results :=
    managerPerformSimilaritySearch queryEmbedding embeddingModel
      (mkOptions minSimilarity limit (vp_files params)) in
  match vp_folders params with
  | Some (f :: fs) => ret (filterByFolders minimatch results (Some (f :: fs)))
  | _ => ret results
  end.

End Queries.

(** The two-file workspace fully indexed: a marker for the blank file
    and a chunk for the notes, each stamped with the time of its file. *)
Definition upToDateDb : Database :=
  mkDb (Some 2%nat) (Some ("USER-DEFINED", "vector")) 3
    [ mkRow 1 (mkInsert "0123456789abcdef" "blank.md" 10 "[SKIPPED: No indexable content]"
                 "nomic-embed-text" 2 [0%float; 0%float]
                 (mkMeta 0 0 (Some true)
                    (Some "File contains no indexable content after processing") (Some 3)));
      mkRow 2 (mkInsert "0123456789abcdef" "notes.md" 20 "alpha" "nomic-embed-text" 2
                 [1%float; 0%float] (mkMeta 1 1 None None None)) ].

(** * Part II: properties *)

(** ** Cosine similarity *)

Section CosineFacts.
Local Open Scope float_scope.

(** The single loop computes the three sums independently. *)
Lemma cosineStep_fold (a b : list float) (d sa sb : float) :
  length a = length b ->
  fold_left cosineStep (combine a b) (d, sa, sb)
  = (fold_left (fun acc xy => acc + fst xy * snd xy) (combine a b) d,
     fold_left (fun acc x => acc + x * x) a sa,
     fold_left (fun acc x => acc + x * x) b sb).
Proof.
  revert b d sa sb.
  induction a as [|x a IH]; intros [|y b] d sa sb Hlen; simpl in *;
    try discriminate; [reflexivity|].
  apply IH. congruence.
Qed.

(** C10. [calculateCosineSimilarity] returns on every pair of vectors
    of equal length: 0 when one of the two norms is zero (the quotient
    is then not formed), and the dot product divided by the product of
    the norms otherwise; on vectors of different lengths it throws
    "Vector dimensions must match". *)
Theorem calculateCosineSimilarity_total (a b : list float) :
  (length a = length b ->
     ((normOf a =? 0) || (normOf b =? 0) = true ->
        calculateCosineSimilarity a b = Returned 0)
     /\ ((normOf a =? 0) || (normOf b =? 0) = false ->
        calculateCosineSimilarity a b = Returned (dotOf a b / (normOf a * normOf b))))
  /\ (length a <> length b ->
        calculateCosineSimilarity a b = Thrown (Error "Vector dimensions must match")).
Proof.
  unfold calculateCosineSimilarity. split.
  - intros Hlen.
    rewrite (proj2 (Nat.eqb_eq _ _) Hlen). simpl negb. cbv iota.
    rewrite (cosineStep_fold a b 0 0 0 Hlen).
    fold (dotOf a b). unfold normOf.
    split; intros Hz; rewrite Hz; reflexivity.
  - intros Hne.
    rewrite (proj2 (Nat.eqb_neq _ _) Hne). reflexivity.
Qed.

End CosineFacts.

(** ** A program logic for the monad

    [Hoare R Q m]: from every world, [m] ends in a world related to the
    first by [R], and a value it returns satisfies [Q]. With [R] a
    preorder the judgement follows the structure of the code. *)

Definition Hoare {A : Type} (R : World -> World -> Prop) (Q : A -> Prop) (m : M A) : Prop :=
  forall w, R w (m w).2 /\ forall a, (m w).1 = Returned a -> Q a.

Definition Step {A : Type} (R : World -> World -> Prop) (m : M A) : Prop :=
  Hoare R (fun _ => True) m.

Section HoareRules.
Context (R : World -> World -> Prop) `{!PreOrder R}.

Lemma Hoare_weaken {A} (Q1 Q2 : A -> Prop) (m : M A) :
  (forall a, Q1 a -> Q2 a) -> Hoare R Q1 m -> Hoare R Q2 m.
Proof. intros HQ Hm w. destruct (Hm w) as [HR Ha]. split; auto. Qed.

Lemma Hoare_step {A} (Q : A -> Prop) (m : M A) : Hoare R Q m -> Step R m.
Proof. apply Hoare_weaken. auto. Qed.

Lemma Hoare_ret {A} (Q : A -> Prop) (a : A) : Q a -> Hoare R Q (ret a).
Proof. intros Ha w. split; [reflexivity|]. simpl. intros a' [= <-]. exact Ha. Qed.

Lemma Hoare_throw {A} (Q : A -> Prop) (e : JsError) : Hoare R Q (throw e).
Proof. intros w. split; [reflexivity|]. simpl. discriminate. Qed.

(** A primitive that changes the world by [g] and returns [a]. *)
Lemma Hoare_prim {A} (Q : A -> Prop) (a : World -> A) (g : World -> World) :
  (forall w, R w (g w)) -> (forall w, Q (a w)) ->
  Hoare R Q (fun w => (Returned (a w), g w)).
Proof. intros Hg Ha w. split; [apply Hg|]. simpl. intros a' [= <-]. apply Ha. Qed.

Lemma Hoare_bind {A B} (Q1 : A -> Prop) (Q : B -> Prop) (m : M A) (f : A -> M B) :
  Hoare R Q1 m -> (forall a, Q1 a -> Hoare R Q (f a)) -> Hoare R Q (bind m f).
Proof.
  intros Hm Hf w. unfold bind.
  destruct (Hm w) as [HR Ha]. destruct (m w) as [[a|e] w1]; simpl in *.
  - destruct (Hf a (Ha a eq_refl) w1) as [HR' Hb].
    split; [etransitivity; eassumption | exact Hb].
  - split; [exact HR | discriminate].
Qed.

Lemma Hoare_tryCatch {A} (Q : A -> Prop) (m : M A) (h : JsError -> M A) :
  Hoare R Q m -> (forall e, Hoare R Q (h e)) -> Hoare R Q (tryCatch m h).
Proof.
  intros Hm Hh w. unfold tryCatch.
  destruct (Hm w) as [HR Ha]. destruct (m w) as [[a|e] w1]; simpl in *.
  - split; [exact HR | exact Ha].
  - destruct (Hh e w1) as [HR' Hb].
    split; [etransitivity; eassumption | exact Hb].
Qed.

Lemma Hoare_mapM {A B} (Q : A -> B -> Prop) (f : A -> M B) (xs : list A) :
  (forall x, In x xs -> Hoare R (Q x) (f x)) ->
  Hoare R (fun ys => Forall2 Q xs ys) (mapM f xs).
Proof.
  induction xs as [|x xs IH]; intros Hf; simpl.
  - apply Hoare_ret. constructor.
  - eapply Hoare_bind; [apply Hf; left; reflexivity|].
    intros y Hy. eapply Hoare_bind.
    + apply IH. intros x' Hx'. apply Hf. right. exact Hx'.
    + intros ys Hys. apply Hoare_ret. constructor; assumption.
Qed.

Lemma Hoare_backOff {A} (Q : A -> Prop) (n : nat) (request : M A)
    (retry : JsError -> M bool) :
  Hoare R Q request -> (forall e, Step R (retry e)) ->
  Hoare R Q (backOff n request retry).
Proof.
  intros Hreq Hretry. induction n as [|n IH]; simpl.
  - apply Hoare_throw.
  - apply Hoare_tryCatch; [exact Hreq|].
    intros e. eapply Hoare_bind; [apply Hretry|].
    intros b _. destruct (negb b || Nat.eqb n 0); [apply Hoare_throw | exact IH].
Qed.

End HoareRules.

(** ** The advisory lock of a workspace *)

Section LockFacts.
Context `{Env}.

Lemma toInt32_range x : - 2 ^ 31 <= toInt32 x < 2 ^ 31.
Proof.
  unfold toInt32.
  pose proof (Z.mod_pos_bound (x + 2 ^ 31) (2 ^ 32) ltac:(lia)). lia.
Qed.

Lemma toInt32_small x : - 2 ^ 31 <= x < 2 ^ 31 -> toInt32 x = x.
Proof. intros Hx. unfold toInt32. rewrite Z.mod_small; lia. Qed.

Lemma toInt32_congr x y : (x - y) mod 2 ^ 32 = 0 -> toInt32 x = toInt32 y.
Proof.
  intros Hxy. unfold toInt32. f_equal.
  apply Z.mod_divide in Hxy; [|lia]. destruct Hxy as [k Hk].
  replace (x + 2 ^ 31) with (y + 2 ^ 31 + k * 2 ^ 32) by lia.
  apply Z.mod_add. lia.
Qed.

Lemma toInt32_mod x : (toInt32 x - x) mod 2 ^ 32 = 0.
Proof.
  unfold toInt32.
  rewrite (Z.mod_eq (x + 2 ^ 31) (2 ^ 32)) by lia.
  replace (x + 2 ^ 31 - 2 ^ 32 * ((x + 2 ^ 31) / 2 ^ 32) - 2 ^ 31 - x)
    with ((- ((x + 2 ^ 31) / 2 ^ 32)) * 2 ^ 32) by lia.
  apply Z.mod_mul. lia.
Qed.

(** The loop body is the multiplicative hash [31 * hash + char],
    reduced to 32 bits. *)
Lemma lockKeyStep_31 hash char :
  lockKeyStep hash char = toInt32 (31 * hash + char).
Proof.
  unfold lockKeyStep, and32, shl32.
  rewrite Z.land_diag.
  rewrite (toInt32_small (toInt32 _)) by apply toInt32_range.
  change (5 mod 32) with 5. rewrite Z.shiftl_mul_pow2 by lia.
  apply toInt32_congr.
  pose proof (toInt32_mod (toInt32 hash * 2 ^ 5)) as H1.
  pose proof (toInt32_mod hash) as H2.
  apply Z.mod_divide in H1; [|lia]. apply Z.mod_divide in H2; [|lia].
  destruct H1 as [k1 H1]. destruct H2 as [k2 H2].
  apply Z.mod_divide; [lia|]. exists (k1 + 32 * k2). lia.
Qed.

Lemma fold_left_pointwise {A B : Type} (f g : A -> B -> A) (l : list B) (a : A) :
  (forall x y, f x y = g x y) -> fold_left f l a = fold_left g l a.
Proof.
  intros Hfg. revert a. induction l as [|y l IH]; intros a; simpl; [reflexivity|].
  rewrite Hfg. apply IH.
Qed.

Lemma lockKey_fold_range (cs : list Z) (h : Z) :
  - 2 ^ 31 <= h < 2 ^ 31 -> - 2 ^ 31 <= fold_left lockKeyStep cs h < 2 ^ 31.
Proof.
  revert h. induction cs as [|c cs IH]; intros h Hh; simpl; [exact Hh|].
  apply IH. rewrite lockKeyStep_31. apply toInt32_range.
Qed.

Lemma workspaceIdToLockKey_range (s : string) :
  0 <= workspaceIdToLockKey s <= 2 ^ 31.
Proof.
  unfold workspaceIdToLockKey.
  pose proof (lockKey_fold_range (charCodes s) 0 ltac:(lia)). lia.
Qed.

Lemma withAdvisoryLock_run {A : Type} (workspace : string) (fn : M A) (w : World) :
  withAdvisoryLock workspace fn w
  = ((fn (record (AdvisoryLock (workspaceIdToLockKey workspace))
            (withLocks (cons (workspaceIdToLockKey workspace)) w))).1,
     releaseAdvisoryLock workspace
       (fn (record (AdvisoryLock (workspaceIdToLockKey workspace))
              (withLocks (cons (workspaceIdToLockKey workspace)) w))).2).
Proof.
  unfold withAdvisoryLock, bind, acquireAdvisoryLock, tryFinally.
  destruct (fn _) as [[a|e] w1]; reflexivity.
Qed.

(** C9. The lock key of a workspace is a function of its identifier:
    the 31-multiplier string hash reduced to 32 bits and made
    non-negative, an integer of [0, 2^31], which fits 32 bits.
    [withAdvisoryLock] takes the lock on that key first, runs [fn] once
    while the key is held, and gives back one hold of the key last,
    whether [fn] returns or throws; what [fn] returned or threw is what
    the wrapper returns or throws. *)
Theorem withAdvisoryLock_releases {A : Type} (workspace : string) (fn : M A) (w : World) :
  let key := workspaceIdToLockKey workspace in
  let locked := record (AdvisoryLock key) (withLocks (cons key) w) in
  key = Z.abs (fold_left (fun h c => toInt32 (31 * h + c)) (charCodes workspace) 0)
  /\ 0 <= key < 2 ^ 32
  /\ heldLocks locked = key :: heldLocks w
  /\ trace locked = trace w ++ [AdvisoryLock key]
  /\ (withAdvisoryLock workspace fn w).1 = (fn locked).1
  /\ trace (withAdvisoryLock workspace fn w).2
     = trace (fn locked).2 ++ [AdvisoryUnlock key]
  /\ heldLocks (withAdvisoryLock workspace fn w).2
     = removeOne key (heldLocks (fn locked).2)
  /\ ((forall w0, heldLocks (fn w0).2 = heldLocks w0) ->
      heldLocks (withAdvisoryLock workspace fn w).2 = heldLocks w).
Proof.
  intros key locked. rewrite withAdvisoryLock_run. fold key. fold locked.
  repeat split.
  - unfold key, workspaceIdToLockKey. f_equal.
    apply fold_left_pointwise. intros h c. apply lockKeyStep_31.
  - apply workspaceIdToLockKey_range.
  - pose proof (workspaceIdToLockKey_range workspace). unfold key. lia.
  - intros Hfn. unfold releaseAdvisoryLock. fold key.
    cbn [snd heldLocks record withLocks].
    rewrite Hfn. unfold locked. cbn [heldLocks record withLocks removeOne].
    rewrite Z.eqb_refl. reflexivity.
Qed.

End LockFacts.

(** ** Similarity search *)

Section SearchFacts.
Context `{DbEngine}.
Local Open Scope float_scope.

Lemma insertBy_In {A : Type} (cmp : A -> A -> float) (x y : A) (l : list A) :
  In y (insertBy cmp x l) -> y = x \/ In y l.
Proof.
  induction l as [|z l IH]; simpl.
  - intros [<-|[]]. left. reflexivity.
  - destruct (0 <? cmp z x); simpl.
    + intros [<-|Hy]; [left; reflexivity | right; exact Hy].
    + intros [<-|Hy]; [right; left; reflexivity|].
      destruct (IH Hy) as [->|Hin]; [left; reflexivity | right; right; exact Hin].
Qed.

Lemma sortBy_In_acc {A : Type} (cmp : A -> A -> float) (l acc : list A) (y : A) :
  In y (fold_left (fun acc x => insertBy cmp x acc) l acc) -> In y l \/ In y acc.
Proof.
  revert acc. induction l as [|x l IH]; intros acc; simpl; [auto|].
  intros Hy. destruct (IH _ Hy) as [Hl|Hacc]; [left; right; exact Hl|].
  destruct (insertBy_In _ _ _ _ Hacc) as [->|Hin]; [left; left; reflexivity | right; exact Hin].
Qed.

Lemma sortBy_In {A : Type} (cmp : A -> A -> float) (l : list A) (y : A) :
  In y (sortBy cmp l) -> In y l.
Proof.
  unfold sortBy. intros Hy. destruct (sortBy_In_acc _ _ _ _ Hy) as [Hl|[]]. exact Hl.
Qed.

Lemma mapOutcome_In {E A B : Type} (f : A -> Outcome E B) (xs : list A) (ys : list B) (y : B) :
  mapOutcome f xs = Returned ys -> In y ys -> exists x, In x xs /\ f x = Returned y.
Proof.
  revert ys. induction xs as [|x xs IH]; intros ys; simpl.
  - intros [= <-] [].
  - destruct (f x) as [y0|e] eqn:Hfx; [|discriminate].
    destruct (mapOutcome f xs) as [ys0|e]; [|discriminate].
    intros [= <-] [<-|Hin].
    + exists x. split; [left; reflexivity | exact Hfx].
    + destruct (IH ys0 eq_refl Hin) as (x' & Hx' & Hfx'). exists x'. split; [right|]; assumption.
Qed.

Lemma take_In {A : Type} (n : nat) (l : list A) (x : A) : In x (take n l) -> In x l.
Proof.
  revert l. induction n as [|n IH]; intros [|y l]; simpl; try tauto.
  intros [<-|Hx]; [left; reflexivity | right; apply IH; exact Hx].
Qed.

(** Every hit of the native-vector query is a row of the table that
    satisfies all the conditions. *)
Lemma pgvector_hits_satisfy (q : list float) conds (minSim : float) (lim : nat)
    (d : Database) (h : SearchHit) :
  In h (performSimilaritySearchWithPgvector q conds minSim lim d) ->
  In (hit_row h) (rows d) /\ and_ conds (hit_row h) = true.
Proof.
  unfold performSimilaritySearchWithPgvector. intros Hh.
  apply take_In in Hh. apply list_elem_of_In, list_elem_of_omap in Hh.
  destruct Hh as (r & Hr & Hf).
  apply list_elem_of_In, orderByLimit_In, filter_In in Hr.
  destruct (_ <? minSim); [discriminate|].
  injection Hf as <-. exact Hr.
Qed.

(** The same for the in-memory fallback, when it returns. *)
Lemma javascript_hits_satisfy (q : list float) conds (minSim : float) (lim : nat)
    (d : Database) (hits : list SearchHit) (h : SearchHit) :
  performSimilaritySearchWithJavaScript q conds minSim lim d = Returned hits ->
  In h hits ->
  In (hit_row h) (rows d) /\ and_ conds (hit_row h) = true.
Proof.
  unfold performSimilaritySearchWithJavaScript.
  destruct (mapOutcome _ _) as [hits0|e] eqn:Hmap; [|discriminate].
  intros [= <-] Hh.
  apply take_In, sortBy_In in Hh. apply list_elem_of_In, list_elem_of_omap in Hh.
  destruct Hh as (o & Ho & Hid). simpl in Hid. subst o.
  apply list_elem_of_In in Ho.
  destruct (mapOutcome_In _ _ _ _ Hmap Ho) as (r & Hr & Hf).
  apply filter_In in Hr.
  destruct (calculateCosineSimilarity q _) as [sim|e]; [|discriminate].
  destruct (sim <? minSim); [discriminate|].
  injection Hf as <-. exact Hr.
Qed.

Lemma search_hits_satisfy (w : string) (q : list float) (m : EmbeddingModelClient)
    (options : SearchOptions) (d : Database) (hits : list SearchHit) (h : SearchHit) :
  performSimilaritySearch w q m options d = Returned hits ->
  In h hits ->
  In (hit_row h) (rows d)
  /\ and_ (whereConditions w m (scope_files options)) (hit_row h) = true.
Proof.
  unfold performSimilaritySearch.
  destruct (detectEmbeddingColumnType d) as [[|]|e]; [| |discriminate].
  - intros [= <-]. apply pgvector_hits_satisfy.
  - apply javascript_hits_satisfy.
Qed.

Lemma whereConditions_workspace w m files r :
  and_ (whereConditions w m files) r = true -> workspaceId (row r) = w.
Proof.
  unfold and_, whereConditions. simpl. intros Hc.
  apply andb_true_iff in Hc. destruct Hc as [Hw _].
  apply bool_decide_eq_true in Hw. exact Hw.
Qed.

Lemma whereConditions_notSkipped w m files r :
  and_ (whereConditions w m files) r = true -> skipped (metadata (row r)) <> Some true.
Proof.
  unfold and_, whereConditions. simpl. intros Hc.
  repeat (apply andb_true_iff in Hc; destruct Hc as [? Hc]).
  unfold notSkipped in *.
  destruct (skipped (metadata (row r))) as [[|]|]; simpl in *; congruence.
Qed.

(** C7. A similarity search for workspace [A] returns only rows of
    workspace [A], whatever the query vector, the limit, the threshold
    and the file scope: in the native-vector query, in the in-memory
    fallback, and so in [performSimilaritySearch], which runs one of the
    two. *)
Theorem performSimilaritySearch_workspace_isolation (A : string) (q : list float)
    (m : EmbeddingModelClient) (options : SearchOptions) (d : Database) :
  (forall h,
     In h (performSimilaritySearchWithPgvector q
             (whereConditions A m (scope_files options))
             (minSimilarity options) (limit options) d) ->
     workspaceId (row (hit_row h)) = A)
  /\ (forall hits h,
        performSimilaritySearchWithJavaScript q
          (whereConditions A m (scope_files options))
          (minSimilarity options) (limit options) d = Returned hits ->
        In h hits -> workspaceId (row (hit_row h)) = A)
  /\ (forall hits h,
        performSimilaritySearch A q m options d = Returned hits ->
        In h hits -> workspaceId (row (hit_row h)) = A).
Proof.
  split; [|split].
  - intros h Hh. apply pgvector_hits_satisfy in Hh.
    eapply whereConditions_workspace, Hh.
  - intros hits h Hs Hh. eapply whereConditions_workspace.
    eapply javascript_hits_satisfy; eassumption.
  - intros hits h Hs Hh. eapply whereConditions_workspace.
    eapply search_hits_satisfy; eassumption.
Qed.

End SearchFacts.

(** ** The incremental diff *)

Section DiffFacts.
Context `{Env}.

Lemma uniqueFrom_In (seen xs : list string) (x : string) :
  In x (uniqueFrom seen xs) <-> In x xs /\ ~ In x seen.
Proof.
  revert seen. induction xs as [|y xs IH]; intros seen; simpl; [tauto|].
  destruct (bool_decide (y ∈ seen)) eqn:Hy.
  - apply bool_decide_eq_true, list_elem_of_In in Hy. rewrite IH.
    split; [tauto|]. intros [[->|Hx] Hn]; tauto.
  - apply bool_decide_eq_false in Hy. rewrite list_elem_of_In in Hy.
    simpl. rewrite IH. simpl.
    destruct (decide (y = x)) as [->|Hne]; [tauto|]. tauto.
Qed.

Lemma unique_In (xs : list string) (x : string) : In x (unique xs) <-> In x xs.
Proof. unfold unique. rewrite uniqueFrom_In. simpl. tauto. Qed.

Lemma filter_pointwise {A : Type} (f g : A -> bool) (l : list A) :
  (forall x, In x l -> f x = g x) -> List.filter f l = List.filter g l.
Proof.
  induction l as [|x l IH]; intros Hfg; simpl; [reflexivity|].
  rewrite (Hfg x) by (left; reflexivity).
  rewrite IH by (intros y Hy; apply Hfg; right; exact Hy). reflexivity.
Qed.

(** With the indexed paths as argument, the query selects the whole
    partition. *)
Lemma getFileModificationTimes_indexed (w : string) (m : EmbeddingModelClient) (d : Database) :
  getFileModificationTimes w (getIndexedFilePaths w m d) m d
  = fold_left mtimeStep (List.filter (inPartition w m) (rows d)) ∅.
Proof.
  unfold getFileModificationTimes.
  destruct (getIndexedFilePaths w m d) as [|p ps] eqn:Hps.
  - unfold getIndexedFilePaths in Hps.
    destruct (List.filter (fun r => inPartition w m r) (rows d)) as [|r rs] eqn:Hf.
    + reflexivity.
    + assert (Hin : In (path (row r)) (unique (map (fun r => path (row r)) (r :: rs))))
        by (apply unique_In; left; reflexivity).
      rewrite Hps in Hin. destruct Hin.
  - rewrite <- Hps. f_equal. apply filter_pointwise. intros r Hr.
    destruct (inPartition w m r) eqn:Hp; [|reflexivity]. simpl.
    apply bool_decide_eq_true, list_elem_of_In.
    unfold getIndexedFilePaths. apply unique_In, in_map_iff.
    exists r. split; [reflexivity|]. apply filter_In. split; assumption.
Qed.

Lemma mtimeStep_fold_positive (rs : list SelectEmbedding) (m0 : gmap string Z) :
  (forall p v, m0 !! p = Some v -> 0 < v) ->
  forall p v, fold_left mtimeStep rs m0 !! p = Some v -> 0 < v.
Proof.
  revert m0. induction rs as [|r rs IH]; intros m0 Hpos; simpl; [exact Hpos|].
  apply IH. intros p v. unfold mtimeStep.
  destruct (m0 !! path (row r)) as [c|] eqn:Hc; simpl.
  - destruct (c <? mtime (row r)) eqn:Hlt; [|apply Hpos].
    apply Z.ltb_lt in Hlt. pose proof (Hpos _ _ Hc) as Hc0.
    destruct (decide (path (row r) = p)) as [->|Hne].
    + rewrite lookup_insert_eq. intros [= <-]. lia.
    + rewrite lookup_insert_ne by exact Hne. apply Hpos.
  - destruct (0 <? mtime (row r)) eqn:Hlt; [|apply Hpos].
    apply Z.ltb_lt in Hlt.
    destruct (decide (path (row r) = p)) as [->|Hne].
    + rewrite lookup_insert_eq. intros [= <-]. lia.
    + rewrite lookup_insert_ne by exact Hne. apply Hpos.
Qed.

(** What the map holds for a path: the largest of 0 and the [mtime]s of
    the rows of that path. *)
Lemma mtimeStep_fold_lookup (rs : list SelectEmbedding) (m0 : gmap string Z) (p : string) :
  default 0 (fold_left mtimeStep rs m0 !! p)
  = fold_left Z.max
      (map (fun r => mtime (row r))
           (List.filter (fun r => bool_decide (path (row r) = p)) rs))
      (default 0 (m0 !! p)).
Proof.
  revert m0. induction rs as [|r rs IH]; intros m0; simpl; [reflexivity|].
  rewrite IH. unfold mtimeStep.
  destruct (bool_decide (path (row r) = p)) eqn:Hp.
  - apply bool_decide_eq_true in Hp. subst p. simpl. f_equal.
    destruct (default 0 (m0 !! path (row r)) <? mtime (row r)) eqn:Hlt.
    + rewrite lookup_insert_eq. simpl. apply Z.ltb_lt in Hlt. lia.
    + apply Z.ltb_ge in Hlt. lia.
  - apply bool_decide_eq_false in Hp. f_equal.
    destruct (default 0 (m0 !! path (row r)) <? mtime (row r)); [|reflexivity].
    rewrite lookup_insert_ne by exact Hp. reflexivity.
Qed.

Lemma filter_filter_and {A : Type} (f g : A -> bool) (l : list A) :
  List.filter g (List.filter f l) = List.filter (fun x => f x && g x) l.
Proof.
  induction l as [|x l IH]; simpl; [reflexivity|].
  destruct (f x); simpl; [destruct (g x)|]; rewrite IH; reflexivity.
Qed.

(** The decision the code takes for a file of the scan, in every store:
    it compares with the largest of 0 and the stored times, and takes 0
    for "not indexed". *)
Lemma getFilesToIndex_decision (m : EmbeddingModelClient) (d : Database) (file : FileInfo) :
  In file (getFilesToIndex m d) <->
  In file scanFiles
  /\ st_size (fi_stat file) <> 0
  /\ (storedMax0 thisWorkspaceId m (fi_path file) d = 0
      \/ storedMax0 thisWorkspaceId m (fi_path file) d < st_mtime (fi_stat file)).
Proof.
  unfold getFilesToIndex, getFilesToReindex. rewrite filter_In.
  rewrite getFileModificationTimes_indexed.
  set (mm := fold_left mtimeStep _ ∅).
  assert (Hpos : forall p v, mm !! p = Some v -> 0 < v).
  { apply mtimeStep_fold_positive. intros p v. rewrite lookup_empty. discriminate. }
  assert (Hlook : default 0 (mm !! fi_path file)
                  = storedMax0 thisWorkspaceId m (fi_path file) d).
  { unfold mm. rewrite mtimeStep_fold_lookup. rewrite lookup_empty. simpl.
    unfold storedMax0, storedRows. rewrite filter_filter_and. reflexivity. }
  rewrite <- Hlook.
  destruct (st_size (fi_stat file) =? 0) eqn:Hsz.
  - apply Z.eqb_eq in Hsz. split; [intros [_ [=]] | intros (_ & Hn & _); contradiction].
  - apply Z.eqb_neq in Hsz.
    destruct (mm !! fi_path file) as [v|] eqn:Hv; simpl.
    + specialize (Hpos _ _ Hv).
      destruct (v =? 0) eqn:Hv0; [apply Z.eqb_eq in Hv0; lia|].
      rewrite Z.ltb_lt. split; [intros [? ?] | intros (? & ? & [?|?])]; auto; lia.
    + split; [intros [? _] | intros (? & _)]; auto.
Qed.

(** When every stored time of the partition is positive, the code
    selects exactly the files the rule of the specification selects. *)
Lemma getFilesToIndex_positive_mtimes (m : EmbeddingModelClient) (d : Database) :
  (forall r, In r (rows d) -> inPartition thisWorkspaceId m r = true -> 0 < mtime (row r)) ->
  getFilesToIndex m d = List.filter (specSelectsForReindex thisWorkspaceId m d) scanFiles.
Proof.
  intros Hpos.
  unfold getFilesToIndex, getFilesToReindex.
  rewrite getFileModificationTimes_indexed.
  set (mm := fold_left mtimeStep _ ∅).
  apply filter_pointwise. intros file _.
  assert (Hmm : forall p v, mm !! p = Some v -> 0 < v).
  { apply mtimeStep_fold_positive. intros p v. rewrite lookup_empty. discriminate. }
  assert (Hlook : default 0 (mm !! fi_path file)
                  = storedMax0 thisWorkspaceId m (fi_path file) d).
  { unfold mm. rewrite mtimeStep_fold_lookup. rewrite lookup_empty. simpl.
    unfold storedMax0, storedRows. rewrite filter_filter_and. reflexivity. }
  unfold specSelectsForReindex, storedMtime. unfold storedMax0 in Hlook.
  destruct (st_size (fi_stat file) =? 0); [reflexivity|]. simpl.
  destruct (storedRows thisWorkspaceId m (fi_path file) d) as [|r rs] eqn:Hrs; simpl in *.
  - destruct (mm !! fi_path file) as [v|] eqn:Hv; [|reflexivity].
    simpl in Hlook. specialize (Hmm _ _ Hv). lia.
  - assert (Hr : 0 < mtime (row r)).
    { assert (Hin : In r (storedRows thisWorkspaceId m (fi_path file) d))
        by (rewrite Hrs; left; reflexivity).
      apply filter_In in Hin. destruct Hin as [Hin Hc].
      apply andb_true_iff in Hc. apply Hpos; tauto. }
    rewrite Z.max_r in Hlook by lia.
    assert (Hge : forall ts t, t <= fold_left Z.max ts t).
    { induction ts as [|t' ts IH]; intros t; simpl; [lia|].
      specialize (IH (Z.max t t')). lia. }
    specialize (Hge (map (fun r => mtime (row r)) rs) (mtime (row r))).
    destruct (mm !! fi_path file) as [v|] eqn:Hv; simpl in Hlook.
    + subst v. destruct (_ =? 0) eqn:H0; [apply Z.eqb_eq in H0; lia | reflexivity].
    + lia.
Qed.

End DiffFacts.

(** ** Framing: what the engine's functions preserve

    The functions of the embedding loop and of the update are built from
    a few primitives. A preorder on worlds that every primitive respects
    is respected by the functions; the sections below fix the assumptions
    once and derive the judgement for each function. *)

Lemma Step_pure (R : World -> World -> Prop) `{!PreOrder R} {A : Type} (a : World -> A) :
  Step R (fun w => (Returned (a w), w)).
Proof. intros w. split; [reflexivity | auto]. Qed.

Ltac hoare_seq :=
  repeat match goal with
    | |- Hoare ?R _ (ret _) => apply (Hoare_ret R); try exact I
    | |- Hoare ?R _ (throw _) => apply (Hoare_throw R)
    | |- Hoare ?R _ (bind _ _) => apply (Hoare_bind R (fun _ => True)); [ | intros ? _ ]
    | |- Hoare ?R _ (tryCatch _ _) => apply (Hoare_tryCatch R); [ | intros ? ]
    | |- Hoare _ _ (if ?b then _ else _) => destruct b
    | |- Hoare _ _ (match ?x with _ => _ end) => destruct x
    end.

Section FrameChunk.
Context `{Env}.
Context (R : World -> World -> Prop) `{!PreOrder R}.
Hypothesis Hemit : forall e, isLog e = true -> Step R (emit e).
Hypothesis Hlocals : forall f, Step R (updateLocals f).
Hypothesis Hcancel : forall cp, Step R (readCancelled cp).
Hypothesis Hnow : Step R dateNow.
Hypothesis Hrequest : forall chunk total nFiles,
  Step R (embedRequest chunk total nFiles).

Lemma frame_getLocals : Step R getLocals.
Proof. apply Step_pure; assumption. Qed.

Lemma frame_getModel : Step R getModel.
Proof. apply Step_pure; assumption. Qed.

Lemma frame_retryOption chunk total nFiles e : Step R (retryOption chunk total nFiles e).
Proof.
  unfold retryOption, Step. hoare_seq;
    first [ apply frame_getLocals | apply Hemit; reflexivity ].
Qed.

Lemma frame_reportCancelled total nFiles : Step R (reportCancelled total nFiles).
Proof.
  unfold reportCancelled, Step. hoare_seq;
    first [ apply frame_getLocals | apply Hemit; reflexivity ].
Qed.

(** The value of [embedRequest], whatever the world relation. *)
Lemma embedRequest_value chunk total nFiles (w : World) (e : InsertEmbedding) :
  (embedRequest chunk total nFiles w).1 = Returned e -> FromChunk chunk e.
Proof.
  unfold embedRequest, finishRequest, bind.
  repeat match goal with
         | |- context [match ?m ?w0 with _ => _ end] =>
             let r := fresh "r" in let w1 := fresh "w" in
             destruct (m w0) as [[r|?] w1]; simpl; try discriminate
         | |- context [if ?b then _ else _] => destruct b; simpl; try discriminate
         end;
    intros [= <-]; repeat split.
Qed.

Lemma frame_embedRequest chunk total nFiles :
  Hoare R (FromChunk chunk) (embedRequest chunk total nFiles).
Proof.
  intros w. split; [apply Hrequest|]. apply embedRequest_value.
Qed.

(** [processChunk] never throws, and a row it yields is built from its
    chunk. *)
Lemma frame_processChunk total nFiles chunk :
  Hoare R (fun o => forall e, o = Some e -> FromChunk chunk e)
        (processChunk total nFiles chunk).
Proof.
  unfold processChunk.
  apply (Hoare_bind R (fun _ => True)); [apply Hcancel|]. intros c _.
  destruct c; [apply (Hoare_ret R); discriminate|].
  apply (Hoare_tryCatch R).
  - apply (Hoare_bind R (FromChunk chunk)).
    + apply (Hoare_backOff R); [apply frame_embedRequest |].
      intros e. apply frame_retryOption.
    + intros e He. apply (Hoare_ret R). intros e' [= <-]. exact He.
  - intros error. destruct (bool_decide _); [apply (Hoare_ret R); discriminate|].
    apply (Hoare_bind R (fun _ => True)); [apply Hlocals|].
    intros _ _. apply (Hoare_ret R). discriminate.
Qed.

End FrameChunk.

Lemma slices_In {A : Type} (fuel n : nat) (l b : list A) (x : A) :
  In b (slices fuel n l) -> In x b -> In x l.
Proof.
  revert l. induction fuel as [|fuel IH]; intros l; simpl; [tauto|].
  destruct l as [|y l]; [simpl; tauto|].
  intros [<-|Hb] Hx.
  - eapply take_In; exact Hx.
  - specialize (IH _ Hb Hx). revert IH. generalize (y :: l). intros l0.
    clear. revert l0. induction n as [|n IHn]; intros [|z l0]; simpl; auto.
Qed.

Lemma omap_id_Forall {A B : Type} (Q : A -> option B -> Prop) (P : B -> Prop)
    (xs : list A) (os : list (option B)) :
  Forall2 Q xs os ->
  (forall x o b, In x xs -> Q x o -> o = Some b -> P b) ->
  Forall P (omap id os).
Proof.
  induction 1 as [|x o xs os Hxo _ IH]; intros HP; simpl; [constructor|].
  assert (Hrest : Forall P (omap id os))
    by (apply IH; intros x' o' b Hx'; apply HP; right; exact Hx').
  destruct o as [b|]; simpl; [|exact Hrest].
  constructor; [|exact Hrest]. eapply HP; [left; reflexivity | exact Hxo | reflexivity].
Qed.

Lemma clearAllVectors_Shrinks w m : Shrinks (clearAllVectors w m).
Proof. intros d r. unfold clearAllVectors. simpl. rewrite filter_In. tauto. Qed.

Lemma deleteVectorsForMultipleFiles_Shrinks w ps m :
  Shrinks (deleteVectorsForMultipleFiles w ps m).
Proof.
  intros d r. unfold deleteVectorsForMultipleFiles.
  destruct ps; [tauto|]. simpl. rewrite filter_In. tauto.
Qed.

Lemma deleteVectorsForDeletedFiles_Shrinks w ps m :
  Shrinks (deleteVectorsForDeletedFiles w ps m).
Proof.
  intros d r. unfold deleteVectorsForDeletedFiles.
  destruct ps; [apply clearAllVectors_Shrinks|]. simpl. rewrite filter_In. tauto.
Qed.

Section FrameLoop.
Context `{Env}.
Context (R : World -> World -> Prop) `{!PreOrder R}.
Context (Pins : InsertEmbedding -> Prop).
Hypothesis Hemit : forall e, isLog e = true -> Step R (emit e).
Hypothesis Hlocals : forall f, Step R (updateLocals f).
Hypothesis Hcancel : forall cp, Step R (readCancelled cp).
Hypothesis Hnow : Step R dateNow.
Hypothesis Hcall : forall text, Step R (embeddingsCreateM text).
Hypothesis Hconfig : forall f, Step R (fun w => (Returned tt, withConfig f w)).
Hypothesis Hinsert : forall vs, Forall Pins vs -> Step R (insertVectorsM vs).

Lemma frame_getEmbedding text : Step R (getEmbedding text).
Proof.
  unfold getEmbedding, Step.
  apply (Hoare_bind R (fun _ => True)); [apply Step_pure; assumption|].
  intros c _. destruct (cfg_provider c); [destruct (cfg_apiKey c)| |];
    hoare_seq; first [ apply Hcall | apply Hconfig ].
Qed.

Lemma frame_request chunk total nFiles : Step R (embedRequest chunk total nFiles).
Proof.
  unfold embedRequest, finishRequest, Step. hoare_seq;
    first [ apply Hcancel | apply frame_getEmbedding | apply Hlocals | apply Hnow
          | apply Step_pure; assumption | apply Hemit; reflexivity ].
Qed.

Lemma frame_batchLoop total nFiles (batches : list (list ContentChunk)) :
  (forall batch c e, In batch batches -> In c batch -> FromChunk c e -> Pins e) ->
  Step R (batchLoop total nFiles batches).
Proof.
  unfold Step. induction batches as [|batch rest IH]; intros HP; simpl.
  - apply (Hoare_ret R). exact I.
  - apply (Hoare_bind R (fun _ => True)); [apply Hcancel|]. intros c0 _.
    destruct c0.
    { hoare_seq. apply frame_reportCancelled; assumption. }
    eapply (Hoare_bind R).
    { apply (Hoare_mapM R). intros c _.
      apply frame_processChunk; try assumption. apply frame_request. }
    intros embeddingBatch Hbatch. simpl in Hbatch.
    apply (Hoare_bind R (fun _ => True)); [apply Hcancel|]. intros c1 _.
    destruct c1.
    { hoare_seq. apply frame_reportCancelled; assumption. }
    assert (Hvalid : Forall Pins (omap id embeddingBatch)).
    { eapply omap_id_Forall; [exact Hbatch|].
      intros c o e Hc Ho ->. eapply HP; [left; reflexivity | exact Hc |].
      apply Ho. reflexivity. }
    apply (Hoare_bind R (fun _ => True)).
    { destruct (omap id embeddingBatch) eqn:Hv; [apply (Hoare_ret R); exact I|].
      apply Hinsert. exact Hvalid. }
    intros _ _.
    apply (Hoare_bind R (fun _ => True)); [apply Hcancel|]. intros c2 _.
    destruct c2.
    { hoare_seq. apply frame_reportCancelled; assumption. }
    apply (Hoare_bind R (fun _ => True)); [apply Step_pure; assumption|]. intros l _.
    apply (Hoare_bind R (fun _ => True)); [apply Hemit; reflexivity|]. intros _ _.
    apply (Hoare_bind R (fun _ => True)); [apply Hemit; reflexivity|]. intros _ _.
    apply IH. intros b c e Hb. apply HP. right. exact Hb.
Qed.

Lemma frame_processEmbeddings (chunks : list ContentChunk) (nFiles : nat) :
  (forall c e, In c chunks -> FromChunk c e -> Pins e) ->
  Step R (processEmbeddings chunks nFiles).
Proof.
  intros HP. unfold processEmbeddings, Step.
  apply (Hoare_bind R (fun _ => True)); [apply Hnow|]. intros start _.
  apply (Hoare_bind R (fun _ => True)); [apply Hlocals|]. intros _ _.
  apply (Hoare_bind R (fun _ => True)).
  { apply frame_batchLoop. intros b c e Hb Hc. apply HP.
    eapply slices_In; eassumption. }
  intros cancelled _. destruct cancelled; [apply (Hoare_ret R); exact I|].
  apply (Hoare_bind R (fun _ => True)); [apply Step_pure; assumption|]. intros l _.
  destruct (failedChunks l); hoare_seq; apply Hemit; reflexivity.
Qed.

Hypothesis Hmarker : forall m fileInfo skippedF, Pins (skippedMarker m fileInfo skippedF).

Lemma dummyEmbeddings_Forall skippedFs allFiles m :
  Forall Pins (dummyEmbeddings skippedFs allFiles m).
Proof.
  unfold dummyEmbeddings. apply Forall_forall. intros e He.
  apply list_elem_of_omap in He.
  destruct He as (sk & _ & Hsk).
  destruct (fileMapOf allFiles !! sk_path sk); [|discriminate].
  injection Hsk as <-. apply Hmarker.
Qed.

Lemma frame_recordSkippedFiles skippedFs allFiles :
  Step R (recordSkippedFiles skippedFs allFiles).
Proof.
  unfold recordSkippedFiles, Step. destruct skippedFs as [|sk sks].
  - apply (Hoare_ret R). exact I.
  - apply (Hoare_bind R (fun _ => True)); [apply Step_pure; assumption|]. intros m _.
    pose proof (dummyEmbeddings_Forall (sk :: sks) allFiles m) as Hd.
    destruct (dummyEmbeddings (sk :: sks) allFiles m); [apply (Hoare_ret R); exact I|].
    apply Hinsert. exact Hd.
Qed.

Hypothesis Hdb : forall f, Shrinks f -> Step R (updateDb f).
Hypothesis Hchunks : forall files c e,
  In c (contentChunks (prepareContentChunks files)) -> FromChunk c e -> Pins e.

Lemma pruneDeletedFiles_Shrinks m : Shrinks (pruneDeletedFiles m).
Proof. intros d. unfold pruneDeletedFiles. apply deleteVectorsForDeletedFiles_Shrinks. Qed.

Lemma frame_selectFilesToIndex reindexAll : Step R (selectFilesToIndex reindexAll).
Proof.
  unfold selectFilesToIndex, Step.
  apply (Hoare_bind R (fun _ => True)); [apply Step_pure; assumption|]. intros m _.
  destruct reindexAll; hoare_seq;
    first [ apply Hdb; first [ apply clearAllVectors_Shrinks
                             | apply pruneDeletedFiles_Shrinks
                             | apply deleteVectorsForMultipleFiles_Shrinks ]
          | apply Step_pure; assumption ].
Qed.

Lemma frame_recordSkipped prepared files : Step R (recordSkipped prepared files).
Proof.
  unfold recordSkipped, Step.
  destruct (skippedFiles prepared); hoare_seq;
    first [ apply Hemit; reflexivity | apply frame_recordSkippedFiles ].
Qed.

Lemma frame_embedPrepared prepared nFiles :
  (forall c e, In c (contentChunks prepared) -> FromChunk c e -> Pins e) ->
  Step R (embedPrepared prepared nFiles).
Proof.
  intros HP. unfold embedPrepared, Step.
  apply (Hoare_bind R (fun _ => True)).
  { destruct (failedFiles prepared); hoare_seq; apply Hemit; reflexivity. }
  intros _ _.
  destruct (contentChunks prepared) eqn:Hcs.
  - hoare_seq; apply Hemit; reflexivity.
  - rewrite <- Hcs.
    apply (Hoare_bind R (fun _ => True)); [apply Hemit; reflexivity|]. intros _ _.
    apply (Hoare_bind R (fun _ => True)); [apply Hemit; reflexivity|]. intros _ _.
    apply (Hoare_bind R (fun _ => True)).
    { apply frame_processEmbeddings. rewrite Hcs. exact HP. }
    intros result _. hoare_seq. apply Hemit; reflexivity.
Qed.

Lemma frame_updateBody reindexAll : Step R (updateBody reindexAll).
Proof.
  unfold updateBody, Step.
  apply (Hoare_bind R (fun _ => True)); [apply frame_selectFilesToIndex|].
  intros filesToIndex _. destruct filesToIndex as [|f fs]; [apply Hemit; reflexivity|].
  set (files := f :: fs).
  apply (Hoare_bind R (fun _ => True)); [apply Hcancel|]. intros c _.
  destruct c; [hoare_seq; apply Hemit; reflexivity|].
  apply (Hoare_bind R (fun _ => True)); [apply frame_recordSkipped|]. intros _ _.
  apply frame_embedPrepared. intros c e. apply Hchunks.
Qed.

Lemma frame_updateVaultIndexInternal reindexAll : Step R (updateVaultIndexInternal reindexAll).
Proof.
  unfold updateVaultIndexInternal, Step.
  apply (Hoare_tryCatch R); [apply frame_updateBody|].
  intros e. hoare_seq. apply Hemit; reflexivity.
Qed.

End FrameLoop.

(** ** Line numbers of persisted rows *)

Section LineFacts.
Context `{Env}.

Lemma splitLines_nonempty (s : string) : (1 <= length (splitLines s))%nat.
Proof.
  induction s as [|c s IH]; simpl; [lia|].
  destruct (Ascii.eqb c "010"); simpl; [lia|].
  destruct (splitLines s); simpl in *; lia.
Qed.

Lemma findChunk_ge (lines chunkLines : list string) (i j : nat) :
  findChunk lines chunkLines i = Some j -> (i <= j)%nat.
Proof.
  revert i. induction lines as [|l lines IH]; intros i; simpl.
  - destruct (length chunkLines <=? 0)%nat; [|discriminate].
    destruct (bool_decide _); [intros [= <-]; lia | discriminate].
  - destruct (length chunkLines <=? S (length lines))%nat; [|discriminate].
    destruct (bool_decide _); [intros [= <-]; lia|].
    intros Hf. apply IH in Hf. lia.
Qed.

(** [calculateLineNumbers] yields a 1-based, non-empty range, found or
    not. *)
Lemma calculateLineNumbers_range (original chunk : string) :
  1 <= (calculateLineNumbers original chunk).1
  /\ (calculateLineNumbers original chunk).1 <= (calculateLineNumbers original chunk).2.
Proof.
  unfold calculateLineNumbers.
  pose proof (splitLines_nonempty chunk) as Hne.
  destruct (findChunk _ _ 0) as [i|]; simpl; lia.
Qed.

Lemma createChunks_lines (fileContent filePath : string) (fileMtime : Z) (c : ContentChunk) :
  In c (createChunks fileContent filePath fileMtime) ->
  ch_path c = filePath /\ ch_mtime c = fileMtime /\ ChunkLines (ch_metadata c).
Proof.
  unfold createChunks. destruct (createDocuments fileContent) as [documents|e].
  - rewrite in_map_iff. intros (doc & <- & _).
    pose proof (calculateLineNumbers_range fileContent doc) as Hr.
    destruct (calculateLineNumbers fileContent doc) as [s e]. simpl in *.
    repeat split; tauto.
  - intros [<-|[]]. simpl. pose proof (splitLines_nonempty fileContent).
    repeat split; simpl; lia.
Qed.

Lemma createChunksForFiles_In (files : list FileContent) (c : ContentChunk) :
  In c (createChunksForFiles files) ->
  ChunkLines (ch_metadata c) /\ exists f, In f files /\ ch_path c = fc_path f.
Proof.
  unfold createChunksForFiles. rewrite in_concat.
  intros (cs & Hcs & Hc). apply in_map_iff in Hcs. destruct Hcs as (f & <- & Hf).
  apply createChunks_lines in Hc. destruct Hc as (Hp & _ & Hl).
  split; [exact Hl|]. exists f. split; [exact Hf | exact Hp].
Qed.

Lemma processChunks_In (chunks : list ContentChunk) (c : ContentChunk) :
  In c (processChunks chunks) ->
  exists c0, In c0 chunks /\ ch_path c = ch_path c0 /\ ch_metadata c = ch_metadata c0.
Proof.
  unfold processChunks. rewrite filter_In, in_map_iff.
  intros [(c0 & <- & Hc0) _]. exists c0. simpl. auto.
Qed.

(** The files whose text reaches the chunker. *)
Lemma readStep_contents (files : list FileInfo) acc (f : FileContent) :
  In f (fold_left readStep files acc).2 ->
  In f acc.2 \/ exists file, In file files /\ fc_path f = fi_path file.
Proof.
  revert acc. induction files as [|file files IH]; intros acc; simpl; [auto|].
  intros Hf. apply IH in Hf. destruct Hf as [Hf|(file' & Hin & Hp)].
  - destruct acc as [[failed skippedFs] fileContents]. unfold readStep in Hf.
    destruct (readFileContent (fi_path file)); simpl in Hf; [|auto].
    destruct (Nat.eqb _ 0); simpl in Hf; [auto|].
    apply in_app_iff in Hf. destruct Hf as [Hf|[<-|[]]]; [auto|].
    right. exists file. split; [left; reflexivity | reflexivity].
  - right. exists file'. split; [right; exact Hin | exact Hp].
Qed.

Lemma prepareContentChunks_lines (files : list FileInfo) (c : ContentChunk) :
  In c (contentChunks (prepareContentChunks files)) -> ChunkLines (ch_metadata c).
Proof.
  unfold prepareContentChunks.
  destruct (fold_left readStep files ([], [], [])) as [[failed skippedFs] fileContents].
  simpl. intros Hc. apply processChunks_In in Hc.
  destruct Hc as (c0 & Hc0 & _ & ->). apply createChunksForFiles_In in Hc0. tauto.
Qed.

Instance RowsAdded_preorder (P : InsertEmbedding -> Prop) : PreOrder (RowsAdded P).
Proof.
  split.
  - intros w r Hr. left. exact Hr.
  - intros w1 w2 w3 H12 H23 r Hr.
    destruct (H23 r Hr) as [Hr2|HP]; [apply H12; exact Hr2 | right; exact HP].
Qed.

Lemma assignIds_In (n : Z) (vs : list InsertEmbedding) (r : SelectEmbedding) :
  In r (assignIds n vs) -> In (row r) vs.
Proof.
  revert n. induction vs as [|v vs IH]; intros n; simpl; [tauto|].
  intros [<-|Hr]; [left; reflexivity | right; eapply IH; exact Hr].
Qed.

Lemma insertVectors_rows (vs : list InsertEmbedding) (d : Database) (r : SelectEmbedding) :
  In r (rows (insertVectors vs d)) -> In r (rows d) \/ In (row r) vs.
Proof.
  unfold insertVectors. destruct vs as [|v vs]; [auto|].
  cbn [rows]. rewrite in_app_iff. intros [Hr|Hr]; [left; exact Hr|].
  right. eapply assignIds_In. exact Hr.
Qed.

Lemma RowsAdded_frame (P : InsertEmbedding -> Prop) (g : World -> World) :
  (forall w, db (g w) = db w) -> forall w, RowsAdded P w (g w).
Proof. intros Hg w r. rewrite Hg. auto. Qed.

Lemma RowsAdded_update (P : InsertEmbedding -> Prop) reindexAll :
  (forall m fileInfo skippedF, P (skippedMarker m fileInfo skippedF)) ->
  (forall files c e,
     In c (contentChunks (prepareContentChunks files)) -> FromChunk c e -> P e) ->
  Step (RowsAdded P) (updateVaultIndexInternal reindexAll).
Proof.
  intros Hmarker Hchunks.
  apply (frame_updateVaultIndexInternal (RowsAdded P) P); try assumption.
  - intros e _. apply (Hoare_prim (RowsAdded P)); [|auto].
    apply RowsAdded_frame. reflexivity.
  - intros f. apply (Hoare_prim (RowsAdded P)); [|auto].
    apply RowsAdded_frame. reflexivity.
  - intros cp. apply (Hoare_prim (RowsAdded P)); [|auto].
    apply RowsAdded_frame. reflexivity.
  - apply (Hoare_prim (RowsAdded P)); [|auto]. apply RowsAdded_frame. reflexivity.
  - intros text w. split; [|auto]. intros r Hr. left. exact Hr.
  - intros f. apply (Hoare_prim (RowsAdded P)); [|auto].
    apply RowsAdded_frame. reflexivity.
  - intros vs Hvs w. split; [|auto]. intros r Hr.
    apply insertVectors_rows in Hr. destruct Hr as [Hr|Hr]; [left; exact Hr|].
    right. rewrite Forall_forall in Hvs. apply Hvs. apply list_elem_of_In. exact Hr.
  - intros f Hf. apply (Hoare_prim (RowsAdded P)); [|auto].
    intros w r Hr. left. apply Hf. exact Hr.
Qed.

Lemma withAdvisoryLock_db {A : Type} (workspace : string) (fn : M A) (w : World) :
  db (withAdvisoryLock workspace fn w).2
  = db (fn (record (AdvisoryLock (workspaceIdToLockKey workspace))
              (withLocks (cons (workspaceIdToLockKey workspace)) w))).2.
Proof.
  unfold withAdvisoryLock, bind, acquireAdvisoryLock, tryFinally.
  destruct (fn _) as [[a|e] w1]; reflexivity.
Qed.


End LineFacts.

(** ** Skipped files *)

Section SkipFacts.
Context `{Env}.

Lemma readStep_cases (file : FileInfo) failed skippedFs fileContents :
  (readStep (failed, skippedFs, fileContents) file).1.2
  = skippedFs ++ match skipOf file with Some sk => [sk] | None => [] end
  /\ forall f, In f (readStep (failed, skippedFs, fileContents) file).2 ->
       In f fileContents \/ (fc_path f = fi_path file /\ skipOf file = None).
Proof.
  unfold readStep, skipOf.
  destruct (readFileContent (fi_path file)) as [raw|e]; simpl.
  - destruct (Nat.eqb _ 0); simpl.
    + split; [reflexivity | auto].
    + split; [rewrite app_nil_r; reflexivity|].
      intros f Hf. apply in_app_iff in Hf. destruct Hf as [Hf|[<-|[]]]; auto.
  - split; [rewrite app_nil_r; reflexivity | auto].
Qed.

Lemma readStep_fold (files : list FileInfo) acc :
  (fold_left readStep files acc).1.2 = acc.1.2 ++ omap skipOf files
  /\ forall f, In f (fold_left readStep files acc).2 ->
       In f acc.2
       \/ exists file, In file files /\ fc_path f = fi_path file /\ skipOf file = None.
Proof.
  revert acc. induction files as [|file files IH]; intros acc.
  - simpl. rewrite app_nil_r. auto.
  - change (fold_left readStep (file :: files) acc)
      with (fold_left readStep files (readStep acc file)).
    destruct (IH (readStep acc file)) as [Hs Hc].
    destruct acc as [[failed skippedFs] fileContents].
    destruct (readStep_cases file failed skippedFs fileContents) as [Hs1 Hc1].
    split.
    + rewrite Hs, Hs1. cbn [fst snd omap list_omap].
      destruct (skipOf file); rewrite <- app_assoc; reflexivity.
    + intros f Hf. destruct (Hc f Hf) as [Hin|(file' & Hin & Hp)].
      * destruct (Hc1 f Hin) as [Hold|[Hp Hn]]; [left; exact Hold|].
        right. exists file. split; [left; reflexivity | split; assumption].
      * right. exists file'. split; [right; exact Hin | exact Hp].
Qed.

(** The skipped files of a preparation are the files that are read and
    blank, in order. *)
Lemma prepareContentChunks_skipped (files : list FileInfo) :
  skippedFiles (prepareContentChunks files) = omap skipOf files.
Proof.
  unfold prepareContentChunks.
  pose proof (readStep_fold files ([], [], [])) as [Hs _].
  destruct (fold_left readStep files ([], [], [])) as [[failed skippedFs] fileContents].
  simpl in *. exact Hs.
Qed.

(** A chunk belongs to a file that is not skipped. *)
Lemma prepareContentChunks_paths (files : list FileInfo) (c : ContentChunk) :
  In c (contentChunks (prepareContentChunks files)) ->
  exists file, In file files /\ ch_path c = fi_path file /\ skipOf file = None.
Proof.
  unfold prepareContentChunks.
  pose proof (readStep_fold files ([], [], [])) as [_ Hc].
  destruct (fold_left readStep files ([], [], [])) as [[failed skippedFs] fileContents].
  simpl in *. intros Hin. apply processChunks_In in Hin.
  destruct Hin as (c0 & Hc0 & -> & _). apply createChunksForFiles_In in Hc0.
  destruct Hc0 as (_ & f & Hf & ->).
  destruct (Hc f Hf) as [[]|Hfile]. exact Hfile.
Qed.

Lemma skipOf_path (file : FileInfo) (sk : SkippedFile) :
  skipOf file = Some sk -> sk_path sk = fi_path file.
Proof.
  unfold skipOf. destruct (readFileContent _); [|discriminate].
  destruct (Nat.eqb _ 0); [|discriminate]. intros [= <-]. reflexivity.
Qed.

Lemma NoDup_paths_eq (files : list FileInfo) (f g : FileInfo) :
  NoDup (map fi_path files) -> In f files -> In g files -> fi_path f = fi_path g -> f = g.
Proof.
  induction files as [|x files IH]; simpl; [tauto|].
  intros Hnd. apply NoDup_cons in Hnd. destruct Hnd as [Hx Hnd].
  intros [<-|Hf] [<-|Hg] Hp; auto.
  - exfalso. apply Hx. rewrite Hp. apply list_elem_of_In, in_map. exact Hg.
  - exfalso. apply Hx. rewrite <- Hp. apply list_elem_of_In, in_map. exact Hf.
Qed.

Lemma fileMapOf_fold (files : list FileInfo) (fm : gmap string FileInfo) (p : string) :
  (fold_left (fun fm f => <[fi_path f := f]> fm) files fm !! p = fm !! p
   /\ ~ In p (map fi_path files))
  \/ exists f, In f files /\ fi_path f = p
               /\ fold_left (fun fm f => <[fi_path f := f]> fm) files fm !! p = Some f.
Proof.
  revert fm. induction files as [|x files IH]; intros fm; simpl.
  - left. tauto.
  - destruct (IH (<[fi_path x := x]> fm)) as [[Hl Hn]|(f & Hf & Hp & Hl)].
    + destruct (decide (fi_path x = p)) as [Hxp|Hxp].
      * right. exists x. split; [left; reflexivity|]. split; [exact Hxp|].
        rewrite Hl, <- Hxp. apply lookup_insert_eq.
      * left. split; [rewrite Hl; apply lookup_insert_ne; exact Hxp | tauto].
    + right. exists f. split; [right; exact Hf|]. split; assumption.
Qed.

Lemma fileMapOf_lookup (files : list FileInfo) (f : FileInfo) :
  NoDup (map fi_path files) -> In f files -> fileMapOf files !! fi_path f = Some f.
Proof.
  intros Hnd Hf. unfold fileMapOf.
  destruct (fileMapOf_fold files ∅ (fi_path f)) as [[_ Hn]|(g & Hg & Hp & Hl)].
  - exfalso. apply Hn. apply in_map. exact Hf.
  - rewrite Hl. f_equal. eapply NoDup_paths_eq; eassumption.
Qed.

Lemma dummyEmbeddings_markers (files : list FileInfo) (m : EmbeddingModelClient) :
  NoDup (map fi_path files) ->
  dummyEmbeddings (omap skipOf files) files m
  = omap (fun f => skippedMarker m f <$> skipOf f) files.
Proof.
  intros Hnd. unfold dummyEmbeddings.
  assert (Hsub : forall fs, (forall f, In f fs -> In f files) ->
            omap (fun skippedF =>
                    match fileMapOf files !! sk_path skippedF with
                    | None => None
                    | Some fileInfo => Some (skippedMarker m fileInfo skippedF)
                    end) (omap skipOf fs)
            = omap (fun f => skippedMarker m f <$> skipOf f) fs).
  { induction fs as [|f fs IH]; intros Hfs; [reflexivity|].
    cbn [omap list_omap].
    destruct (skipOf f) as [sk|] eqn:Hsk; cbn [omap list_omap fmap option_fmap option_map].
    - rewrite (skipOf_path _ _ Hsk).
      rewrite (fileMapOf_lookup files f Hnd) by (apply Hfs; left; reflexivity).
      f_equal. apply IH. intros g Hg. apply Hfs. right. exact Hg.
    - apply IH. intros g Hg. apply Hfs. right. exact Hg. }
  apply Hsub. auto.
Qed.

Lemma markers_storedAt (files : list FileInfo) (m : EmbeddingModelClient)
    (file : FileInfo) (sk : SkippedFile) :
  NoDup (map fi_path files) -> In file files -> skipOf file = Some sk ->
  List.filter (storedAt thisWorkspaceId m (fi_path file))
    (omap (fun f => skippedMarker m f <$> skipOf f) files)
  = [skippedMarker m file sk].
Proof.
  intros Hnd Hin Hsk.
  assert (Hother : forall fs, ~ In (fi_path file) (map fi_path fs) ->
            List.filter (storedAt thisWorkspaceId m (fi_path file))
              (omap (fun f => skippedMarker m f <$> skipOf f) fs) = []).
  { induction fs as [|g fs IH]; intros Hn; [reflexivity|].
    cbn [omap list_omap].
    destruct (skipOf g) as [skg|] eqn:Hg; cbn [fmap option_fmap option_map].
    - cbn [List.filter]. unfold storedAt at 1. cbn [path skippedMarker].
      rewrite (skipOf_path _ _ Hg).
      rewrite (bool_decide_eq_false_2 (fi_path g = fi_path file))
        by (intros Heq; apply Hn; left; exact Heq).
      rewrite andb_false_r. apply IH. intros Hf. apply Hn. right. exact Hf.
    - apply IH. intros Hf. apply Hn. right. exact Hf. }
  induction files as [|g files IH]; [destruct Hin|].
  simpl in Hnd. apply NoDup_cons in Hnd. destruct Hnd as [Hg Hnd].
  rewrite list_elem_of_In in Hg.
  cbn [omap list_omap]. destruct Hin as [->|Hin].
  - rewrite Hsk. cbn [fmap option_fmap option_map List.filter].
    unfold storedAt at 1. cbn [workspaceId model path skippedMarker].
    rewrite (skipOf_path _ _ Hsk).
    rewrite !bool_decide_eq_true_2 by reflexivity. cbn [andb].
    f_equal. apply Hother. exact Hg.
  - assert (Hne : fi_path g <> fi_path file).
    { intros Heq. apply Hg. rewrite Heq. apply in_map. exact Hin. }
    destruct (skipOf g) as [skg|] eqn:Hskg; cbn [fmap option_fmap option_map].
    + cbn [List.filter]. unfold storedAt at 1. cbn [path skippedMarker].
      rewrite (skipOf_path _ _ Hskg).
      rewrite (bool_decide_eq_false_2 _ Hne). rewrite andb_false_r.
      apply IH; assumption.
    + apply IH; assumption.
Qed.

Lemma storedRows_assignIds (w0 : string) (m : EmbeddingModelClient) (p : string)
    (n : Z) (vs : list InsertEmbedding) :
  map row (List.filter (fun r => inPartition w0 m r && bool_decide (path (row r) = p))
             (assignIds n vs))
  = List.filter (storedAt w0 m p) vs.
Proof.
  revert n. induction vs as [|v vs IH]; intros n; [reflexivity|].
  cbn [assignIds List.filter]. unfold inPartition at 1, storedAt at 1. cbn [row].
  destruct (_ && _ && _); cbn [map]; rewrite IH; reflexivity.
Qed.

Lemma storedRows_insertVectors (w0 : string) (m : EmbeddingModelClient) (p : string)
    (vs : list InsertEmbedding) (d : Database) :
  map row (storedRows w0 m p (insertVectors vs d))
  = map row (storedRows w0 m p d) ++ List.filter (storedAt w0 m p) vs.
Proof.
  unfold storedRows, insertVectors. destruct vs as [|v vs].
  - cbn [List.filter]. rewrite app_nil_r. reflexivity.
  - cbn [rows]. rewrite List.filter_app, map_app, storedRows_assignIds. reflexivity.
Qed.

Lemma filter_none {A : Type} (f : A -> bool) (l : list A) :
  (forall x, In x l -> f x = false) -> List.filter f l = [].
Proof.
  intros Hf. rewrite (filter_pointwise f (fun _ => false)) by exact Hf.
  apply List.filter_false.
Qed.

Lemma storedRows_dbAfterSelect reindexAll (m : EmbeddingModelClient) (d : Database)
    (file : FileInfo) :
  In file (filesSelected reindexAll m d) ->
  storedRows thisWorkspaceId m (fi_path file) (dbAfterSelect reindexAll m d) = [].
Proof.
  intros Hin. unfold storedRows, dbAfterSelect, filesSelected in *.
  destruct reindexAll.
  - unfold clearAllVectors. cbn [rows setRows]. rewrite filter_filter_and.
    apply filter_none. intros r _.
    destruct (inPartition thisWorkspaceId m r); reflexivity.
  - unfold deleteVectorsForMultipleFiles.
    destruct (getFilesToIndex m (pruneDeletedFiles m d)) as [|f fs] eqn:Hfiles;
      [destruct Hin|].
    rewrite <- Hfiles in *. clear Hfiles.
    destruct (map fi_path (getFilesToIndex m (pruneDeletedFiles m d))) as [|q qs] eqn:Hps.
    { apply (in_map fi_path) in Hin. rewrite Hps in Hin. destruct Hin. }
    rewrite <- Hps. cbn [rows setRows]. rewrite filter_filter_and.
    apply filter_none. intros r _.
    destruct (inPartition thisWorkspaceId m r); [|reflexivity]. cbn [andb negb].
    destruct (bool_decide (path (row r) = fi_path file)) eqn:Hp;
      [|rewrite andb_false_r; reflexivity].
    apply bool_decide_eq_true in Hp. rewrite Hp.
    rewrite bool_decide_eq_true_2; [reflexivity|].
    apply list_elem_of_In, in_map. exact Hin.
Qed.

Instance SameStored_preorder w0 m p : PreOrder (SameStored w0 m p).
Proof.
  split.
  - intros w. reflexivity.
  - intros w1 w2 w3 H12 H23. unfold SameStored in *. congruence.
Qed.

Lemma storedRows_insert_other (w0 : string) (m : EmbeddingModelClient) (p : string)
    (vs : list InsertEmbedding) (d : Database) :
  Forall (fun e => path e <> p) vs ->
  storedRows w0 m p (insertVectors vs d) = storedRows w0 m p d.
Proof.
  intros Hvs. unfold storedRows, insertVectors. destruct vs as [|v vs]; [reflexivity|].
  cbn [rows]. rewrite List.filter_app.
  rewrite (filter_none _ (assignIds _ _)); [apply app_nil_r|].
  intros r Hr. apply assignIds_In in Hr.
  rewrite Forall_forall in Hvs. specialize (Hvs _ (proj2 (list_elem_of_In _ _) Hr)).
  rewrite (bool_decide_eq_false_2 _ Hvs). apply andb_false_r.
Qed.

(** The embedding phase leaves the rows of a path alone when no chunk
    belongs to that path. *)
Lemma embedPrepared_other_paths (m : EmbeddingModelClient) (p : string)
    (prepared : Prepared) (nFiles : nat) :
  (forall c, In c (contentChunks prepared) -> ch_path c <> p) ->
  Step (SameStored thisWorkspaceId m p) (embedPrepared prepared nFiles).
Proof.
  intros Hp.
  apply (frame_embedPrepared (SameStored thisWorkspaceId m p) (fun e => path e <> p)).
  - intros e _. apply (Hoare_prim (SameStored thisWorkspaceId m p)); [|auto].
    intros w. reflexivity.
  - intros f. apply (Hoare_prim (SameStored thisWorkspaceId m p)); [|auto].
    intros w. reflexivity.
  - intros cp. apply (Hoare_prim (SameStored thisWorkspaceId m p)); [|auto].
    intros w. reflexivity.
  - apply (Hoare_prim (SameStored thisWorkspaceId m p)); [|auto]. intros w. reflexivity.
  - intros text w. split; [reflexivity | auto].
  - intros f. apply (Hoare_prim (SameStored thisWorkspaceId m p)); [|auto].
    intros w. reflexivity.
  - intros vs Hvs w. split; [|auto]. unfold SameStored, insertVectorsM, bind. simpl.
    apply storedRows_insert_other. exact Hvs.
  - intros c e Hc (_ & Hpath & _). rewrite Hpath. apply Hp. exact Hc.
Qed.

Lemma selectFilesToIndex_run reindexAll (w : World) :
  selectFilesToIndex reindexAll w
  = (Returned (filesSelected reindexAll (clientOf (config w)) (db w)),
     withDb (dbAfterSelect reindexAll (clientOf (config w))) w).
Proof.
  unfold selectFilesToIndex, filesSelected, dbAfterSelect, bind, getModel, updateDb,
    queryDb, ret, withDb.
  destruct reindexAll; cbn [db config heldLocks locals cancelReads embeddingCalls
                             clockReads trace]; [reflexivity|].
  unfold deleteVectorsForMultipleFiles.
  destruct (getFilesToIndex (clientOf (config w)) (pruneDeletedFiles (clientOf (config w)) (db w)))
    as [|f fs]; reflexivity.
Qed.

Lemma recordSkipped_run (prepared : Prepared) (files : list FileInfo) (w : World) :
  (recordSkipped prepared files w).1 = Returned tt
  /\ db (recordSkipped prepared files w).2
     = insertVectors (dummyEmbeddings (skippedFiles prepared) files (clientOf (config w)))
         (db w).
Proof.
  unfold recordSkipped. destruct (skippedFiles prepared) as [|sk sks]; [split; reflexivity|].
  unfold recordSkippedFiles, insertVectorsM, bind, emit, getModel, updateDb, ret.
  cbn [config record].
  destruct (dummyEmbeddings (sk :: sks) files (clientOf (config w))) as [|v vs];
    split; reflexivity.
Qed.

Lemma NoDup_map_filter {A B : Type} (f : A -> B) (g : A -> bool) (l : list A) :
  NoDup (map f l) -> NoDup (map f (List.filter g l)).
Proof.
  induction l as [|x l IH]; simpl; [auto|].
  intros Hnd. apply NoDup_cons in Hnd. destruct Hnd as [Hx Hnd].
  destruct (g x); simpl; [|auto].
  apply NoDup_cons. split; [|auto].
  intros Hin. apply Hx. apply list_elem_of_In in Hin. apply list_elem_of_In.
  apply in_map_iff in Hin. destruct Hin as (y & Hy & Hin).
  apply filter_In in Hin. apply in_map_iff. exists y. tauto.
Qed.

Lemma filesSelected_NoDup reindexAll (m : EmbeddingModelClient) (d : Database) :
  NoDup (map fi_path scanFiles) -> NoDup (map fi_path (filesSelected reindexAll m d)).
Proof.
  intros Hnd. unfold filesSelected. destruct reindexAll; [exact Hnd|].
  unfold getFilesToIndex, getFilesToReindex. apply NoDup_map_filter. exact Hnd.
Qed.

Lemma tryCatch_log_db {A : Type} (body : M A) (w : World) :
  db (tryCatch body (fun error => emit (Logged LogError (message error)) >> throw error) w).2
  = db (body w).2.
Proof. unfold tryCatch, bind, emit, throw. destruct (body w) as [[a|e] w1]; reflexivity. Qed.

(** The marker of a skipped file is the only row stored for its path
    when the update ends, provided the flag was not set when reading and
    chunking ended. *)
Lemma updateBody_marker reindexAll (w : World) (file : FileInfo) (sk : SkippedFile) :
  NoDup (map fi_path scanFiles) ->
  In file (filesSelected reindexAll (clientOf (config w)) (db w)) ->
  skipOf file = Some sk ->
  isCancelledAt (cancelReads w) = false ->
  map row (storedRows thisWorkspaceId (clientOf (config w)) (fi_path file)
             (db (updateBody reindexAll w).2))
  = [skippedMarker (clientOf (config w)) file sk].
Proof.
  intros Hnd Hin Hsk Hcancel.
  set (m := clientOf (config w)) in *.
  pose proof (filesSelected_NoDup reindexAll m (db w) Hnd) as Hnd'.
  pose proof (storedRows_dbAfterSelect reindexAll m (db w) file Hin) as Hempty.
  unfold updateBody, bind at 1. rewrite selectFilesToIndex_run. fold m.
  destruct (filesSelected reindexAll m (db w)) as [|f fs] eqn:Hfiles; [destruct Hin|].
  rewrite <- Hfiles in *. clear f fs Hfiles.
  set (files := filesSelected reindexAll m (db w)) in *.
  set (prepared := prepareContentChunks files).
  unfold bind at 1, readCancelled. cbn [cancelReads withDb]. rewrite Hcancel.
  match goal with
  | |- context [bind (recordSkipped prepared files) ?k ?w0] =>
      set (w1 := w0); set (k0 := k)
  end.
  destruct (recordSkipped_run prepared files w1) as [Hout Hdb].
  unfold bind. destruct (recordSkipped prepared files w1) as [[[]|e] w2];
    [|discriminate]. subst k0. cbn [fst snd] in *.
  assert (Hstep : Step (SameStored thisWorkspaceId m (fi_path file))
                       (embedPrepared prepared (length files))).
  { apply embedPrepared_other_paths. intros c Hc Hpath.
    apply prepareContentChunks_paths in Hc. destruct Hc as (g & Hg & Hcg & Hskg).
    assert (g = file) by (eapply NoDup_paths_eq; [exact Hnd' | exact Hg | exact Hin | congruence]).
    subst g. congruence. }
  destruct (Hstep w2) as [Hsame _]. unfold SameStored in Hsame. rewrite Hsame, Hdb.
  rewrite storedRows_insertVectors. subst w1. cbn [db config withDb].
  rewrite Hempty. cbn [map app]. unfold prepared.
  rewrite prepareContentChunks_skipped. fold m.
  rewrite (dummyEmbeddings_markers files m Hnd').
  apply markers_storedAt; assumption.
Qed.


End SkipFacts.

(** ** The update under its lock *)

Section UpdateLockFacts.
Context `{Env}.

Instance SameLocks_preorder : PreOrder SameLocks.
Proof.
  split.
  - intros w. reflexivity.
  - intros w1 w2 w3 H12 H23. unfold SameLocks in *. congruence.
Qed.

(** The update itself takes and releases no advisory lock. *)
Lemma updateVaultIndexInternal_keeps_locks reindexAll :
  Step SameLocks (updateVaultIndexInternal reindexAll).
Proof.
  apply (frame_updateVaultIndexInternal SameLocks (fun _ => True)).
  - intros e _. apply (Hoare_prim SameLocks); [|auto]. intros w. reflexivity.
  - intros f. apply (Hoare_prim SameLocks); [|auto]. intros w. reflexivity.
  - intros cp. apply (Hoare_prim SameLocks); [|auto]. intros w. reflexivity.
  - apply (Hoare_prim SameLocks); [|auto]. intros w. reflexivity.
  - intros text w. split; [reflexivity | auto].
  - intros f. apply (Hoare_prim SameLocks); [|auto]. intros w. reflexivity.
  - intros vs _ w. split; [reflexivity | auto].
  - intros m fileInfo skippedF. exact I.
  - intros f _. apply (Hoare_prim SameLocks); [|auto]. intros w. reflexivity.
  - intros files c e _ _. exact I.
Qed.

(** X29. An index update ends with the advisory locks the session had
    when it began, whether it returns or throws: the update itself takes
    no lock, and the wrapper gives back the one it took. *)
Lemma updateVaultIndex_restores_locks reindexAll (w : World) :
  heldLocks (updateVaultIndex reindexAll w).2 = heldLocks w.
Proof.
  unfold updateVaultIndex. rewrite withAdvisoryLock_run.
  unfold releaseAdvisoryLock. cbn [snd heldLocks record withLocks].
  destruct (updateVaultIndexInternal_keeps_locks reindexAll
              (record (AdvisoryLock (workspaceIdToLockKey thisWorkspaceId))
                 (withLocks (cons (workspaceIdToLockKey thisWorkspaceId)) w))) as [Hl _].
  unfold SameLocks in Hl. rewrite Hl. cbn [heldLocks record withLocks removeOne].
  rewrite Z.eqb_refl. reflexivity.
Qed.

End UpdateLockFacts.

(** ** Cancellation of the embedding loop *)

Section CancelFacts.
Context `{Env}.

Lemma Guarded_nil : Guarded [].
Proof. intros t1 e t2 Heq. destruct t1; discriminate. Qed.

Lemma Guarded_app (t u : list Event) : Guarded t -> Guarded u -> Guarded (t ++ u).
Proof.
  intros Ht Hu t1 e t2 Heq He.
  apply List.app_eq_app in Heq. destruct Heq as (l & [[-> Hl]|[-> Hl]]).
  - destruct l as [|x l].
    + simpl in Hl. destruct (Hu [] e t2 (eq_sym Hl) He) as (t0 & g & Hnil & _).
      destruct t0; discriminate.
    + injection Hl as <- ->. eapply Ht; [reflexivity | exact He].
  - destruct (Hu l e t2 Hl He) as (t0 & g & -> & Hg).
    exists (t ++ t0), g. split; [apply app_assoc | exact Hg].
Qed.

Lemma Guarded_quiet (t : list Event) :
  Forall (fun e => needsGuard e = false) t -> Guarded t.
Proof.
  intros Hq t1 e t2 -> He. rewrite Forall_forall in Hq.
  rewrite Hq in He; [discriminate|]. apply list_elem_of_In, in_elt.
Qed.

Lemma Guarded_pair (g e : Event) :
  needsGuard g = false -> guards g e = true -> Guarded [g; e].
Proof.
  intros Hg Hge t1 x t2 Heq Hx.
  destruct t1 as [|y [|z t1]]; simpl in Heq.
  - injection Heq as <- _. congruence.
  - injection Heq as <- <- _. exists [], g. split; [reflexivity | exact Hge].
  - injection Heq as _ _ Heq. destruct t1; discriminate.
Qed.

Lemma Faithful_app (lo mid hi : nat) (t u : list Event) :
  (lo <= mid)%nat -> (mid <= hi)%nat ->
  Faithful lo mid t -> Faithful mid hi u -> Faithful lo hi (t ++ u).
Proof.
  intros Hlm Hmh Ht Hu cp k b Hin. apply in_app_iff in Hin. destruct Hin as [Hin|Hin].
  - destruct (Ht cp k b Hin). split; [lia | assumption].
  - destruct (Hu cp k b Hin). split; [lia | assumption].
Qed.

Lemma Faithful_silent (lo hi : nat) (t : list Event) :
  Forall (fun e => isLog e = true \/ needsGuard e = true) t -> Faithful lo hi t.
Proof.
  intros Ht cp k b Hin. rewrite Forall_forall in Ht.
  destruct (Ht _ (proj2 (list_elem_of_In _ _) Hin)) as [Hl|Hg]; discriminate.
Qed.

Instance ChunkSteps_preorder : PreOrder ChunkSteps.
Proof.
  split.
  - intros w. exists []. rewrite app_nil_r.
    split; [reflexivity|]. split; [apply Guarded_nil|]. split; [constructor|].
    split; [intros cp k b []|]. split; [lia | reflexivity].
  - intros w1 w2 w3 (t & Ht & Hg & Hi & Hf & Hle & Hdb)
                   (u & Hu & Hg' & Hi' & Hf' & Hle' & Hdb').
    exists (t ++ u). split; [rewrite Hu, Ht, app_assoc; reflexivity|].
    split; [apply Guarded_app; assumption|].
    split; [apply Forall_app; split; assumption|].
    split; [eapply Faithful_app; eassumption|].
    split; [lia | congruence].
Qed.

(** A step that only logs. *)
Lemma ChunkSteps_log (g : World -> World) (t : list Event) :
  Forall (fun e => isLog e = true) t ->
  (forall w, trace (g w) = trace w ++ t /\ cancelReads (g w) = cancelReads w
             /\ db (g w) = db w) ->
  forall w, ChunkSteps w (g w).
Proof.
  intros Ht Hg w. destruct (Hg w) as (Htr & Hc & Hdb). exists t.
  split; [exact Htr|].
  split; [apply Guarded_quiet; eapply Forall_impl; [exact Ht|];
          intros [] He; solve [discriminate | reflexivity]|].
  split; [eapply Forall_impl; [exact Ht|];
          intros [] He; solve [discriminate | reflexivity]|].
  split; [apply Faithful_silent; eapply Forall_impl; [exact Ht|]; auto|].
  split; [lia | exact Hdb].
Qed.

Lemma ChunkSteps_emit (e : Event) : isLog e = true -> Step ChunkSteps (emit e).
Proof.
  intros He. apply (Hoare_prim ChunkSteps); [|auto].
  apply (ChunkSteps_log _ [e]); [repeat constructor; exact He|].
  intros w. repeat split.
Qed.

Lemma ChunkSteps_silent (g : World -> World) :
  (forall w, trace (g w) = trace w /\ cancelReads (g w) = cancelReads w /\ db (g w) = db w) ->
  forall w, ChunkSteps w (g w).
Proof.
  intros Hg. apply (ChunkSteps_log g []); [constructor|].
  intros w. rewrite app_nil_r. apply Hg.
Qed.

Lemma ChunkSteps_readCancelled (cp : Checkpoint) : Step ChunkSteps (readCancelled cp).
Proof.
  intros w. split; [|auto]. unfold readCancelled. cbn [snd trace cancelReads db].
  exists [CancelRead cp (cancelReads w) (isCancelledAt (cancelReads w))].
  split; [reflexivity|].
  split; [apply Guarded_quiet; repeat constructor|].
  split; [repeat constructor|].
  split; [intros cp' k b [[= <- <- <-]|[]]; split; [simpl; lia | reflexivity]|].
  split; [simpl; lia | reflexivity].
Qed.

Lemma ChunkSteps_updateLocals (f : Locals -> Locals) : Step ChunkSteps (updateLocals f).
Proof.
  apply (Hoare_prim ChunkSteps); [|auto]. apply ChunkSteps_silent. intros w. repeat split.
Qed.

Lemma ChunkSteps_dateNow : Step ChunkSteps dateNow.
Proof.
  apply (Hoare_prim ChunkSteps); [|auto]. apply ChunkSteps_silent. intros w. repeat split.
Qed.

Lemma ChunkSteps_finishRequest chunk total nFiles vector :
  Step ChunkSteps (finishRequest chunk total nFiles vector).
Proof.
  unfold finishRequest, Step. hoare_seq;
    first [ apply ChunkSteps_readCancelled | apply ChunkSteps_updateLocals
          | apply ChunkSteps_dateNow | apply Step_pure; apply ChunkSteps_preorder
          | apply ChunkSteps_emit; reflexivity ].
Qed.

(** [getEmbedding] asks the provider at most once and does nothing else
    that can be observed. *)
Lemma getEmbedding_events (text : string) (w : World) :
  exists t, trace (getEmbedding text w).2 = trace w ++ t
    /\ (t = [] \/ t = [EmbeddingCall (embeddingCalls w) text])
    /\ cancelReads (getEmbedding text w).2 = cancelReads w
    /\ db (getEmbedding text w).2 = db w.
Proof.
  unfold getEmbedding, bind, tryCatch, embeddingsCreateM, throw, ret.
  destruct (cfg_provider (config w)).
  - destruct (cfg_apiKey (config w)).
    + exists [EmbeddingCall (embeddingCalls w) text].
      destruct (embeddingsCreate (embeddingCalls w) text) as [v|e]; cbn [fst snd].
      * repeat split; auto.
      * destruct (bool_decide (status e = Some 401)); [repeat split; auto|].
        destruct (bool_decide (status e = Some 429)); repeat split; auto.
    + exists []. rewrite app_nil_r. repeat split; auto.
  - exists [EmbeddingCall (embeddingCalls w) text].
    destruct (embeddingsCreate (embeddingCalls w) text) as [v|e]; cbn [fst snd].
    + destruct (negb _); repeat split; auto.
    + destruct (bool_decide (status e = Some 401)); [repeat split; auto|].
      destruct (bool_decide (status e = Some 429)); repeat split; auto.
  - exists [EmbeddingCall (embeddingCalls w) text].
    destruct (embeddingsCreate (embeddingCalls w) text) as [v|e]; repeat split; auto.
Qed.

(** The provider is asked right after a reading that found the flag
    clear. *)
Lemma ChunkSteps_guarded_call (text : string) (w : World) :
  isCancelledAt (cancelReads w) = false ->
  ChunkSteps w (getEmbedding text (readCancelled BeforeCall w).2).2.
Proof.
  intros Hc.
  destruct (getEmbedding_events text (readCancelled BeforeCall w).2)
    as (t & Ht & Hcases & Hreads & Hdb).
  exists (CancelRead BeforeCall (cancelReads w) false :: t).
  split. { rewrite Ht. simpl. rewrite Hc, <- app_assoc. reflexivity. }
  split.
  { destruct Hcases as [->| ->].
    - apply Guarded_quiet. repeat constructor.
    - apply Guarded_pair; reflexivity. }
  split. { destruct Hcases as [->| ->]; repeat constructor. }
  split.
  { rewrite Hreads. simpl. intros cp k b [[= <- <- <-]|Hin].
    - split; [lia | symmetry; exact Hc].
    - destruct Hcases as [->| ->]; [destruct Hin | destruct Hin as [[=]|[]]]. }
  split; [rewrite Hreads; simpl; lia | rewrite Hdb; reflexivity].
Qed.

Lemma ChunkSteps_embedRequest chunk total nFiles :
  Step ChunkSteps (embedRequest chunk total nFiles).
Proof.
  intros w. split; [|auto]. unfold embedRequest. unfold bind at 1.
  destruct (isCancelledAt (cancelReads w)) eqn:Hc.
  - unfold readCancelled at 1. rewrite Hc.
    destruct (ChunkSteps_readCancelled BeforeCall w) as [Hr _].
    unfold readCancelled in Hr. rewrite Hc in Hr. exact Hr.
  - pose proof (ChunkSteps_guarded_call (ch_content chunk) w Hc) as Hg.
    unfold readCancelled at 1. rewrite Hc. unfold readCancelled in Hg. rewrite Hc in Hg.
    cbn [fst snd] in *. unfold bind.
    destruct (getEmbedding (ch_content chunk) _) as [[v|e] w2]; cbn [fst snd] in *;
      [|exact Hg].
    destruct (ChunkSteps_finishRequest chunk total nFiles v w2) as [Hf _].
    etransitivity; eassumption.
Qed.

(** One chunk: no insertion, every call guarded, a row built from the
    chunk or nothing. *)
Lemma ChunkSteps_processChunk total nFiles chunk :
  Hoare ChunkSteps (fun o => forall e, o = Some e -> FromChunk chunk e)
        (processChunk total nFiles chunk).
Proof.
  apply (frame_processChunk ChunkSteps).
  - intros e He. apply ChunkSteps_emit. exact He.
  - apply ChunkSteps_updateLocals.
  - apply ChunkSteps_readCancelled.
  - apply ChunkSteps_embedRequest.
Qed.

Lemma processChunk_returns total nFiles chunk (w : World) :
  exists o, (processChunk total nFiles chunk w).1 = Returned o.
Proof.
  unfold processChunk, bind, tryCatch, readCancelled, ret, updateLocals. cbn [fst snd].
  destruct (isCancelledAt (cancelReads w)); [eexists; reflexivity|].
  destruct (backOff 5 _ _ _) as [[e|err] w1]; [eexists; reflexivity|].
  destruct (bool_decide _); eexists; reflexivity.
Qed.

Lemma mapM_returns {A B : Type} (f : A -> M B) (xs : list A) :
  (forall x w, exists y, (f x w).1 = Returned y) ->
  forall w, exists ys, (mapM f xs w).1 = Returned ys.
Proof.
  intros Hf. induction xs as [|x xs IH]; intros w; simpl; [eexists; reflexivity|].
  unfold bind. destruct (Hf x w) as [y Hy]. destruct (f x w) as [[y'|e] w1]; [|discriminate].
  destruct (IH w1) as [ys Hys]. destruct (mapM f xs w1) as [[ys'|e] w2]; [|discriminate].
  eexists. reflexivity.
Qed.

Lemma applyInserts_app (t u : list Event) (d : Database) :
  applyInserts (t ++ u) d = applyInserts u (applyInserts t d).
Proof. unfold applyInserts. apply fold_left_app. Qed.

Lemma applyInserts_quiet (t : list Event) (d : Database) :
  Forall (fun e => isInsert e = false) t -> applyInserts t d = d.
Proof.
  induction 1 as [|e t He _ IH]; [reflexivity|].
  unfold applyInserts in *. simpl. destruct e; try discriminate; exact IH.
Qed.

(** With a flag that stays set, a reading that finds it clear tells that
    every earlier reading found it clear. *)
Lemma reads_clear_before (lo hi n : nat) (t : list Event) :
  Monotone isCancelledAt -> Faithful lo hi t -> (hi <= S n)%nat ->
  isCancelledAt n = false -> Forall (fun e => observesCancel e = false) t.
Proof.
  intros Hmono Hf Hhi Hn. apply Forall_forall. intros e He.
  destruct e as [cp k b| | | | | | |]; try reflexivity. simpl.
  apply list_elem_of_In in He. destruct (Hf cp k b He) as [Hk ->].
  destruct (isCancelledAt k) eqn:Hk'; [|reflexivity].
  rewrite (Hmono k n) in Hn; [discriminate | lia | exact Hk'].
Qed.

Lemma LoopRun_cancelled (w w' : World) : ChunkSteps w w' -> LoopRun w (Returned true) w'.
Proof.
  intros (t & Ht & Hg & Hi & Hf & Hle & Hdb). exists t.
  split; [exact Ht|]. split; [exact Hg|]. split; [exact Hf|]. split; [exact Hle|].
  split; [rewrite applyInserts_quiet by exact Hi; exact Hdb|].
  exists [], t. split; [reflexivity|]. split; [constructor|]. split; [exact Hi|].
  left. reflexivity.
Qed.

Lemma LoopRun_done (w : World) : LoopRun w (Returned false) w.
Proof.
  exists []. rewrite app_nil_r. split; [reflexivity|]. split; [apply Guarded_nil|].
  split; [intros cp k b []|]. split; [lia|]. split; [reflexivity|].
  exists [], []. split; [reflexivity|]. split; [constructor|]. split; [constructor|].
  right. split; reflexivity.
Qed.

Lemma LoopRun_prefix (w w1 w' : World) (r : Outcome JsError bool) (t : list Event) :
  trace w1 = trace w ++ t -> Guarded t ->
  Faithful (cancelReads w) (cancelReads w1) t -> (cancelReads w <= cancelReads w1)%nat ->
  db w1 = applyInserts t (db w) ->
  Forall (fun e => observesCancel e = false) t ->
  LoopRun w1 r w' -> LoopRun w r w'.
Proof.
  intros Ht Hg Hf Hle Hdb Hq (u & Hu & Hgu & Hfu & Hleu & Hdbu & q & tail & -> & Hq' & Htail & Hr).
  exists (t ++ q ++ tail).
  split; [rewrite Hu, Ht, <- app_assoc; reflexivity|].
  split; [apply Guarded_app; assumption|].
  split; [eapply Faithful_app; eassumption|].
  split; [lia|].
  split; [rewrite applyInserts_app, <- Hdb; exact Hdbu|].
  exists (t ++ q), tail. split; [apply app_assoc|].
  split; [apply Forall_app; split; assumption|]. split; [exact Htail | exact Hr].
Qed.

Lemma LoopRun_chunk_prefix (w w1 w' : World) (r : Outcome JsError bool) (n : nat) :
  Monotone isCancelledAt -> ChunkSteps w w1 ->
  (cancelReads w1 <= S n)%nat -> isCancelledAt n = false ->
  LoopRun w1 r w' -> LoopRun w r w'.
Proof.
  intros Hmono (t & Ht & Hg & Hi & Hf & Hle & Hdb) Hn Hc Hrun.
  eapply (LoopRun_prefix w w1 w' r t); try eassumption.
  - rewrite applyInserts_quiet by exact Hi. exact Hdb.
  - eapply reads_clear_before; eassumption.
Qed.

(** Leaving the loop because of cancellation. *)
Lemma cancel_exit total nFiles (w : World) :
  ((reportCancelled total nFiles >> ret true) w).1 = Returned true
  /\ ChunkSteps w ((reportCancelled total nFiles >> ret true) w).2.
Proof.
  split; [reflexivity|].
  assert (Hs : Step ChunkSteps (reportCancelled total nFiles >> ret true)).
  { unfold reportCancelled, Step. hoare_seq;
      first [ apply Step_pure; apply ChunkSteps_preorder
            | apply ChunkSteps_emit; reflexivity ]. }
  apply Hs.
Qed.

Lemma readCancelled_eq (cp : Checkpoint) (w : World) :
  readCancelled cp w = (Returned (isCancelledAt (cancelReads w)), (readCancelled cp w).2).
Proof. reflexivity. Qed.

Lemma readCancelled_reads (cp : Checkpoint) (w : World) :
  cancelReads (readCancelled cp w).2 = S (cancelReads w).
Proof. reflexivity. Qed.

(** The insertion of the valid rows of a batch. *)
Lemma insert_step (vs : list InsertEmbedding) (w : World) :
  let ins := match vs with [] => ret tt | _ => insertVectorsM vs end in
  (ins w).1 = Returned tt
  /\ exists ti, trace (ins w).2 = trace w ++ ti
       /\ (ti = [] \/ ti = [Inserted vs])
       /\ db (ins w).2 = applyInserts ti (db w)
       /\ cancelReads (ins w).2 = cancelReads w.
Proof.
  destruct vs as [|v vs]; cbn zeta.
  - split; [reflexivity|]. exists []. rewrite app_nil_r. repeat split. left. reflexivity.
  - split; [reflexivity|]. exists [Inserted (v :: vs)]. repeat split. right. reflexivity.
Qed.

Lemma batchLoop_run total nFiles (batches : list (list ContentChunk)) :
  Monotone isCancelledAt ->
  forall w r w', batchLoop total nFiles batches w = (r, w') -> LoopRun w r w'.
Proof.
  intros Hmono. induction batches as [|batch rest IH]; intros w r w' Hrun.
  - injection Hrun as <- <-. apply LoopRun_done.
  - cbn [batchLoop] in Hrun. unfold bind at 1 in Hrun.
    rewrite (readCancelled_eq BeforeBatch w) in Hrun. cbv beta iota in Hrun.
    destruct (ChunkSteps_readCancelled BeforeBatch w) as [Hr0 _].
    set (w0 := (readCancelled BeforeBatch w).2) in *.
    destruct (isCancelledAt (cancelReads w)) eqn:Hc0; cbv beta iota in Hrun.
    { destruct (cancel_exit total nFiles w0) as [Hout Hx].
      rewrite Hrun in Hout, Hx. cbn [fst snd] in Hout, Hx. subst r.
      apply LoopRun_cancelled. etransitivity; eassumption. }
    unfold bind at 1 in Hrun.
    destruct (Hoare_mapM ChunkSteps
                (fun c o => forall e, o = Some e -> FromChunk c e)
                (processChunk total nFiles) batch
                (fun c _ => ChunkSteps_processChunk total nFiles c) w0) as [HrA _].
    destruct (mapM_returns (processChunk total nFiles) batch
                (processChunk_returns total nFiles) w0) as [eb Heb].
    destruct (mapM (processChunk total nFiles) batch w0) as [[eb'|err] wA];
      [|discriminate]. cbn [fst snd] in HrA. clear eb Heb.
    unfold bind at 1 in Hrun.
    rewrite (readCancelled_eq AfterBatch wA) in Hrun. cbv beta iota in Hrun.
    destruct (ChunkSteps_readCancelled AfterBatch wA) as [Hr1 _].
    pose proof (readCancelled_reads AfterBatch wA) as Hn1.
    assert (Hlast : trace (readCancelled AfterBatch wA).2
                    = trace wA ++ [CancelRead AfterBatch (cancelReads wA)
                                     (isCancelledAt (cancelReads wA))]) by reflexivity.
    set (w1 := (readCancelled AfterBatch wA).2) in *.
    assert (HwA : ChunkSteps w wA) by (etransitivity; eassumption).
    destruct (isCancelledAt (cancelReads wA)) eqn:Hc1; cbv beta iota in Hrun.
    { destruct (cancel_exit total nFiles w1) as [Hout Hx].
      rewrite Hrun in Hout, Hx. cbn [fst snd] in Hout, Hx. subst r.
      apply LoopRun_cancelled.
      etransitivity; [exact HwA | etransitivity; eassumption]. }
    unfold bind at 1 in Hrun.
    destruct (insert_step (omap id eb') w1) as [Hout (ti & Hti & Hcases & Hdbi & Hni)].
    cbn zeta in Hout, Hti, Hdbi, Hni.
    destruct (match omap id eb' with [] => ret tt | _ => insertVectorsM (omap id eb') end w1)
      as [[[]|err] w2]; [|discriminate]. cbn [fst snd] in Hti, Hdbi, Hni. clear Hout.
    (* the part of the trace up to the insertion: no reading found the flag set *)
    destruct HwA as (ta & Hta & Hga & Hia & Hfa & Hlea & Hdba).
    assert (Hpre : LoopRun w2 r w' -> LoopRun w r w').
    { apply (LoopRun_prefix w w2 w' r
               (ta ++ CancelRead AfterBatch (cancelReads wA) false :: ti)).
      - rewrite Hti, Hlast, Hta, <- !app_assoc. reflexivity.
      - apply Guarded_app; [exact Hga|].
        destruct Hcases as [->| ->];
          [apply Guarded_quiet; repeat constructor | apply Guarded_pair; reflexivity].
      - rewrite Hni, Hn1. apply (Faithful_app _ (cancelReads wA)); [lia | lia | exact Hfa|].
        intros cp k b [[= <- <- <-]|Hin].
        + split; [lia | symmetry; exact Hc1].
        + destruct Hcases as [->| ->]; [destruct Hin | destruct Hin as [[=]|[]]].
      - rewrite Hni, Hn1. lia.
      - rewrite Hdbi. rewrite applyInserts_app.
        rewrite (applyInserts_quiet ta) by exact Hia.
        change (applyInserts (?e :: ti) ?d) with (applyInserts ti d).
        f_equal. destruct Hr1 as (t1 & _ & _ & _ & _ & _ & Hdb1). congruence.
      - apply Forall_app. split.
        + eapply (reads_clear_before _ _ (cancelReads wA)); [exact Hmono | exact Hfa | lia | exact Hc1].
        + constructor; [reflexivity|].
          destruct Hcases as [->| ->]; repeat constructor. }
    apply Hpre. clear Hpre.
    unfold bind at 1 in Hrun.
    rewrite (readCancelled_eq AfterInsert w2) in Hrun. cbv beta iota in Hrun.
    destruct (ChunkSteps_readCancelled AfterInsert w2) as [Hr2 _].
    pose proof (readCancelled_reads AfterInsert w2) as Hn2.
    set (w3 := (readCancelled AfterInsert w2).2) in *.
    destruct (isCancelledAt (cancelReads w2)) eqn:Hc2; cbv beta iota in Hrun.
    { destruct (cancel_exit total nFiles w3) as [Hout Hx].
      rewrite Hrun in Hout, Hx. cbn [fst snd] in Hout, Hx. subst r.
      apply LoopRun_cancelled. etransitivity; eassumption. }
    assert (Hs : Step ChunkSteps
                   (let* l := getLocals in
                    emit (Progress (progressOf l total nFiles None false false)) >>
                    emit (Logged LogProgress "") >> ret tt)).
    { unfold Step. hoare_seq;
        first [ apply Step_pure; apply ChunkSteps_preorder
              | apply ChunkSteps_emit; reflexivity ]. }
    destruct (Hs w3) as [Hr3 _].
    unfold bind, getLocals, emit, ret in Hr3, Hrun. cbn [fst snd] in Hr3, Hrun.
    apply IH in Hrun.
    eapply (LoopRun_chunk_prefix w2 _ w' r (cancelReads w2) Hmono);
      [etransitivity; [exact Hr2 | exact Hr3] | | exact Hc2 | exact Hrun].
    cbn [cancelReads record]. rewrite Hn2. lia.
Qed.

Lemma split_after_clear (q u t1 t2 : list Event) (e : Event) :
  Forall (fun e => observesCancel e = false) q ->
  q ++ u = t1 ++ e :: t2 -> observesCancel e = true ->
  exists l, u = l ++ e :: t2.
Proof.
  intros Hq Heq He. apply List.app_eq_app in Heq.
  destruct Heq as (l & [[-> Hl]|[-> Hl]]).
  - destruct l as [|x l].
    + exists []. simpl in *. congruence.
    + injection Hl as <- ->. apply Forall_app in Hq. destruct Hq as [_ Hq].
      apply Forall_cons in Hq. destruct Hq as [Hx _]. congruence.
  - exists l. exact Hl.
Qed.


End CancelFacts.

(** ** Retrying a request the provider refuses *)

Section RetryFacts.
Context `{Env}.
Variables (chunk : ContentChunk) (total nFiles : nat).
Hypothesis Hclear : forall n, isCancelledAt n = false.
Hypothesis Hrefused :
  forall n text, exists e, embeddingsCreate n text = Thrown e /\ status e = Some 401.

(** One attempt: the client turns the refusal into an [EmbeddingError]. *)
Lemma embedRequest_unauthorized (w : World) (key : string) :
  cfg_provider (config w) = OpenAI -> cfg_apiKey (config w) = Some key ->
  embedRequest chunk total nFiles w
  = (Thrown (EmbeddingError invalidKeyMessage),
     mkWorld (db w) (heldLocks w) (config w) (locals w)
             (S (cancelReads w)) (S (embeddingCalls w)) (clockReads w)
             (trace w ++ [CancelRead BeforeCall (cancelReads w) false;
                          EmbeddingCall (embeddingCalls w) (ch_content chunk)])).
Proof.
  intros Hp Hk. unfold embedRequest, bind, readCancelled. rewrite Hclear.
  unfold getEmbedding, bind. cbn [config]. rewrite Hp, Hk.
  unfold tryCatch, embeddingsCreateM. cbn [embeddingCalls trace db heldLocks config
    locals cancelReads clockReads].
  destruct (Hrefused (embeddingCalls w) (ch_content chunk)) as (e & -> & Hs).
  rewrite Hs. rewrite bool_decide_eq_true_2 by reflexivity.
  unfold throw. rewrite <- app_assoc. reflexivity.
Qed.

(** The [retry] option accepts the client's error. *)
Lemma retryOption_embeddingError (msg : string) (w : World) :
  retryOption chunk total nFiles (EmbeddingError msg) w
  = (Returned true,
     record (Logged LogProgress "")
       (record (Progress (progressOf (locals w) total nFiles
                            (Some (basename (ch_path chunk))) true false)) w)).
Proof. reflexivity. Qed.

(** [backOff] makes every attempt it is allowed and throws the error of
    the last one. *)
Lemma backOff_unauthorized (n : nat) (w : World) (key : string) :
  cfg_provider (config w) = OpenAI -> cfg_apiKey (config w) = Some key ->
  backOff (S n) (embedRequest chunk total nFiles) (retryOption chunk total nFiles) w
  = (Thrown (EmbeddingError invalidKeyMessage), afterAttempts (S n) chunk total nFiles w).
Proof.
  revert w. induction n as [|n IH]; intros w Hp Hk.
  - cbn [backOff]. unfold tryCatch. rewrite (embedRequest_unauthorized w key Hp Hk).
    unfold bind. rewrite retryOption_embeddingError. cbn [negb orb Nat.eqb].
    unfold throw, afterAttempts, record, attempts, attemptEvents.
    cbn [db heldLocks config locals cancelReads embeddingCalls clockReads trace].
    rewrite app_nil_r, <- !app_assoc. reflexivity.
  - change (backOff (S (S n)) (embedRequest chunk total nFiles)
              (retryOption chunk total nFiles) w)
      with (tryCatch (embedRequest chunk total nFiles)
              (fun e => let* shouldRetry := retryOption chunk total nFiles e in
                        if negb shouldRetry || Nat.eqb (S n) 0 then throw e
                        else backOff (S n) (embedRequest chunk total nFiles)
                               (retryOption chunk total nFiles)) w).
    unfold tryCatch. rewrite (embedRequest_unauthorized w key Hp Hk).
    unfold bind. rewrite retryOption_embeddingError. cbn [negb orb Nat.eqb].
    rewrite IH by assumption.
    unfold afterAttempts, record.
    cbn [db heldLocks config locals cancelReads embeddingCalls clockReads trace].
    f_equal. f_equal; [lia | lia |].
    cbn [attempts]. unfold attemptEvents. rewrite <- !app_assoc. reflexivity.
Qed.

(** C3. A request the provider refuses with 401 is retried: with the
    OpenAI client, a key configured, a provider that answers every
    request with status 401 and no cancellation, the callback of one
    chunk asks the provider five times, reports "waiting for rate limit"
    after each refusal, and then returns [null] with the failure stored
    in [failedChunks]; it does not throw. *)
Theorem unauthorized_request_is_retried (w : World) (key : string) :
  cfg_provider (config w) = OpenAI -> cfg_apiKey (config w) = Some key ->
  (processChunk total nFiles chunk w).1 = Returned None
  /\ trace (processChunk total nFiles chunk w).2
     = trace w ++ CancelRead ChunkStart (cancelReads w) false
                  :: attempts 5 chunk total nFiles (locals w)
                       (S (cancelReads w)) (embeddingCalls w)
  /\ embeddingCalls (processChunk total nFiles chunk w).2 = (5 + embeddingCalls w)%nat
  /\ failedChunks (locals (processChunk total nFiles chunk w).2)
     = failedChunks (locals w) ++ [(ch_path chunk, invalidKeyMessage)]
  /\ retryOption chunk total nFiles (EmbeddingError invalidKeyMessage) w
     = (Returned true,
        record (Logged LogProgress "")
          (record (Progress (progressOf (locals w) total nFiles
                               (Some (basename (ch_path chunk))) true false)) w)).
Proof.
  intros Hp Hk.
  assert (Hrun : processChunk total nFiles chunk w
    = (Returned None,
       withLocals (fun l => mkLocals (completed l) (processedFiles l) (lastProgressUpdate l)
                              (failedChunks l ++ [(ch_path chunk, invalidKeyMessage)]))
         (afterAttempts 5 chunk total nFiles
            (mkWorld (db w) (heldLocks w) (config w) (locals w)
                     (S (cancelReads w)) (embeddingCalls w) (clockReads w)
                     (trace w ++ [CancelRead ChunkStart (cancelReads w) false]))))).
  { unfold processChunk. unfold bind at 1. unfold readCancelled at 1. rewrite Hclear.
    cbv beta iota. unfold tryCatch. unfold bind at 1.
    rewrite (backOff_unauthorized 4 _ key) by assumption.
    reflexivity. }
  rewrite Hrun. cbn [fst snd].
  split; [reflexivity|]. split; [|split; [reflexivity | split; [reflexivity|]]].
  - cbn [trace withLocals afterAttempts locals cancelReads embeddingCalls].
    rewrite <- app_assoc. reflexivity.
  - apply retryOption_embeddingError.
Qed.

End RetryFacts.

(** ** A second request while indexing is in progress *)

Section HandlerFacts.

(** The answer of the [catch] is none of the callback's answers. *)
Lemma busyResult_not_callbackResult (r : IndexManager.Request)
    (o : IndexManager.IndexingOutcome) :
  IndexManager.callbackResult r o <> IndexManager.busyResult.
Proof.
  destruct o as [| |msg]; unfold IndexManager.callbackResult, IndexManager.busyResult;
    intros Heq; discriminate Heq.
Qed.

(** With the plain mutex a step adds no answer but the callback's. *)
Lemma step_plain_answers (m : IndexManager.Manager) (i : IndexManager.Input) :
  (forall id, ~ In (id, IndexManager.busyResult) (IndexManager.answered m)) ->
  forall id, ~ In (id, IndexManager.busyResult)
               (IndexManager.answered (IndexManager.step IndexManager.PlainMutex m i)).
Proof.
  intros Hm id. destruct i as [r| |o]; simpl.
  - destruct (IndexManager.running m); simpl; apply Hm.
  - apply Hm.
  - destruct (IndexManager.running m) as [holder|]; [|apply Hm].
    assert (Hnew : ~ In (id, IndexManager.busyResult)
                     (IndexManager.answered m
                      ++ [(IndexManager.req_id holder, IndexManager.callbackResult holder o)])).
    { intros Hin. apply in_app_or in Hin. destruct Hin as [Hin|[Heq|[]]].
      - exact (Hm id Hin).
      - injection Heq as _ Hres. exact (busyResult_not_callbackResult holder o Hres). }
    destruct (IndexManager.waiting m); simpl; exact Hnew.
Qed.

Lemma run_plain_answers (inputs : list IndexManager.Input) (m : IndexManager.Manager) :
  (forall id, ~ In (id, IndexManager.busyResult) (IndexManager.answered m)) ->
  forall id, ~ In (id, IndexManager.busyResult)
               (IndexManager.answered (IndexManager.run IndexManager.PlainMutex m inputs)).
Proof.
  revert m. induction inputs as [|i inputs IH]; intros m Hm; simpl; [exact Hm|].
  apply IH. apply step_plain_answers. exact Hm.
Qed.

(** With the mutex wrapped by [tryAcquire] nobody ever waits. *)
Lemma run_tryAcquire_nobody_waits (inputs : list IndexManager.Input)
    (m : IndexManager.Manager) :
  IndexManager.waiting m = [] ->
  IndexManager.waiting (IndexManager.run IndexManager.TryAcquireMutex m inputs) = [].
Proof.
  revert m. induction inputs as [|i inputs IH]; intros m Hm; simpl; [exact Hm|].
  apply IH. destruct i as [r| |o]; simpl.
  - destruct (IndexManager.running m); simpl; exact Hm.
  - exact Hm.
  - destruct (IndexManager.running m); [|exact Hm]. rewrite Hm. reflexivity.
Qed.


(** C1. The index manager's handler does not reject: a request that
    arrives while another holds the mutex gets no answer and joins the
    queue; when the holder's indexing settles, the request at the head
    of the queue starts indexing; and whatever the requests, the handler
    never gives the busy answer. *)
Theorem rebuildIndexHandler_queues_second_request (holder r : IndexManager.Request)
    (ws : list IndexManager.Request) (c : bool)
    (ans : list (nat * IndexManager.McpResult)) (o : IndexManager.IndexingOutcome) :
  IndexManager.rebuildIndexHandler (IndexManager.mkManager (Some holder) ws c ans)
    [IndexManager.RebuildRequested r]
  = IndexManager.mkManager (Some holder) (ws ++ [r]) c ans
  /\ IndexManager.rebuildIndexHandler (IndexManager.mkManager (Some holder) [] c ans)
       [IndexManager.RebuildRequested r; IndexManager.IndexingSettled o]
     = IndexManager.mkManager (Some r) [] false
         (ans ++ [(IndexManager.req_id holder, IndexManager.callbackResult holder o)])
  /\ forall inputs id,
       ~ In (id, IndexManager.busyResult)
            (IndexManager.answered
               (IndexManager.rebuildIndexHandler IndexManager.idle inputs)).
Proof.
  split; [reflexivity|]. split; [reflexivity|].
  intros inputs id. apply run_plain_answers. intros id' [].
Qed.

End HandlerFacts.

(** ** The update and the declared dimension *)

Section BlindRules.

Lemma Blind_ret {A : Type} (a : A) : Blind (ret a).
Proof. intros s w. reflexivity. Qed.

Lemma Blind_throw {A : Type} (e : JsError) : Blind (@throw A e).
Proof. intros s w. reflexivity. Qed.

Lemma Blind_bind {A B : Type} (m : M A) (f : A -> M B) :
  Blind m -> (forall a, Blind (f a)) -> Blind (bind m f).
Proof.
  intros Hm Hf s w. unfold bind. rewrite Hm.
  destruct (m w) as [[a|e] w']; cbn [fst snd]; [apply Hf | reflexivity].
Qed.

Lemma Blind_tryCatch {A : Type} (m : M A) (handler : JsError -> M A) :
  Blind m -> (forall e, Blind (handler e)) -> Blind (tryCatch m handler).
Proof.
  intros Hm Hh s w. unfold tryCatch. rewrite Hm.
  destruct (m w) as [[a|e] w']; cbn [fst snd]; [reflexivity | apply Hh].
Qed.

Lemma Blind_tryFinally {A : Type} (m : M A) (cleanup : World -> World) :
  Blind m -> (forall s w, cleanup (declaring s w) = declaring s (cleanup w)) ->
  Blind (tryFinally m cleanup).
Proof.
  intros Hm Hc s w. unfold tryFinally. rewrite Hm.
  destruct (m w) as [[a|e] w']; cbn [fst snd]; rewrite Hc; reflexivity.
Qed.

Lemma Blind_mapM {A B : Type} (f : A -> M B) (xs : list A) :
  (forall x, Blind (f x)) -> Blind (mapM f xs).
Proof.
  intros Hf. induction xs as [|x xs IH]; cbn [mapM].
  - apply Blind_ret.
  - apply Blind_bind; [apply Hf|]. intros y.
    apply Blind_bind; [exact IH|]. intros ys. apply Blind_ret.
Qed.

Lemma Blind_backOff {A : Type} (n : nat) (request : M A) (retry : JsError -> M bool) :
  Blind request -> (forall e, Blind (retry e)) -> Blind (backOff n request retry).
Proof.
  intros Hreq Hretry. induction n as [|n IH]; cbn [backOff].
  - apply Blind_throw.
  - apply Blind_tryCatch; [exact Hreq|]. intros e.
    apply Blind_bind; [apply Hretry|]. intros b.
    destruct (negb b || Nat.eqb n 0); [apply Blind_throw | exact IH].
Qed.

(** A statement that changes the rows without regard to the
    declaration. *)
Lemma Blind_updateDb (f : Database -> Database) :
  (forall s d, f (setSchemaDimension s d) = setSchemaDimension s (f d)) ->
  Blind (updateDb f).
Proof.
  intros Hf s w. unfold updateDb, declaring, withDb. cbn [fst snd db]. rewrite Hf.
  reflexivity.
Qed.

(** A query that does not read the declaration. *)
Lemma Blind_queryDb {A : Type} (q : Database -> A) :
  (forall s d, q (setSchemaDimension s d) = q d) -> Blind (queryDb q).
Proof.
  intros Hq s w. unfold queryDb, declaring, withDb. cbn [fst snd db]. rewrite Hq.
  reflexivity.
Qed.

End BlindRules.

(** Splits an operation along its binds, handlers and case analyses;
    what does not touch the table is blind by computation. *)
Ltac blind :=
  repeat first
    [ apply Blind_ret
    | apply Blind_throw
    | apply Blind_bind; [|intros ?]
    | apply Blind_tryCatch; [|intros ?]
    | apply Blind_mapM; intros ?
    | apply Blind_backOff; [|intros ?]
    | assumption
    | match goal with
      | |- Blind (if ?b then _ else _) => destruct b
      | |- Blind (match ?x with _ => _ end) => destruct x
      end
    | (intros ? ?; reflexivity) ].

Section BlindFacts.
Context `{Env}.

Lemma clearAllVectors_declared wid m s d :
  clearAllVectors wid m (setSchemaDimension s d)
  = setSchemaDimension s (clearAllVectors wid m d).
Proof. reflexivity. Qed.

Lemma deleteVectorsForMultipleFiles_declared wid paths m s d :
  deleteVectorsForMultipleFiles wid paths m (setSchemaDimension s d)
  = setSchemaDimension s (deleteVectorsForMultipleFiles wid paths m d).
Proof. destruct d; destruct paths; reflexivity. Qed.

Lemma insertVectors_declared vs s d :
  insertVectors vs (setSchemaDimension s d) = setSchemaDimension s (insertVectors vs d).
Proof. destruct vs; reflexivity. Qed.

Lemma pruneDeletedFiles_declared m s d :
  pruneDeletedFiles m (setSchemaDimension s d) = setSchemaDimension s (pruneDeletedFiles m d).
Proof.
  unfold pruneDeletedFiles, deleteVectorsForDeletedFiles.
  change (getIndexedFilePaths thisWorkspaceId m (setSchemaDimension s d))
    with (getIndexedFilePaths thisWorkspaceId m d).
  destruct (List.filter _ (List.filter fileExists _)); reflexivity.
Qed.

Lemma getFilesToIndex_declared m s d :
  getFilesToIndex m (setSchemaDimension s d) = getFilesToIndex m d.
Proof. reflexivity. Qed.

Lemma Blind_insertVectorsM vs : Blind (insertVectorsM vs).
Proof.
  unfold insertVectorsM. apply Blind_bind; [|intros ?; blind].
  apply Blind_updateDb. intros s d. apply insertVectors_declared.
Qed.

Lemma Blind_getEmbedding text : Blind (getEmbedding text).
Proof. unfold getEmbedding. blind. Qed.

Lemma Blind_finishRequest chunk total nFiles vector :
  Blind (finishRequest chunk total nFiles vector).
Proof. unfold finishRequest. blind. Qed.

Lemma Blind_embedRequest chunk total nFiles : Blind (embedRequest chunk total nFiles).
Proof.
  unfold embedRequest. apply Blind_bind; [blind|]. intros c. destruct c; [blind|].
  apply Blind_bind; [apply Blind_getEmbedding|]. intros v. apply Blind_finishRequest.
Qed.

Lemma Blind_retryOption chunk total nFiles e : Blind (retryOption chunk total nFiles e).
Proof. unfold retryOption. blind. Qed.

Lemma Blind_processChunk total nFiles chunk : Blind (processChunk total nFiles chunk).
Proof.
  unfold processChunk. apply Blind_bind; [blind|]. intros c. destruct c; [blind|].
  apply Blind_tryCatch; [|intros e; blind].
  apply Blind_bind; [|intros e; blind].
  apply Blind_backOff; [apply Blind_embedRequest | intros e; apply Blind_retryOption].
Qed.

Lemma Blind_reportCancelled total nFiles : Blind (reportCancelled total nFiles).
Proof. unfold reportCancelled. blind. Qed.

Lemma Blind_batchLoop total nFiles batches : Blind (batchLoop total nFiles batches).
Proof.
  induction batches as [|batch rest IH]; cbn [batchLoop]; [blind|].
  apply Blind_bind; [blind|]. intros c0.
  destruct c0; [apply Blind_bind; [apply Blind_reportCancelled | intros ?; blind]|].
  apply Blind_bind; [apply Blind_mapM; intros c; apply Blind_processChunk|].
  intros embeddingBatch.
  apply Blind_bind; [blind|]. intros c1.
  destruct c1; [apply Blind_bind; [apply Blind_reportCancelled | intros ?; blind]|].
  apply Blind_bind.
  { destruct (omap id embeddingBatch); [blind | apply Blind_insertVectorsM]. }
  intros _. apply Blind_bind; [blind|]. intros c2.
  destruct c2; [apply Blind_bind; [apply Blind_reportCancelled | intros ?; blind]|].
  apply Blind_bind; [blind|]. intros l.
  apply Blind_bind; [blind|]. intros _.
  apply Blind_bind; [blind|]. intros _. exact IH.
Qed.

Lemma Blind_processEmbeddings chunks nFiles : Blind (processEmbeddings chunks nFiles).
Proof.
  unfold processEmbeddings.
  apply Blind_bind; [blind|]. intros start.
  apply Blind_bind; [blind|]. intros _.
  apply Blind_bind; [apply Blind_batchLoop|]. intros cancelled. blind.
Qed.

Lemma Blind_recordSkippedFiles skippedFs allFiles :
  Blind (recordSkippedFiles skippedFs allFiles).
Proof.
  unfold recordSkippedFiles. destruct skippedFs; [blind|].
  apply Blind_bind; [blind|]. intros m.
  destruct (dummyEmbeddings _ _ _); [blind | apply Blind_insertVectorsM].
Qed.

Lemma Blind_selectFilesToIndex reindexAll : Blind (selectFilesToIndex reindexAll).
Proof.
  unfold selectFilesToIndex. apply Blind_bind; [blind|]. intros m.
  destruct reindexAll.
  - apply Blind_bind; [|intros ?; blind].
    apply Blind_updateDb. intros s d. apply clearAllVectors_declared.
  - apply Blind_bind.
    { apply Blind_updateDb. intros s d. apply pruneDeletedFiles_declared. }
    intros _. apply Blind_bind.
    { apply Blind_queryDb. intros s d. apply getFilesToIndex_declared. }
    intros files. apply Blind_bind; [|intros ?; blind].
    destruct files; [blind|].
    apply Blind_updateDb. intros s d. apply deleteVectorsForMultipleFiles_declared.
Qed.

Lemma Blind_recordSkipped prepared filesToIndex :
  Blind (recordSkipped prepared filesToIndex).
Proof.
  unfold recordSkipped. destruct (skippedFiles prepared); [blind|].
  apply Blind_bind; [blind|]. intros _. apply Blind_recordSkippedFiles.
Qed.

Lemma Blind_embedPrepared prepared nFiles : Blind (embedPrepared prepared nFiles).
Proof.
  unfold embedPrepared. apply Blind_bind; [blind|]. intros _.
  destruct (contentChunks prepared); [blind|].
  apply Blind_bind; [blind|]. intros _.
  apply Blind_bind; [blind|]. intros _.
  apply Blind_bind; [apply Blind_processEmbeddings|]. intros result. blind.
Qed.

Lemma Blind_updateBody reindexAll : Blind (updateBody reindexAll).
Proof.
  unfold updateBody. apply Blind_bind; [apply Blind_selectFilesToIndex|].
  intros filesToIndex. destruct filesToIndex as [|f fs]; [blind|].
  apply Blind_bind; [blind|]. intros c. destruct c; [blind|].
  apply Blind_bind; [apply Blind_recordSkipped|]. intros _. apply Blind_embedPrepared.
Qed.

Lemma Blind_updateVaultIndexInternal reindexAll :
  Blind (updateVaultIndexInternal reindexAll).
Proof.
  unfold updateVaultIndexInternal.
  apply Blind_tryCatch; [apply Blind_updateBody | intros e; blind].
Qed.

Lemma Blind_updateVaultIndex reindexAll : Blind (updateVaultIndex reindexAll).
Proof.
  unfold updateVaultIndex, withAdvisoryLock.
  apply Blind_bind; [blind|]. intros _.
  apply Blind_tryFinally; [apply Blind_updateVaultIndexInternal|].
  intros s w. reflexivity.
Qed.

End BlindFacts.

(** ** Schema validation *)

Section SchemaFacts.
Context `{Env}.

Lemma validateSchemaDimension_valid (dim : nat) (d : Database) :
  valid (validateSchemaDimension dim d) = true <-> schemaDimension d = Some dim.
Proof.
  unfold validateSchemaDimension. destruct (schemaDimension d) as [sd|]; cbn.
  - destruct (Nat.eqb sd dim) eqn:Heq; cbn.
    + apply Nat.eqb_eq in Heq. subst. tauto.
    + apply Nat.eqb_neq in Heq. split; [discriminate | intros [= ->]; contradiction].
  - split; discriminate.
Qed.

(** The engine's validation always returns, changes no row, and says
    what it found on the console only. *)
Lemma engineValidateSchemaDimension_run (w : World) :
  (engineValidateSchemaDimension w).1 = Returned tt
  /\ db (engineValidateSchemaDimension w).2 = db w
  /\ (valid (validateSchemaDimension (cfg_dimension (config w)) (db w)) = true ->
      (engineValidateSchemaDimension w).2 = w)
  /\ (valid (validateSchemaDimension (cfg_dimension (config w)) (db w)) = false ->
      exists msg, trace (engineValidateSchemaDimension w).2 = trace w ++ [ConsoleWarn msg]).
Proof.
  unfold engineValidateSchemaDimension, bind, getModel, queryDb.
  cbn [clientOf em_dimension fst snd].
  destruct (valid (validateSchemaDimension (cfg_dimension (config w)) (db w))); cbn.
  - split; [reflexivity|]. split; [reflexivity|].
    split; [intros _; reflexivity | discriminate].
  - split; [reflexivity|]. split; [reflexivity|]. split; [discriminate|].
    intros _. eexists. reflexivity.
Qed.


End SchemaFacts.

(** ** Folder scopes *)

Section FolderFacts.

Lemma includesChar_app (c : ascii) (s1 s2 : string) :
  includesChar c (s1 +:+ s2) = includesChar c s1 || includesChar c s2.
Proof.
  induction s1 as [|c1 s1 IH]; simpl; [reflexivity|].
  rewrite IH. apply orb_assoc.
Qed.

Lemma convertFolderToGlob_includes_star (folder : string) :
  includesChar "*" (convertFolderToGlob folder) = true.
Proof.
  unfold convertFolderToGlob.
  destruct (includesChar "*" folder) eqn:Hstar; [exact Hstar|].
  destruct folder as [|c rest]; [reflexivity|].
  destruct (Ascii.eqb c "/").
  - rewrite includesChar_app. apply orb_true_r.
  - reflexivity.
Qed.

(** X1. Whatever the folder parameter, [convertFolderToGlob] yields a
    pattern that contains a star, and converting a second time changes
    nothing: a parameter that is a glob already, and so every converted
    one, is used as it is. *)
Theorem convertFolderToGlob_idempotent (folder : string) :
  includesChar "*" (convertFolderToGlob folder) = true
  /\ convertFolderToGlob (convertFolderToGlob folder) = convertFolderToGlob folder.
Proof.
  pose proof (convertFolderToGlob_includes_star folder) as Hstar.
  split; [exact Hstar|].
  unfold convertFolderToGlob at 1. rewrite Hstar. reflexivity.
Qed.

(** X2. With a non-empty list of folders, [filterByFolders] keeps
    exactly the results whose path matches the pattern of at least one
    folder; without folders (absent or empty) it keeps every result. *)
Theorem filterByFolders_any_pattern (minimatch : string -> string -> bool)
    (results : list SearchResult) (folder : string) (folders : list string)
    (r : SearchResult) :
  (In r (filterByFolders minimatch results (Some (folder :: folders))) <->
   In r results
   /\ exists f, In f (folder :: folders)
                /\ minimatch (sr_path r) (convertFolderToGlob f) = true)
  /\ filterByFolders minimatch results None = results
  /\ filterByFolders minimatch results (Some []) = results.
Proof.
  split; [|split; reflexivity].
  unfold filterByFolders. rewrite filter_In, existsb_exists.
  split; intros [Hr (p & Hp & Hm)]; (split; [exact Hr|]).
  - apply in_map_iff in Hp. destruct Hp as (f & <- & Hf). exists f. split; assumption.
  - exists (convertFolderToGlob p). split; [|exact Hm].
    apply in_map_iff. exists p. split; [reflexivity | exact Hp].
Qed.

End FolderFacts.

(** ** Queries in the log *)

Section LogFacts.

Lemma substring_whole (s : string) (n : nat) :
  (String.length s <= n)%nat -> String.substring 0 n s = s.
Proof.
  revert n. induction s as [|c s IH]; intros n Hn; destruct n as [|n]; simpl in *;
    try reflexivity; [lia|].
  rewrite IH by lia. reflexivity.
Qed.


End LogFacts.

(** ** The formatter's selection *)

Section FormatterFacts.
Local Open Scope float_scope.

Lemma insertBy_length {A : Type} (cmp : A -> A -> float) (x : A) (l : list A) :
  length (insertBy cmp x l) = S (length l).
Proof.
  induction l as [|y l IH]; simpl; [reflexivity|].
  destruct (0 <? cmp y x); simpl; [reflexivity | rewrite IH; reflexivity].
Qed.

Lemma sortBy_length {A : Type} (cmp : A -> A -> float) (l : list A) :
  length (sortBy cmp l) = length l.
Proof.
  unfold sortBy.
  enough (Hacc : forall acc, length (fold_left (fun acc x => insertBy cmp x acc) l acc)
                             = (length l + length acc)%nat)
    by (rewrite Hacc; simpl; lia).
  induction l as [|x l IH]; intros acc; simpl; [reflexivity|].
  rewrite IH, insertBy_length. lia.
Qed.

Lemma dedupeFrom_In (seen : list string) (rs : list SearchResult) (r : SearchResult) :
  In r (dedupeFrom seen rs) -> In r rs /\ ~ In (sr_path r) seen.
Proof.
  revert seen. induction rs as [|r0 rs IH]; intros seen; simpl; [tauto|].
  destruct (bool_decide (sr_path r0 ∈ seen)) eqn:Hseen.
  - intros Hr. destruct (IH _ Hr) as [Hin Hn]. tauto.
  - apply bool_decide_eq_false in Hseen. rewrite list_elem_of_In in Hseen.
    intros [<-|Hr]; [tauto|].
    destruct (IH _ Hr) as [Hin Hn]. simpl in Hn. tauto.
Qed.

Lemma dedupeFrom_NoDup (seen : list string) (rs : list SearchResult) :
  NoDup (map sr_path (dedupeFrom seen rs)).
Proof.
  revert seen. induction rs as [|r0 rs IH]; intros seen; simpl; [apply NoDup_nil_2|].
  destruct (bool_decide (sr_path r0 ∈ seen)); [apply IH|].
  simpl. apply NoDup_cons. split; [|apply IH].
  rewrite list_elem_of_In, in_map_iff. intros (r & Hpath & Hr).
  apply dedupeFrom_In in Hr. destruct Hr as [_ Hn]. apply Hn. left. symmetry. exact Hpath.
Qed.

Lemma dedupeFrom_length (seen : list string) (rs : list SearchResult) :
  (length (dedupeFrom seen rs) <= length rs)%nat.
Proof.
  revert seen. induction rs as [|r0 rs IH]; intros seen; simpl; [lia|].
  destruct (bool_decide _); simpl; [specialize (IH seen) | specialize (IH (sr_path r0 :: seen))];
    lia.
Qed.

(** X4. The results the answer formatter cites are at most five, all
    taken from the results it was given, with pairwise different paths;
    and it cites something whenever it was given something. *)
Theorem filterAndDeduplicateResults_distinct_paths (results : list SearchResult) :
  (length (filterAndDeduplicateResults results) <= 5)%nat
  /\ NoDup (map sr_path (filterAndDeduplicateResults results))
  /\ (forall r, In r (filterAndDeduplicateResults results) -> In r results)
  /\ (results <> [] -> filterAndDeduplicateResults results <> []).
Proof.
  unfold filterAndDeduplicateResults.
  set (cmp := fun a b : SearchResult => sr_similarity b - sr_similarity a).
  split; [|split; [|split]].
  - etransitivity; [apply dedupeFrom_length|]. rewrite length_take. lia.
  - apply dedupeFrom_NoDup.
  - intros r Hr. apply dedupeFrom_In in Hr. destruct Hr as [Hr _].
    eapply sortBy_In, take_In, Hr.
  - intros Hne.
    pose proof (sortBy_length cmp results) as Hlen.
    destruct (sortBy cmp results) as [|r0 sorted].
    + destruct results; [contradiction | discriminate].
    + simpl. discriminate.
Qed.

End FormatterFacts.

(** ** The scan of the workspace *)

Section ScanFacts.

Lemma uniqueFrom_NoDup (seen xs : list string) : NoDup (uniqueFrom seen xs).
Proof.
  revert seen. induction xs as [|x xs IH]; intros seen; simpl; [apply NoDup_nil_2|].
  destruct (bool_decide (x ∈ seen)); [apply IH|].
  apply NoDup_cons. split; [|apply IH].
  rewrite list_elem_of_In, uniqueFrom_In. simpl. tauto.
Qed.

Lemma unique_NoDup (xs : list string) : NoDup (unique xs).
Proof. apply uniqueFrom_NoDup. Qed.

Lemma filter_NoDup {A : Type} (f : A -> bool) (l : list A) :
  NoDup l -> NoDup (List.filter f l).
Proof.
  induction l as [|x l IH]; intros Hnd; simpl; [apply NoDup_nil_2|].
  apply NoDup_cons in Hnd. destruct Hnd as [Hx Hnd].
  destruct (f x); [|apply IH; exact Hnd].
  apply NoDup_cons. split; [|apply IH; exact Hnd].
  rewrite list_elem_of_In, filter_In. rewrite list_elem_of_In in Hx. tauto.
Qed.

Lemma omap_stat_In (statOf : string -> Outcome JsError (bool * FileStat))
    (paths : list string) (f : FileInfo) :
  In f (omap (fun filePath =>
                match statOf filePath with
                | Returned (true, fileStat) => Some (mkFileInfo filePath fileStat)
                | _ => None
                end) paths)
  <-> In (fi_path f) paths /\ statOf (fi_path f) = Returned (true, fi_stat f).
Proof.
  rewrite <- list_elem_of_In, list_elem_of_omap. split.
  - intros (p & Hp & Hf). apply list_elem_of_In in Hp.
    destruct (statOf p) as [[[|] st]|e] eqn:Hst; try discriminate.
    injection Hf as <-. simpl. split; assumption.
  - intros [Hp Hst]. exists (fi_path f). split; [apply list_elem_of_In; exact Hp|].
    rewrite Hst. destruct f as [p [mt sz]]. reflexivity.
Qed.

Lemma omap_stat_NoDup (statOf : string -> Outcome JsError (bool * FileStat))
    (paths : list string) :
  NoDup paths ->
  NoDup (map fi_path
           (omap (fun filePath =>
                    match statOf filePath with
                    | Returned (true, fileStat) => Some (mkFileInfo filePath fileStat)
                    | _ => None
                    end) paths)).
Proof.
  induction paths as [|p paths IH]; intros Hnd; simpl; [apply NoDup_nil_2|].
  apply NoDup_cons in Hnd. destruct Hnd as [Hp Hnd].
  destruct (statOf p) as [[[|] st]|e] eqn:Hst; simpl; try (apply IH; exact Hnd).
  apply NoDup_cons. split; [|apply IH; exact Hnd].
  rewrite list_elem_of_In, in_map_iff. intros (f & Hpath & Hf).
  apply omap_stat_In in Hf. destruct Hf as [Hin _].
  apply Hp. apply list_elem_of_In. rewrite <- Hpath. exact Hin.
Qed.

(** X5. The scan lists every path once. A file is listed exactly when
    some include pattern finds its path, no exclude pattern matches it,
    and [stat] succeeds on it and says it is a regular file; it is listed
    with the [mtime] and [size] that [stat] gave. *)
Theorem getFilesToIndex_scan (glob : string -> list string)
    (minimatch : string -> string -> bool)
    (statOf : string -> Outcome JsError (bool * FileStat))
    (includePatterns excludePatterns : list string) :
  NoDup (map fi_path
           (FileSystemUtils.getFilesToIndex glob minimatch statOf
              includePatterns excludePatterns))
  /\ forall f,
       In f (FileSystemUtils.getFilesToIndex glob minimatch statOf
               includePatterns excludePatterns)
       <-> (exists pattern, In pattern includePatterns /\ In (fi_path f) (glob pattern))
           /\ (forall pattern, In pattern excludePatterns ->
                 minimatch (fi_path f) pattern = false)
           /\ statOf (fi_path f) = Returned (true, fi_stat f).
Proof.
  unfold FileSystemUtils.getFilesToIndex, FileSystemUtils.getAllFiles. split.
  - apply omap_stat_NoDup. apply filter_NoDup, unique_NoDup.
  - intros f. rewrite omap_stat_In, filter_In, unique_In, in_concat, negb_true_iff.
    split.
    + intros [[(l & Hl & Hf) Hex] Hst].
      apply in_map_iff in Hl. destruct Hl as (pattern & <- & Hp).
      split; [exists pattern; split; assumption|]. split; [|exact Hst].
      intros pattern' Hp'.
      destruct (minimatch (fi_path f) pattern') eqn:Hm; [|reflexivity].
      assert (Htrue : existsb (fun pattern => minimatch (fi_path f) pattern) excludePatterns
                      = true)
        by (apply existsb_exists; exists pattern'; split; assumption).
      congruence.
    + intros [(pattern & Hp & Hf) [Hex Hst]].
      split; [|exact Hst]. split.
      * exists (glob pattern). split; [apply in_map; exact Hp | exact Hf].
      * destruct (existsb _ excludePatterns) eqn:He; [|reflexivity].
        apply existsb_exists in He. destruct He as (pattern' & Hp' & Hm).
        rewrite (Hex _ Hp') in Hm. discriminate.
Qed.

End ScanFacts.

(** ** Where a chunk is found *)

Section LocateFacts.

(** The search returns the first index at which the lines of the chunk
    are found, and finds nothing only when there is none. *)
Lemma findChunk_first (lines chunkLines : list string) (i : nat) :
  match findChunk lines chunkLines i with
  | Some j =>
      exists k, j = (i + k)%nat
        /\ (k + length chunkLines <= length lines)%nat
        /\ take (length chunkLines) (drop k lines) = chunkLines
        /\ forall k', (k' < k)%nat -> take (length chunkLines) (drop k' lines) <> chunkLines
  | None =>
      forall k, (k + length chunkLines <= length lines)%nat ->
        take (length chunkLines) (drop k lines) <> chunkLines
  end.
Proof.
  revert i. induction lines as [|l rest IH]; intros i.
  - cbn [findChunk]. destruct (length chunkLines <=? length (@nil string))%nat eqn:Hlen.
    + apply Nat.leb_le in Hlen. simpl in Hlen.
      destruct chunkLines; [|simpl in Hlen; lia]. simpl.
      exists 0%nat. repeat split; [lia | lia | intros k' Hk'; lia].
    + apply Nat.leb_gt in Hlen. intros k Hk. lia.
  - cbn [findChunk]. destruct (length chunkLines <=? length (l :: rest))%nat eqn:Hlen.
    + apply Nat.leb_le in Hlen.
      destruct (bool_decide (take (length chunkLines) (l :: rest) = chunkLines)) eqn:Hhere.
      * apply bool_decide_eq_true in Hhere. exists 0%nat.
        repeat split; [lia | lia | exact Hhere | intros k' Hk'; lia].
      * apply bool_decide_eq_false in Hhere. specialize (IH (S i)).
        destruct (findChunk rest chunkLines (S i)) as [j|].
        -- destruct IH as (k & -> & Hk & Hat & Hfirst). exists (S k).
           repeat split; [lia | simpl; lia | exact Hat |].
           intros [|k'] Hk'; [exact Hhere|]. simpl. apply Hfirst. lia.
        -- intros [|k] Hk; [exact Hhere|]. simpl. apply IH. simpl in Hk. lia.
    + apply Nat.leb_gt in Hlen. intros k Hk. lia.
Qed.

(** X6. [calculateLineNumbers] answers with the first place at which the
    lines of the chunk occur in the lines of the file: the range starts
    one after the number of lines before it, spans as many lines as the
    chunk has, ends within the file, and holds the chunk's lines; when
    the chunk's lines occur nowhere it answers 1..1. A chunk that is the
    whole file gets the range of the whole file. *)
Theorem calculateLineNumbers_first_occurrence (originalContent chunkContent : string) :
  let lines := splitLines originalContent in
  let chunkLines := splitLines chunkContent in
  ((exists k,
      calculateLineNumbers originalContent chunkContent
      = (Z.of_nat k + 1, Z.of_nat k + Z.of_nat (length chunkLines))
      /\ (k + length chunkLines <= length lines)%nat
      /\ take (length chunkLines) (drop k lines) = chunkLines
      /\ forall k', (k' < k)%nat -> take (length chunkLines) (drop k' lines) <> chunkLines)
   \/ (calculateLineNumbers originalContent chunkContent = (1, 1)
       /\ forall k, (k + length chunkLines <= length lines)%nat ->
            take (length chunkLines) (drop k lines) <> chunkLines))
  /\ calculateLineNumbers originalContent originalContent = (1, Z.of_nat (length lines)).
Proof.
  intros lines chunkLines. split.
  - unfold calculateLineNumbers. fold lines. fold chunkLines.
    pose proof (findChunk_first lines chunkLines 0) as Hfind.
    destruct (findChunk lines chunkLines 0) as [j|].
    + left. destruct Hfind as (k & -> & Hk & Hat & Hfirst). exists k.
      repeat split; assumption.
    + right. split; [reflexivity | exact Hfind].
  - unfold calculateLineNumbers. fold lines.
    pose proof (findChunk_first lines lines 0) as Hfind.
    destruct (findChunk lines lines 0) as [j|].
    + destruct Hfind as (k & -> & Hk & _). assert (k = 0%nat) by lia. subst k.
      simpl. f_equal.
    + exfalso. apply (Hfind 0%nat); [simpl; lia|]. simpl. apply firstn_all.
Qed.

End LocateFacts.

(** ** NUL bytes *)

Section NulFacts.

(** X7. [sanitizeContent] of the file utilities removes the NUL
    characters and nothing else: what is left is the other characters in
    their order; the result contains no NUL, and a text without NUL is
    returned as it is. *)
Theorem sanitizeContent_removes_nul (text : string) :
  String.list_ascii_of_string (removeNul text)
  = List.filter (fun c => negb (Ascii.eqb c Ascii.zero)) (String.list_ascii_of_string text)
  /\ includesNul (removeNul text) = false
  /\ (includesNul text = false -> removeNul text = text).
Proof.
  induction text as [|c text (IHl & IHn & IHs)]; simpl.
  - repeat split.
  - destruct (Ascii.eqb c Ascii.zero) eqn:Hc; simpl.
    + split; [exact IHl|]. split; [exact IHn | discriminate].
    + rewrite IHl, Hc, IHn. split; [reflexivity|]. split; [reflexivity|].
      intros Hno. rewrite (IHs Hno). reflexivity.
Qed.

End NulFacts.

(** ** Writes and reads of the repository *)

Section RepositoryFacts.

Lemma filter_all {A : Type} (f : A -> bool) (l : list A) :
  (forall x, In x l -> f x = true) -> List.filter f l = l.
Proof.
  induction l as [|x l IH]; intros Hf; simpl; [reflexivity|].
  rewrite (Hf x) by (left; reflexivity).
  rewrite IH by (intros y Hy; apply Hf; right; exact Hy). reflexivity.
Qed.

Lemma filter_nothing {A : Type} (f : A -> bool) (l : list A) :
  (forall x, In x l -> f x = false) -> List.filter f l = [].
Proof.
  induction l as [|x l IH]; intros Hf; simpl; [reflexivity|].
  rewrite (Hf x) by (left; reflexivity).
  apply IH. intros y Hy. apply Hf. right. exact Hy.
Qed.

Lemma assignIds_row (n : Z) (vs : list InsertEmbedding) (r : SelectEmbedding) :
  In r (assignIds n vs) -> In (row r) vs.
Proof.
  revert n. induction vs as [|v vs IH]; intros n; simpl; [tauto|].
  intros [<-|Hr]; [left; reflexivity | right; eapply IH; exact Hr].
Qed.

(** X8. The deletions of the repository for a workspace and a model
    leave every row of another workspace or another model in place, in
    the same order; so does an insertion of rows of that workspace and
    model. *)
Theorem repository_writes_keep_other_rows (w : string) (m : EmbeddingModelClient)
    (d : Database) :
  otherRows w m (clearAllVectors w m d) = otherRows w m d
  /\ (forall filePaths,
        otherRows w m (deleteVectorsForMultipleFiles w filePaths m d) = otherRows w m d)
  /\ (forall existingFilePaths,
        otherRows w m (deleteVectorsForDeletedFiles w existingFilePaths m d)
        = otherRows w m d)
  /\ (forall vectors,
        Forall (fun e => workspaceId e = w /\ model e = em_id m) vectors ->
        otherRows w m (insertVectors vectors d) = otherRows w m d).
Proof.
  assert (Hclear : otherRows w m (clearAllVectors w m d) = otherRows w m d).
  { unfold otherRows, clearAllVectors. cbn [rows setRows].
    rewrite filter_filter_and. apply filter_pointwise. intros r _.
    destruct (inPartition w m r); reflexivity. }
  split; [exact Hclear|]. split; [|split].
  - intros filePaths. unfold otherRows, deleteVectorsForMultipleFiles.
    destruct filePaths as [|p ps]; [reflexivity|]. cbn [rows setRows].
    rewrite filter_filter_and. apply filter_pointwise. intros r _.
    destruct (inPartition w m r); simpl; [apply andb_false_r | reflexivity].
  - intros existingFilePaths. unfold deleteVectorsForDeletedFiles.
    destruct existingFilePaths as [|p ps]; [exact Hclear|].
    unfold otherRows. cbn [rows setRows].
    rewrite filter_filter_and. apply filter_pointwise. intros r _.
    destruct (inPartition w m r); simpl; [apply andb_false_r | reflexivity].
  - intros vectors Hvs. unfold otherRows, insertVectors.
    destruct vectors as [|v vs]; [reflexivity|]. cbn [rows].
    rewrite List.filter_app.
    rewrite (filter_nothing _ (assignIds (nextId d) (v :: vs))); [apply app_nil_r|].
    intros r Hr. apply assignIds_row in Hr.
    rewrite Forall_forall in Hvs. apply list_elem_of_In, Hvs in Hr.
    destruct Hr as [Hw Hm]. unfold inPartition.
    rewrite !bool_decide_eq_true_2 by assumption. reflexivity.
Qed.


End RepositoryFacts.

(** ** Pruning and stored modification times *)

Section PruneFacts.
Context `{Env}.

Lemma getIndexedFilePaths_In (w : string) (m : EmbeddingModelClient) (d : Database)
    (p : string) :
  In p (getIndexedFilePaths w m d)
  <-> exists r, In r (rows d) /\ inPartition w m r = true /\ path (row r) = p.
Proof.
  unfold getIndexedFilePaths. rewrite unique_In, in_map_iff. split.
  - intros (r & Hp & Hr). apply filter_In in Hr. exists r. tauto.
  - intros (r & Hr & Hin & Hp). exists r. split; [exact Hp|]. apply filter_In. tauto.
Qed.

(** The rows of the partition that [deleteVectorsForDeletedFiles]
    leaves: those of the surviving paths. *)
Lemma deleteVectorsForDeletedFiles_partition (w : string) (existingFilePaths : list string)
    (m : EmbeddingModelClient) (d : Database) :
  List.filter (inPartition w m)
    (rows (deleteVectorsForDeletedFiles w existingFilePaths m d))
  = List.filter (fun r => inPartition w m r && bool_decide (path (row r) ∈ existingFilePaths))
      (rows d).
Proof.
  unfold deleteVectorsForDeletedFiles. destruct existingFilePaths as [|p ps].
  - unfold clearAllVectors. cbn [rows setRows]. rewrite filter_filter_and.
    apply filter_pointwise. intros r _.
    rewrite bool_decide_eq_false_2 by (intros Hin; inversion Hin).
    destruct (inPartition w m r); reflexivity.
  - cbn [rows setRows]. rewrite filter_filter_and. apply filter_pointwise. intros r _.
    destruct (inPartition w m r); simpl; [|reflexivity].
    destruct (bool_decide (path (row r) ∈ p :: ps)); reflexivity.
Qed.

(** X10. After the pruning that opens an incremental update, the store
    holds rows of this workspace and model for a path exactly when it held
    some before, the path still exists on disk and the scan lists it; the
    rows of such a path are left as they were, and every other path of
    the partition has no row any more. *)
Theorem pruneDeletedFiles_keeps_live_paths (m : EmbeddingModelClient) (d : Database)
    (p : string) :
  let live := In p (getIndexedFilePaths thisWorkspaceId m d)
              /\ fileExists p = true /\ In p (map fi_path scanFiles) in
  (In p (getIndexedFilePaths thisWorkspaceId m (pruneDeletedFiles m d)) <-> live)
  /\ (live -> storedRows thisWorkspaceId m p (pruneDeletedFiles m d)
              = storedRows thisWorkspaceId m p d)
  /\ (~ live -> storedRows thisWorkspaceId m p (pruneDeletedFiles m d) = []).
Proof.
  intros live.
  set (indexed := getIndexedFilePaths thisWorkspaceId m d) in *.
  set (valid := List.filter (fun q => bool_decide (q ∈ map fi_path scanFiles))
                  (List.filter fileExists indexed)).
  assert (Hvalid : In p valid <-> live).
  { unfold valid, live. rewrite !filter_In, bool_decide_eq_true, list_elem_of_In. tauto. }
  assert (Hrows : List.filter (inPartition thisWorkspaceId m) (rows (pruneDeletedFiles m d))
                  = List.filter (fun r => inPartition thisWorkspaceId m r
                                          && bool_decide (path (row r) ∈ valid)) (rows d))
    by apply deleteVectorsForDeletedFiles_partition.
  assert (Hstored : storedRows thisWorkspaceId m p (pruneDeletedFiles m d)
                    = List.filter (fun r => (inPartition thisWorkspaceId m r
                                             && bool_decide (path (row r) ∈ valid))
                                            && bool_decide (path (row r) = p)) (rows d)).
  { unfold storedRows.
    rewrite <- (filter_filter_and (inPartition thisWorkspaceId m)
                  (fun r => bool_decide (path (row r) = p))).
    rewrite Hrows. apply filter_filter_and. }
  split; [|split].
  - rewrite <- Hvalid. rewrite getIndexedFilePaths_In. split.
    + intros (r & Hr & Hin & Hp).
      assert (Hf : In r (List.filter (inPartition thisWorkspaceId m)
                           (rows (pruneDeletedFiles m d))))
        by (apply filter_In; tauto).
      rewrite Hrows in Hf. apply filter_In in Hf. destruct Hf as [_ Hc].
      apply andb_true_iff in Hc. destruct Hc as [_ Hv].
      apply bool_decide_eq_true, list_elem_of_In in Hv. rewrite Hp in Hv. exact Hv.
    + intros Hv. pose proof Hv as Hv'. apply Hvalid in Hv'. destruct Hv' as [Hi _].
      apply getIndexedFilePaths_In in Hi. destruct Hi as (r & Hr & Hin & Hp).
      assert (Hf : In r (List.filter (inPartition thisWorkspaceId m)
                           (rows (pruneDeletedFiles m d)))).
      { rewrite Hrows. apply filter_In. split; [exact Hr|]. rewrite Hin. simpl.
        apply bool_decide_eq_true, list_elem_of_In. rewrite Hp. exact Hv. }
      apply filter_In in Hf. exists r. tauto.
  - intros Hlive. apply Hvalid in Hlive. rewrite Hstored. unfold storedRows.
    apply filter_pointwise. intros r _.
    destruct (inPartition thisWorkspaceId m r); simpl; [|reflexivity].
    destruct (bool_decide (path (row r) = p)) eqn:Hrp; [|apply andb_false_r].
    apply bool_decide_eq_true in Hrp. rewrite Hrp.
    rewrite bool_decide_eq_true_2 by (apply list_elem_of_In; exact Hlive). reflexivity.
  - intros Hdead. rewrite Hstored. apply filter_nothing. intros r _.
    destruct (inPartition thisWorkspaceId m r); simpl; [|reflexivity].
    destruct (bool_decide (path (row r) = p)) eqn:Hrp; [|apply andb_false_r].
    apply bool_decide_eq_true in Hrp. rewrite Hrp.
    rewrite bool_decide_eq_false_2; [reflexivity|].
    rewrite list_elem_of_In, Hvalid. exact Hdead.
Qed.

Lemma mtimeStep_fold_absent (rs : list SelectEmbedding) (m0 : gmap string Z) (p : string) :
  (forall r, In r rs -> path (row r) <> p) ->
  fold_left mtimeStep rs m0 !! p = m0 !! p.
Proof.
  revert m0. induction rs as [|r rs IH]; intros m0 Hrs; simpl; [reflexivity|].
  rewrite IH by (intros r' Hr'; apply Hrs; right; exact Hr').
  unfold mtimeStep. destruct (_ <? _); [|reflexivity].
  apply lookup_insert_ne. apply Hrs. left. reflexivity.
Qed.

(** X11. The map of [getFileModificationTimes] has an entry only for a
    path that was asked for, and the entry is the largest [mtime] among
    the rows the store holds for that path, workspace and model; it is
    always positive, a path whose largest stored time is zero or less
    having no entry. *)
Theorem getFileModificationTimes_largest (w : string) (filePaths : list string)
    (m : EmbeddingModelClient) (d : Database) (p : string) :
  (~ In p filePaths -> getFileModificationTimes w filePaths m d !! p = None)
  /\ (In p filePaths ->
      default 0 (getFileModificationTimes w filePaths m d !! p) = storedMax0 w m p d)
  /\ (forall v, getFileModificationTimes w filePaths m d !! p = Some v ->
        0 < v /\ In p filePaths /\ v = storedMax0 w m p d).
Proof.
  assert (Habsent : ~ In p filePaths -> getFileModificationTimes w filePaths m d !! p = None).
  { intros Hp. unfold getFileModificationTimes.
    destruct filePaths as [|q qs]; [apply lookup_empty|].
    rewrite mtimeStep_fold_absent; [apply lookup_empty|].
    intros r Hr Heq. apply filter_In in Hr. destruct Hr as [_ Hc].
    apply andb_true_iff in Hc. destruct Hc as [_ Hin].
    apply bool_decide_eq_true, list_elem_of_In in Hin. rewrite Heq in Hin. exact (Hp Hin). }
  assert (Hpresent : In p filePaths ->
            default 0 (getFileModificationTimes w filePaths m d !! p) = storedMax0 w m p d).
  { intros Hp. unfold getFileModificationTimes.
    destruct filePaths as [|q qs]; [destruct Hp|].
    rewrite mtimeStep_fold_lookup, lookup_empty. cbn [default].
    unfold storedMax0, storedRows. f_equal. f_equal.
    rewrite filter_filter_and. apply filter_pointwise. intros r _.
    destruct (inPartition w m r); simpl; [|reflexivity].
    destruct (bool_decide (path (row r) = p)) eqn:Hrp; [|apply andb_false_r].
    apply bool_decide_eq_true in Hrp. rewrite Hrp.
    rewrite bool_decide_eq_true_2 by (apply list_elem_of_In; exact Hp). reflexivity. }
  split; [exact Habsent|]. split; [exact Hpresent|].
  intros v Hv.
  assert (Hin : In p filePaths).
  { destruct (decide (p ∈ filePaths)) as [Hin|Hn]; [apply list_elem_of_In; exact Hin|].
    rewrite list_elem_of_In in Hn. rewrite (Habsent Hn) in Hv. discriminate. }
  split; [|split; [exact Hin|]].
  - unfold getFileModificationTimes in Hv. destruct filePaths as [|q qs]; [destruct Hin|].
    eapply mtimeStep_fold_positive; [|exact Hv].
    intros p' v'. rewrite lookup_empty. discriminate.
  - rewrite <- (Hpresent Hin), Hv. reflexivity.
Qed.

End PruneFacts.

(** ** Project statistics *)

Section StatisticsFacts.
Context `{Env}.

Lemma filter_split_length {A : Type} (f : A -> bool) (l : list A) :
  (length (List.filter f l) + length (List.filter (fun x => negb (f x)) l) = length l)%nat.
Proof.
  induction l as [|x l IH]; simpl; [reflexivity|].
  destruct (f x); simpl; lia.
Qed.

Lemma filter_map_length {A B : Type} (f : A -> B) (g : B -> bool) (l : list A) :
  length (List.filter g (map f l)) = length (List.filter (fun x => g (f x)) l).
Proof.
  induction l as [|x l IH]; simpl; [reflexivity|].
  destruct (g (f x)); simpl; rewrite IH; reflexivity.
Qed.

(** Two lists without repetition have as many elements in common, seen
    from either side. *)
Lemma common_length (xs ys : list string) :
  NoDup xs -> NoDup ys ->
  length (List.filter (fun x => bool_decide (x ∈ ys)) xs)
  = length (List.filter (fun y => bool_decide (y ∈ xs)) ys).
Proof.
  intros Hx Hy. apply Permutation_length. apply NoDup_Permutation.
  - apply filter_NoDup, Hx.
  - apply filter_NoDup, Hy.
  - intros z. rewrite !list_elem_of_In, !filter_In, !bool_decide_eq_true, !list_elem_of_In.
    tauto.
Qed.

(** X12. When the scan lists every path once, the statistics of the
    project count as not indexed exactly the non-empty files of the scan
    that have no row in the store for this workspace and model; the count
    lies between zero and the number of non-empty files, which is the
    total. *)
Theorem getProjectStatistics_not_indexed (m : EmbeddingModelClient) (d : Database) :
  NoDup (map fi_path scanFiles) ->
  notIndexedFiles (getProjectStatistics m d)
  = Z.of_nat (length (List.filter
                        (fun file => (0 <? st_size (fi_stat file))
                                     && negb (bool_decide
                                                (fi_path file
                                                 ∈ getIndexedFilePaths thisWorkspaceId m d)))
                        scanFiles))
  /\ 0 <= notIndexedFiles (getProjectStatistics m d)
     <= Z.of_nat (totalFilesInProject (getProjectStatistics m d))
  /\ totalFilesInProject (getProjectStatistics m d)
     = length (List.filter (fun file => 0 <? st_size (fi_stat file)) scanFiles)
  /\ indexedFiles (getProjectStatistics m d)
     = length (getIndexedFilePaths thisWorkspaceId m d).
Proof.
  intros Hnd.
  set (indexable := List.filter (fun file => 0 <? st_size (fi_stat file)) scanFiles).
  set (A := map fi_path indexable).
  set (B := getIndexedFilePaths thisWorkspaceId m d).
  assert (HA : NoDup A) by (apply NoDup_map_filter; exact Hnd).
  assert (HB : NoDup B) by apply unique_NoDup.
  assert (Hnot : notIndexedFiles (getProjectStatistics m d)
                 = Z.of_nat (length (List.filter (fun x => negb (bool_decide (x ∈ B))) A))).
  { unfold getProjectStatistics. cbn [notIndexedFiles].
    change (getIndexedFiles thisWorkspaceId m d) with B.
    change (getTotalIndexedFiles thisWorkspaceId m d) with (length B).
    fold indexable. fold A.
    pose proof (filter_split_length (fun y => bool_decide (y ∈ A)) B) as HsB.
    pose proof (filter_split_length (fun x => bool_decide (x ∈ B)) A) as HsA.
    pose proof (common_length A B HA HB) as Hc.
    assert (HlenA : length A = length indexable) by apply length_map.
    cbv beta in HsA, HsB. lia. }
  assert (Hfiles : length (List.filter (fun x => negb (bool_decide (x ∈ B))) A)
                   = length (List.filter
                               (fun file => (0 <? st_size (fi_stat file))
                                            && negb (bool_decide (fi_path file ∈ B)))
                               scanFiles)).
  { unfold A. rewrite filter_map_length. unfold indexable.
    rewrite filter_filter_and. reflexivity. }
  split; [rewrite Hnot, Hfiles; reflexivity|].
  split; [|split; reflexivity].
  rewrite Hnot. unfold getProjectStatistics. cbn [totalFilesInProject]. fold indexable.
  pose proof (filter_split_length (fun x => bool_decide (x ∈ B)) A) as HsA.
  assert (HlenA : length A = length indexable) by apply length_map.
  cbv beta in HsA. lia.
Qed.

End StatisticsFacts.

(** ** What a search returns *)

Section SearchBounds.
Context `{DbEngine}.
Local Open Scope float_scope.

Lemma pgvector_hits_threshold (q : list float) conds (minSim : float) (lim : nat)
    (d : Database) (h : SearchHit) :
  In h (performSimilaritySearchWithPgvector q conds minSim lim d) ->
  (similarity h <? minSim) = false.
Proof.
  unfold performSimilaritySearchWithPgvector. intros Hh.
  apply take_In in Hh. apply list_elem_of_In, list_elem_of_omap in Hh.
  destruct Hh as (r & _ & Hf).
  destruct (_ <? minSim) eqn:Hlt; [discriminate|].
  injection Hf as <-. exact Hlt.
Qed.

Lemma javascript_hits_threshold (q : list float) conds (minSim : float) (lim : nat)
    (d : Database) (hits : list SearchHit) (h : SearchHit) :
  performSimilaritySearchWithJavaScript q conds minSim lim d = Returned hits ->
  In h hits -> (similarity h <? minSim) = false.
Proof.
  unfold performSimilaritySearchWithJavaScript.
  destruct (mapOutcome _ _) as [hits0|e] eqn:Hmap; [|discriminate].
  intros [= <-] Hh.
  apply take_In, sortBy_In in Hh. apply list_elem_of_In, list_elem_of_omap in Hh.
  destruct Hh as (o & Ho & Hid). simpl in Hid. subst o.
  apply list_elem_of_In in Ho.
  destruct (mapOutcome_In _ _ _ _ Hmap Ho) as (r & _ & Hf).
  destruct (calculateCosineSimilarity q _) as [sim|e]; [|discriminate].
  destruct (sim <? minSim) eqn:Hlt; [discriminate|].
  injection Hf as <-. exact Hlt.
Qed.

Lemma search_length (w : string) (q : list float) (m : EmbeddingModelClient)
    (options : SearchOptions) (d : Database) (hits : list SearchHit) :
  performSimilaritySearch w q m options d = Returned hits ->
  (length hits <= limit options)%nat.
Proof.
  unfold performSimilaritySearch.
  destruct (detectEmbeddingColumnType d) as [[|]|e]; [| |discriminate].
  - intros [= <-]. unfold performSimilaritySearchWithPgvector. rewrite length_take. lia.
  - unfold performSimilaritySearchWithJavaScript.
    destruct (mapOutcome _ _); [|discriminate].
    intros [= <-]. rewrite length_take. lia.
Qed.

(** X13. A similarity search that returns gives at most [limit] hits;
    every hit is a row of the table with the model's identifier and
    dimension, within the file scope when one is given, and with a
    similarity that is not below the threshold. *)
Theorem performSimilaritySearch_bounds (w : string) (q : list float)
    (m : EmbeddingModelClient) (options : SearchOptions) (d : Database)
    (hits : list SearchHit) :
  performSimilaritySearch w q m options d = Returned hits ->
  (length hits <= limit options)%nat
  /\ forall h, In h hits ->
       In (hit_row h) (rows d)
       /\ (similarity h <? minSimilarity options) = false
       /\ dimension (row (hit_row h)) = em_dimension m
       /\ model (row (hit_row h)) = em_id m
       /\ (forall f fs, scope_files options = Some (f :: fs) ->
             In (path (row (hit_row h))) (f :: fs)).
Proof.
  intros Hs. split; [eapply search_length; exact Hs|].
  intros h Hh.
  destruct (search_hits_satisfy _ _ _ _ _ _ _ Hs Hh) as [Hrow Hconds].
  split; [exact Hrow|]. split.
  { unfold performSimilaritySearch in Hs.
    destruct (detectEmbeddingColumnType d) as [[|]|e]; [| |discriminate].
    - injection Hs as <-. eapply pgvector_hits_threshold, Hh.
    - eapply javascript_hits_threshold; eassumption. }
  unfold and_, whereConditions in Hconds. rewrite forallb_app in Hconds.
  apply andb_true_iff in Hconds. destruct Hconds as [Hbase Hscope].
  simpl in Hbase.
  apply andb_true_iff in Hbase. destruct Hbase as [_ Hbase].
  apply andb_true_iff in Hbase. destruct Hbase as [Hdim Hbase].
  apply andb_true_iff in Hbase. destruct Hbase as [Hmodel _].
  split; [apply Nat.eqb_eq; exact Hdim|].
  split; [apply bool_decide_eq_true in Hmodel; exact Hmodel|].
  intros f fs Hfiles. rewrite Hfiles in Hscope. simpl in Hscope.
  apply andb_true_iff in Hscope. destruct Hscope as [Hin _].
  apply bool_decide_eq_true, list_elem_of_In in Hin. exact Hin.
Qed.

Lemma mapOutcome_throws {E A B : Type} (f : A -> Outcome E B) (xs : list A) (e0 : E) :
  (exists x, In x xs /\ f x = Thrown e0) ->
  (forall x e, In x xs -> f x = Thrown e -> e = e0) ->
  mapOutcome f xs = Thrown e0.
Proof.
  induction xs as [|x xs IH]; intros (x0 & Hx0 & Hf0) Hall; [destruct Hx0|].
  simpl. destruct (f x) as [y|e] eqn:Hfx.
  - rewrite IH; [reflexivity | | intros x' e' Hx'; apply Hall; right; exact Hx'].
    destruct Hx0 as [<-|Hx0]; [congruence|]. exists x0. split; assumption.
  - f_equal. eapply Hall; [left; reflexivity | exact Hfx].
Qed.


End SearchBounds.

(** ** Re-initialising a workspace *)

Section ReinitFacts.
Context `{Env} `{DbEngine}.

Lemma search_depends_on_matching_rows (w : string) (q : list float)
    (m : EmbeddingModelClient) (options : SearchOptions) (d d' : Database) :
  embeddingColumn d' = embeddingColumn d ->
  List.filter (and_ (whereConditions w m (scope_files options))) (rows d')
  = List.filter (and_ (whereConditions w m (scope_files options))) (rows d) ->
  performSimilaritySearch w q m options d' = performSimilaritySearch w q m options d.
Proof.
  intros Hcol Hrows.
  unfold performSimilaritySearch, detectEmbeddingColumnType. rewrite Hcol.
  destruct (embeddingColumn d) as [[data_type udt_name]|]; [|reflexivity].
  destruct (_ || _).
  - unfold performSimilaritySearchWithPgvector. rewrite Hrows. reflexivity.
  - destruct (bool_decide (data_type = "jsonb")); [|reflexivity].
    unfold performSimilaritySearchWithJavaScript. rewrite Hrows. reflexivity.
Qed.

(** X15. [reinitializeSchema] removes every row of this workspace and
    the given model and no other row. After it a similarity search of
    this workspace with that model finds nothing, and a search of any
    other workspace gives what it gave before. *)
Theorem reinitializeSchema_clears_one_workspace (m : EmbeddingModelClient) (w : World) :
  (reinitializeSchema m w).1 = Returned tt
  /\ getTotalIndexedChunks thisWorkspaceId m (db (reinitializeSchema m w).2) = 0%nat
  /\ otherRows thisWorkspaceId m (db (reinitializeSchema m w).2)
     = otherRows thisWorkspaceId m (db w)
  /\ (forall q options hits,
        performSimilaritySearch thisWorkspaceId q m options (db (reinitializeSchema m w).2)
        = Returned hits -> hits = [])
  /\ (forall other q m' options,
        other <> thisWorkspaceId ->
        performSimilaritySearch other q m' options (db (reinitializeSchema m w).2)
        = performSimilaritySearch other q m' options (db w)).
Proof.
  unfold reinitializeSchema, updateDb. cbn [fst snd db withDb].
  split; [reflexivity|]. split; [|split; [|split]].
  - unfold getTotalIndexedChunks, clearAllVectors. cbn [rows setRows].
    rewrite filter_filter_and, filter_nothing; [reflexivity|].
    intros r _. destruct (inPartition thisWorkspaceId m r); reflexivity.
  - unfold otherRows, clearAllVectors. cbn [rows setRows].
    rewrite filter_filter_and. apply filter_pointwise. intros r _.
    destruct (inPartition thisWorkspaceId m r); reflexivity.
  - intros q options hits Hs. destruct hits as [|h hits]; [reflexivity|]. exfalso.
    destruct (search_hits_satisfy _ _ _ _ _ _ h Hs (or_introl eq_refl)) as [Hrow Hconds].
    unfold clearAllVectors in Hrow. cbn [rows setRows] in Hrow.
    apply filter_In in Hrow. destruct Hrow as [_ Hout].
    unfold and_, whereConditions in Hconds. rewrite forallb_app in Hconds.
    apply andb_true_iff in Hconds. destruct Hconds as [Hbase _]. simpl in Hbase.
    apply andb_true_iff in Hbase. destruct Hbase as [Hw Hbase].
    apply andb_true_iff in Hbase. destruct Hbase as [_ Hbase].
    apply andb_true_iff in Hbase. destruct Hbase as [Hm _].
    unfold inPartition in Hout. rewrite Hw, Hm in Hout. discriminate.
  - intros other q m' options Hother. apply search_depends_on_matching_rows; [reflexivity|].
    unfold clearAllVectors. cbn [rows setRows]. rewrite filter_filter_and.
    apply filter_pointwise. intros r _.
    destruct (and_ (whereConditions other m' (scope_files options)) r) eqn:Hc;
      [|apply andb_false_r].
    apply whereConditions_workspace in Hc. unfold inPartition.
    rewrite (bool_decide_eq_false_2 (workspaceId (row r) = thisWorkspaceId)) by congruence.
    reflexivity.
Qed.

End ReinitFacts.

(** ** The registry of index managers *)

Section RegistryFacts.
Variable isProcessAlive : Z -> bool.

Lemma find_filter_implied {A : Type} (f g : A -> bool) (l : list A) :
  (forall x, f x = true -> g x = true) -> List.find f (List.filter g l) = List.find f l.
Proof.
  intros Hfg. induction l as [|x l IH]; simpl; [reflexivity|].
  destruct (g x) eqn:Hg; simpl.
  - destruct (f x); [reflexivity | exact IH].
  - destruct (f x) eqn:Hf; [rewrite (Hfg _ Hf) in Hg; discriminate | exact IH].
Qed.

Lemma find_app_miss {A : Type} (f : A -> bool) (l : list A) (x : A) :
  f x = false -> List.find f (l ++ [x]) = List.find f l.
Proof.
  intros Hx. induction l as [|y l IH]; simpl; [rewrite Hx; reflexivity|].
  destruct (f y); [reflexivity | exact IH].
Qed.

Lemma find_app_hit {A : Type} (f : A -> bool) (l : list A) (x : A) :
  (forall y, In y l -> f y = false) -> f x = true -> List.find f (l ++ [x]) = Some x.
Proof.
  intros Hl Hx. induction l as [|y l IH]; simpl; [rewrite Hx; reflexivity|].
  rewrite (Hl y) by (left; reflexivity). apply IH. intros z Hz. apply Hl. right. exact Hz.
Qed.

Lemma cleanup_app (l1 l2 : list Registry.IndexManagerInfo) :
  Registry.cleanup isProcessAlive (l1 ++ l2)
  = Registry.cleanup isProcessAlive l1 ++ Registry.cleanup isProcessAlive l2.
Proof. apply List.filter_app. Qed.

Lemma cleanup_filter_cleanup (g : Registry.IndexManagerInfo -> bool)
    (l : list Registry.IndexManagerInfo) :
  Registry.cleanup isProcessAlive (List.filter g (Registry.cleanup isProcessAlive l))
  = List.filter g (Registry.cleanup isProcessAlive l).
Proof.
  unfold Registry.cleanup. apply filter_all. intros m Hm.
  apply filter_In in Hm. destruct Hm as [Hm _]. apply filter_In in Hm. tauto.
Qed.

(** X16. A live index manager that registers is found under its
    workspace afterwards, with the time of the registration as its last
    activity; the registry then holds exactly one entry for that
    workspace; and what is found for any other workspace is what was
    found before. *)
Theorem register_then_getByWorkspace (now : string) (info : Registry.IndexManagerInfo)
    (file : Registry.RegistryFile) :
  isProcessAlive (Registry.im_pid info) = true ->
  let registered := Registry.register isProcessAlive now info file in
  (Registry.getByWorkspace isProcessAlive (Registry.im_workspaceId info) registered).1
  = Some (Registry.mkInfo (Registry.im_workspaceId info) (Registry.im_workspacePath info)
            (Registry.im_pid info) (Registry.im_port info) (Registry.im_startTime info)
            (Some now))
  /\ length (List.filter
               (fun m => bool_decide (Registry.im_workspaceId m = Registry.im_workspaceId info))
               (Registry.read registered)) = 1%nat
  /\ forall other,
       other <> Registry.im_workspaceId info ->
       (Registry.getByWorkspace isProcessAlive other registered).1
       = (Registry.getByWorkspace isProcessAlive other file).1.
Proof.
  intros Halive registered.
  set (stamped := Registry.mkInfo _ _ _ _ _ (Some now)).
  set (kept := List.filter
                 (fun m => negb (bool_decide (Registry.im_workspaceId m
                                              = Registry.im_workspaceId info)))
                 (Registry.cleanup isProcessAlive (Registry.read file))).
  assert (Hreg : Registry.read registered = kept ++ [stamped]) by reflexivity.
  assert (Hclean : Registry.cleanup isProcessAlive (kept ++ [stamped]) = kept ++ [stamped]).
  { rewrite cleanup_app. unfold kept at 1. rewrite cleanup_filter_cleanup. fold kept.
    f_equal. unfold Registry.cleanup. simpl. rewrite Halive. reflexivity. }
  assert (Hkept : forall y, In y kept ->
            bool_decide (Registry.im_workspaceId y = Registry.im_workspaceId info) = false).
  { intros y Hy. apply filter_In in Hy. destruct Hy as [_ Hy].
    apply negb_true_iff in Hy. exact Hy. }
  split; [|split].
  - unfold Registry.getByWorkspace. cbn [fst]. rewrite Hreg, Hclean.
    apply find_app_hit; [exact Hkept|]. apply bool_decide_eq_true. reflexivity.
  - rewrite Hreg, List.filter_app, (filter_nothing _ kept Hkept). simpl.
    rewrite bool_decide_eq_true_2 by reflexivity. reflexivity.
  - intros other Hother. unfold Registry.getByWorkspace. cbn [fst]. rewrite Hreg, Hclean.
    rewrite find_app_miss by (apply bool_decide_eq_false; simpl; congruence).
    unfold kept. apply find_filter_implied. intros m Hm.
    apply bool_decide_eq_true in Hm. apply negb_true_iff, bool_decide_eq_false. congruence.
Qed.

Lemma probe_first_free (file : Registry.RegistryFile) (remaining : nat) (port : Z) :
  match Registry.probe remaining port file with
  | Returned p =>
      port <= p <= port + Z.of_nat remaining
      /\ Registry.isPortInUse p file = false
      /\ forall q, port <= q < p -> Registry.isPortInUse q file = true
  | Thrown e =>
      e = Error "No available ports (checked 100 ports)"
      /\ forall q, port <= q <= port + Z.of_nat remaining ->
           Registry.isPortInUse q file = true
  end.
Proof.
  revert port. induction remaining as [|remaining IH]; intros port; cbn [Registry.probe].
  - destruct (Registry.isPortInUse port file) eqn:Huse.
    + split; [reflexivity|]. intros q Hq. assert (q = port) by lia. subst q. exact Huse.
    + split; [lia|]. split; [exact Huse|]. intros q Hq. lia.
  - destruct (Registry.isPortInUse port file) eqn:Huse.
    + specialize (IH (port + 1)).
      destruct (Registry.probe remaining (port + 1) file) as [p|e].
      * destruct IH as (Hp & Hfree & Hbelow). split; [lia|]. split; [exact Hfree|].
        intros q Hq. destruct (Z.eq_dec q port) as [->|Hne]; [exact Huse|].
        apply Hbelow. lia.
      * destruct IH as [He Hall]. split; [exact He|].
        intros q Hq. destruct (Z.eq_dec q port) as [->|Hne]; [exact Huse|].
        apply Hall. lia.
    + split; [lia|]. split; [exact Huse|]. intros q Hq. lia.
Qed.

(** X17. [findAvailablePort] leaves the registry cleaned of dead
    managers. It answers with the port of the live manager of the
    workspace when there is one; otherwise with the lowest port from
    [basePort] to [basePort + 100] that no registered manager uses, and it
    throws exactly when all these 101 ports are in use. *)
Theorem findAvailablePort_lowest_free (workspaceId : string) (basePort : Z)
    (file : Registry.RegistryFile) :
  let answer := Registry.findAvailablePort isProcessAlive workspaceId basePort file in
  let existing := (Registry.getByWorkspace isProcessAlive workspaceId file).1 in
  answer.2 = Some (Registry.cleanup isProcessAlive (Registry.read file))
  /\ match answer.1 with
     | Returned p =>
         (exists info, existing = Some info /\ p = Registry.im_port info)
         \/ (existing = None
             /\ basePort <= p <= basePort + 100
             /\ Registry.isPortInUse p answer.2 = false
             /\ forall q, basePort <= q < p -> Registry.isPortInUse q answer.2 = true)
     | Thrown e =>
         e = Error "No available ports (checked 100 ports)"
         /\ existing = None
         /\ forall q, basePort <= q <= basePort + 100 ->
              Registry.isPortInUse q answer.2 = true
     end.
Proof.
  intros answer existing. unfold answer, existing, Registry.findAvailablePort.
  unfold Registry.getByWorkspace. cbn [fst].
  destruct (List.find _ _) as [info|] eqn:Hfind; cbn [fst snd].
  - split; [reflexivity|]. left. exists info. split; reflexivity.
  - split; [reflexivity|].
    pose proof (probe_first_free
                  (Some (Registry.cleanup isProcessAlive (Registry.read file)))
                  100 basePort) as Hprobe.
    destruct (Registry.probe 100 basePort _) as [p|e].
    + right. destruct Hprobe as (Hp & Hfree & Hbelow).
      split; [reflexivity|]. split; [lia|]. split; assumption.
    + destruct Hprobe as [He Hall]. split; [exact He|]. split; [reflexivity|].
      intros q Hq. apply Hall. lia.
Qed.

Lemma filter_same_length {A : Type} (f : A -> bool) (l : list A) :
  length (List.filter f l) = length l -> List.filter f l = l.
Proof.
  induction l as [|x l IH]; simpl; [reflexivity|].
  destruct (f x); simpl; intros Hlen.
  - f_equal. apply IH. lia.
  - pose proof (List.filter_length_le f l). lia.
Qed.

(** X18. After [unregister] no manager is found for the workspace, and
    what is found for any other workspace is what was found before. *)
Theorem unregister_then_getByWorkspace (workspaceId : string)
    (file : Registry.RegistryFile) :
  (Registry.getByWorkspace isProcessAlive workspaceId
     (Registry.unregister workspaceId file)).1 = None
  /\ forall other,
       other <> workspaceId ->
       (Registry.getByWorkspace isProcessAlive other
          (Registry.unregister workspaceId file)).1
       = (Registry.getByWorkspace isProcessAlive other file).1.
Proof.
  set (others := List.filter
                   (fun m => negb (bool_decide (Registry.im_workspaceId m = workspaceId)))
                   (Registry.read file)).
  assert (Hread : Registry.read (Registry.unregister workspaceId file) = others).
  { unfold Registry.unregister. fold others.
    destruct (length others <? length (Registry.read file))%nat eqn:Hlt; [reflexivity|].
    apply Nat.ltb_ge in Hlt.
    pose proof (List.filter_length_le
                  (fun m => negb (bool_decide (Registry.im_workspaceId m = workspaceId)))
                  (Registry.read file)) as Hle.
    fold others in Hle. symmetry. apply filter_same_length. fold others. lia. }
  unfold Registry.getByWorkspace. cbn [fst]. rewrite Hread. split.
  - destruct (List.find _ _) as [m|] eqn:Hfind; [|reflexivity].
    apply find_some in Hfind. destruct Hfind as [Hin Hm].
    apply filter_In in Hin. destruct Hin as [Hin _].
    apply filter_In in Hin. destruct Hin as [_ Hn].
    rewrite Hm in Hn. discriminate.
  - intros other Hother. unfold Registry.cleanup, others.
    assert (Hcomm :
      List.filter (fun m => isProcessAlive (Registry.im_pid m))
        (List.filter (fun m => negb (bool_decide (Registry.im_workspaceId m = workspaceId)))
           (Registry.read file))
      = List.filter (fun m => negb (bool_decide (Registry.im_workspaceId m = workspaceId)))
          (List.filter (fun m => isProcessAlive (Registry.im_pid m)) (Registry.read file))).
    { rewrite !filter_filter_and. apply filter_pointwise. intros m _. apply andb_comm. }
    rewrite Hcomm. apply find_filter_implied. intros m Hm.
    apply bool_decide_eq_true in Hm. apply negb_true_iff, bool_decide_eq_false. congruence.
Qed.

End RegistryFacts.

(** ** The flag of the progress server *)

Section FlagFacts.
Variable isProcessRunning : Z -> bool.

(** X19. [tryRegister] refuses exactly when the flag names a running
    process, and then leaves the flag alone; otherwise the caller becomes
    the owner. Once the owner is a running process, [getRunningServer]
    answers with it, every further [tryRegister] is refused, and
    [unregister] by another process changes nothing, while [unregister]
    by the owner deletes the flag. *)
Theorem tryRegister_single_owner (self : Z) (now : string) (port : Z)
    (file : ProgressServerFlag.FlagFile) :
  let attempt := ProgressServerFlag.tryRegister isProcessRunning self now port file in
  let owned := Some (Some (ProgressServerFlag.mkServer self port now)) in
  (attempt.1 = false
   <-> exists server, file = Some (Some server)
                      /\ isProcessRunning (ProgressServerFlag.sv_pid server) = true)
  /\ (attempt.1 = false -> attempt.2 = file)
  /\ (attempt.1 = true -> attempt.2 = owned)
  /\ (isProcessRunning self = true ->
      (ProgressServerFlag.getRunningServer isProcessRunning owned).1 = Some (self, port)
      /\ (forall other now' port',
            ProgressServerFlag.tryRegister isProcessRunning other now' port' owned
            = (false, owned))
      /\ (forall other, other <> self ->
            ProgressServerFlag.unregister isProcessRunning other owned = owned)
      /\ ProgressServerFlag.unregister isProcessRunning self owned = None).
Proof.
  intros attempt owned. unfold attempt, owned.
  unfold ProgressServerFlag.tryRegister, ProgressServerFlag.readAndCleanup.
  split; [|split; [|split]].
  - destruct file as [[server|]|]; cbn.
    + destruct (isProcessRunning (ProgressServerFlag.sv_pid server)) eqn:Hrun; cbn.
      * rewrite Hrun. cbn. split; [|reflexivity]. intros _. exists server. split; [reflexivity|].
        exact Hrun.
      * split; [discriminate|]. intros (s & [= <-] & Hs). congruence.
    + split; [discriminate|]. intros (s & [=] & _).
    + split; [discriminate|]. intros (s & [=] & _).
  - destruct file as [[server|]|]; cbn; try discriminate.
    destruct (isProcessRunning (ProgressServerFlag.sv_pid server)) eqn:Hrun; cbn.
    + rewrite Hrun. reflexivity.
    + discriminate.
  - destruct file as [[server|]|]; cbn; try reflexivity.
    destruct (isProcessRunning (ProgressServerFlag.sv_pid server)) eqn:Hrun; cbn.
    + rewrite Hrun. discriminate.
    + reflexivity.
  - intros Hself.
    unfold ProgressServerFlag.getRunningServer, ProgressServerFlag.unregister,
      ProgressServerFlag.readAndCleanup. cbn. rewrite Hself. cbn.
    split; [reflexivity|]. split; [intros; rewrite Hself; reflexivity|].
    split; [|rewrite Z.eqb_refl; reflexivity].
    intros other Hother. destruct (self =? other) eqn:Heq; [|reflexivity].
    apply Z.eqb_eq in Heq. congruence.
Qed.

End FlagFacts.

(** ** Search sessions *)

Section SessionFacts.

Lemma mapGet_mapSet (id : string) (v : SessionManager.SessionSearchResult)
    (s : SessionManager.Sessions) :
  SessionManager.mapGet id (SessionManager.mapSet id v s) = Some v.
Proof.
  unfold SessionManager.mapGet, SessionManager.mapSet.
  destruct (existsb _ s) eqn:Hex.
  - induction s as [|e s IH]; [discriminate|]. simpl in *.
    destruct (bool_decide (e.1 = id)) eqn:He; simpl.
    + rewrite bool_decide_eq_true_2 by reflexivity. reflexivity.
    + rewrite He. apply IH. exact Hex.
  - rewrite find_app_hit; [reflexivity | | apply bool_decide_eq_true; reflexivity].
    intros y Hy. destruct (bool_decide (y.1 = id)) eqn:Hyid; [|reflexivity].
    assert (Htrue : existsb (fun e => bool_decide (e.1 = id)) s = true)
      by (apply existsb_exists; exists y; split; assumption).
    congruence.
Qed.

Lemma mapGet_mapSet_other (id id' : string) (v : SessionManager.SessionSearchResult)
    (s : SessionManager.Sessions) :
  id' <> id ->
  SessionManager.mapGet id' (SessionManager.mapSet id v s) = SessionManager.mapGet id' s.
Proof.
  intros Hne. unfold SessionManager.mapGet, SessionManager.mapSet. f_equal.
  destruct (existsb _ s).
  - induction s as [|e s IH]; [reflexivity|]. simpl.
    destruct (bool_decide (e.1 = id)) eqn:He; simpl.
    + apply bool_decide_eq_true in He.
      rewrite !bool_decide_eq_false_2 by congruence. exact IH.
    + destruct (bool_decide (e.1 = id')); [reflexivity | exact IH].
  - apply find_app_miss. apply bool_decide_eq_false. simpl. congruence.
Qed.

Lemma mapGet_mapDelete_other (id id' : string) (s : SessionManager.Sessions) :
  id' <> id ->
  SessionManager.mapGet id' (SessionManager.mapDelete id s) = SessionManager.mapGet id' s.
Proof.
  intros Hne. unfold SessionManager.mapGet, SessionManager.mapDelete. f_equal.
  apply find_filter_implied. intros e He. apply bool_decide_eq_true in He.
  apply negb_true_iff, bool_decide_eq_false. congruence.
Qed.

Lemma mapSet_length (id : string) (v : SessionManager.SessionSearchResult)
    (s : SessionManager.Sessions) :
  (length (SessionManager.mapSet id v s) <= S (length s))%nat.
Proof.
  unfold SessionManager.mapSet. destruct (existsb _ s).
  - rewrite length_map. lia.
  - rewrite length_app. simpl. lia.
Qed.

Lemma filter_drops_one {A : Type} (f : A -> bool) (l : list A) (x : A) :
  In x l -> f x = false -> (length (List.filter f l) < length l)%nat.
Proof.
  induction l as [|y l IH]; intros Hin Hx; [destruct Hin|]. simpl.
  pose proof (List.filter_length_le f l) as Hle.
  destruct Hin as [->|Hin].
  - rewrite Hx. lia.
  - specialize (IH Hin Hx). destruct (f y); simpl; lia.
Qed.

(** What the loop of [findOldestResult] ends with: a time that is not
    above the starting time nor above any stored time, and either the
    starting pair or a session with that time. *)
Lemma oldest_fold (s : SessionManager.Sessions) (acc : option string * Z) :
  let r := fold_left SessionManager.oldestStep s acc in
  r.2 <= acc.2
  /\ (forall e, In e s -> r.2 <= SessionManager.ss_timestamp e.2)
  /\ (r = acc
      \/ exists e, In e s /\ r = (Some e.1, SessionManager.ss_timestamp e.2)).
Proof.
  revert acc. induction s as [|e s IH]; intros acc; simpl.
  - split; [lia|]. split; [intros e []|]. left. reflexivity.
  - specialize (IH (SessionManager.oldestStep acc e)). simpl in IH.
    destruct IH as (Hle & Hall & Hwho).
    assert (Hstep : (SessionManager.oldestStep acc e).2 <= acc.2
                    /\ (SessionManager.oldestStep acc e).2 <= SessionManager.ss_timestamp e.2).
    { unfold SessionManager.oldestStep.
      destruct (SessionManager.ss_timestamp e.2 <? acc.2) eqn:Hlt; simpl.
      - apply Z.ltb_lt in Hlt. lia.
      - apply Z.ltb_ge in Hlt. lia. }
    split; [lia|]. split.
    + intros e' [<-|He']; [lia | apply Hall; exact He'].
    + destruct Hwho as [Hsame|(e' & He' & Hr)].
      * rewrite Hsame. unfold SessionManager.oldestStep.
        destruct (SessionManager.ss_timestamp e.2 <? acc.2).
        -- right. exists e. split; [left; reflexivity | reflexivity].
        -- left. reflexivity.
      * right. exists e'. split; [right; exact He' | exact Hr].
Qed.

(** X20. The session [addSearchResult] stores is the one found under the
    identifier it returns, which is [search_] followed by the first eight
    characters of the random identifier; while the set is below its
    capacity, every other session is found as before. *)
Theorem addSearchResult_then_get (maxResults now : Z) (uuid : string) (timestamp : Z)
    (query : string) (results : list SearchResult) (s : SessionManager.Sessions) :
  let added := SessionManager.addSearchResult maxResults now uuid timestamp query results s in
  added.1 = "search_" +:+ String.substring 0 8 uuid
  /\ SessionManager.mapGet added.1 added.2
     = Some (SessionManager.mkSession added.1 query timestamp results)
  /\ (Z.of_nat (length s) < maxResults ->
      forall id, id <> added.1 ->
        SessionManager.mapGet id added.2 = SessionManager.mapGet id s).
Proof.
  intros added. unfold added, SessionManager.addSearchResult. cbn [fst snd].
  split; [reflexivity|]. split; [apply mapGet_mapSet|].
  intros Hroom id Hid.
  destruct (maxResults <=? Z.of_nat (length s)) eqn:Hfull; [apply Z.leb_le in Hfull; lia|].
  apply mapGet_mapSet_other. exact Hid.
Qed.


End SessionFacts.

(** ** A program logic with an invariant

    [Tracks Inv R P Q m]: from a world that satisfies the invariant [Inv] and
    the precondition [P], [m] ends in a world that satisfies [Inv] and is
    related to the first by [R], and a value it returns satisfies [Q]
    there. *)

Definition Tracks {A : Type} (Inv : World -> Prop) (R : World -> World -> Prop)
    (P : World -> Prop) (Q : A -> World -> Prop) (m : M A) : Prop :=
  forall w, Inv w -> P w ->
    Inv (m w).2 /\ R w (m w).2 /\ forall a, (m w).1 = Returned a -> Q a (m w).2.

Section TracksRules.
Context (Inv : World -> Prop) (R : World -> World -> Prop) `{!PreOrder R}.

Lemma Tracks_weaken {A} (P P' : World -> Prop) (Q Q' : A -> World -> Prop) (m : M A) :
  (forall w, Inv w -> P' w -> P w) -> (forall a w, Inv w -> Q a w -> Q' a w) ->
  Tracks Inv R P Q m -> Tracks Inv R P' Q' m.
Proof.
  intros HP HQ Hm w Hi Hp. destruct (Hm w Hi (HP w Hi Hp)) as (Hi' & HR & Ha).
  split; [exact Hi'|]. split; [exact HR|]. intros a Heq. apply HQ; [exact Hi'|].
  apply Ha, Heq.
Qed.

Lemma Tracks_ret {A} (P : World -> Prop) (Q : A -> World -> Prop) (a : A) :
  (forall w, Inv w -> P w -> Q a w) -> Tracks Inv R P Q (ret a).
Proof.
  intros Ha w Hi Hp. split; [exact Hi|]. split; [reflexivity|].
  simpl. intros a' [= <-]. apply Ha; assumption.
Qed.

Lemma Tracks_throw {A} (P : World -> Prop) (Q : A -> World -> Prop) (e : JsError) :
  Tracks Inv R P Q (throw e).
Proof.
  intros w Hi _. split; [exact Hi|]. split; [reflexivity|]. simpl. discriminate.
Qed.

(** A primitive that changes the world by [g] and returns [a]. *)
Lemma Tracks_prim {A} (P : World -> Prop) (Q : A -> World -> Prop)
    (a : World -> A) (g : World -> World) :
  (forall w, Inv w -> P w -> Inv (g w) /\ R w (g w) /\ Q (a w) (g w)) ->
  Tracks Inv R P Q (fun w => (Returned (a w), g w)).
Proof.
  intros Hg w Hi Hp. destruct (Hg w Hi Hp) as (Hi' & HR & Hq).
  split; [exact Hi'|]. split; [exact HR|]. simpl. intros a' [= <-]. exact Hq.
Qed.

(** The continuation starts where the first part ended, with what is
    known of the value there. *)
Lemma Tracks_bind {A B} (P : World -> Prop) (Q1 : A -> World -> Prop)
    (Q : B -> World -> Prop) (m : M A) (f : A -> M B) :
  Tracks Inv R P Q1 m -> (forall a, Tracks Inv R (Q1 a) Q (f a)) ->
  Tracks Inv R P Q (bind m f).
Proof.
  intros Hm Hf w Hi Hp. unfold bind.
  destruct (Hm w Hi Hp) as (Hi1 & HR & Ha). destruct (m w) as [[a|e] w1]; simpl in *.
  - destruct (Hf a w1 Hi1 (Ha a eq_refl)) as (Hi2 & HR' & Hb).
    split; [exact Hi2|]. split; [etransitivity; eassumption | exact Hb].
  - split; [exact Hi1|]. split; [exact HR | discriminate].
Qed.

(** The same when what is known of the value does not depend on the
    world. *)
Lemma Tracks_bind_pure {A B} (P : World -> Prop) (V : A -> Prop)
    (Q : B -> World -> Prop) (m : M A) (f : A -> M B) :
  Tracks Inv R P (fun a _ => V a) m ->
  (forall a, V a -> Tracks Inv R (fun _ => True) Q (f a)) ->
  Tracks Inv R P Q (bind m f).
Proof.
  intros Hm Hf. apply (Tracks_bind P (fun a _ => V a)); [exact Hm|].
  intros a w Hi Hv. apply (Hf a Hv w Hi I).
Qed.

Lemma Tracks_tryCatch {A} (P : World -> Prop) (Q : A -> World -> Prop)
    (m : M A) (h : JsError -> M A) :
  Tracks Inv R P Q m -> (forall e, Tracks Inv R (fun _ => True) Q (h e)) ->
  Tracks Inv R P Q (tryCatch m h).
Proof.
  intros Hm Hh w Hi Hp. unfold tryCatch.
  destruct (Hm w Hi Hp) as (Hi1 & HR & Ha). destruct (m w) as [[a|e] w1]; simpl in *.
  - split; [exact Hi1|]. split; [exact HR | exact Ha].
  - destruct (Hh e w1 Hi1 I) as (Hi2 & HR' & Hb).
    split; [exact Hi2|]. split; [etransitivity; eassumption | exact Hb].
Qed.

Lemma Tracks_mapM {A B} (V : A -> B -> Prop) (f : A -> M B) (xs : list A) :
  (forall x, In x xs -> Tracks Inv R (fun _ => True) (fun y _ => V x y) (f x)) ->
  Tracks Inv R (fun _ => True) (fun ys _ => Forall2 V xs ys) (mapM f xs).
Proof.
  induction xs as [|x xs IH]; intros Hf; simpl.
  - apply Tracks_ret. intros. constructor.
  - apply (Tracks_bind_pure _ (V x)); [apply Hf; left; reflexivity|].
    intros y Hy. apply (Tracks_bind_pure _ (Forall2 V xs)).
    + apply IH. intros x' Hx'. apply Hf. right. exact Hx'.
    + intros ys Hys. apply Tracks_ret. intros. constructor; assumption.
Qed.

Lemma Tracks_backOff {A} (Q : A -> World -> Prop) (n : nat) (request : M A)
    (retry : JsError -> M bool) :
  Tracks Inv R (fun _ => True) Q request ->
  (forall e, Tracks Inv R (fun _ => True) (fun _ _ => True) (retry e)) ->
  Tracks Inv R (fun _ => True) Q (backOff n request retry).
Proof.
  intros Hreq Hretry. induction n as [|n IH]; simpl.
  - apply Tracks_throw.
  - apply Tracks_tryCatch; [exact Hreq|].
    intros e. apply (Tracks_bind_pure _ (fun _ => True)); [apply Hretry|].
    intros b _. destruct (negb b || Nat.eqb n 0); [apply Tracks_throw | exact IH].
Qed.

(** What every run of [m] says of the value it returns can be added. *)
Lemma Tracks_value {A} (P : World -> Prop) (Q : A -> World -> Prop) (V : A -> Prop)
    (m : M A) :
  (forall w a, (m w).1 = Returned a -> V a) ->
  Tracks Inv R P Q m -> Tracks Inv R P (fun a w => Q a w /\ V a) m.
Proof.
  intros Hv Hm w Hi Hp. destruct (Hm w Hi Hp) as (Hi1 & HR & Ha).
  split; [exact Hi1|]. split; [exact HR|]. intros a Heq.
  split; [apply Ha, Heq | eapply Hv, Heq].
Qed.

End TracksRules.

Ltac tracks_seq :=
  repeat match goal with
    | |- Tracks ?Inv ?R _ _ (ret _) => apply (Tracks_ret Inv R); try (intros; exact I)
    | |- Tracks ?Inv ?R _ _ (throw _) => apply (Tracks_throw Inv R)
    | |- Tracks ?Inv ?R _ _ (bind _ _) =>
        apply (Tracks_bind_pure Inv R _ (fun _ => True)); [ | intros ? _ ]
    | |- Tracks ?Inv ?R _ _ (tryCatch _ _) => apply (Tracks_tryCatch Inv R); [ | intros ? ]
    | |- Tracks _ _ _ _ (if ?b then _ else _) => destruct b
    | |- Tracks _ _ _ _ (match ?x with _ => _ end) => destruct x
    end.

(** ** The rows an update writes *)

Section OwnFacts.
Context `{Env}.
Variable m0 : EmbeddingModelClient.

Instance OwnWrites_preorder : PreOrder (OwnWrites m0).
Proof.
  split.
  - intros w. split; [reflexivity|]. split; [reflexivity|]. intros r Hr. left. exact Hr.
  - intros w1 w2 w3 (Ho12 & Hc12 & Hr12) (Ho23 & Hc23 & Hr23).
    split; [congruence|]. split; [congruence|].
    intros r Hr. destruct (Hr23 r Hr) as [Hr2|Hown]; [apply Hr12; exact Hr2 | right; exact Hown].
Qed.

Lemma otherRows_same_id (w : string) (m m' : EmbeddingModelClient) (d : Database) :
  em_id m = em_id m' -> otherRows w m d = otherRows w m' d.
Proof.
  intros Hid. unfold otherRows. apply filter_pointwise. intros r _.
  unfold inPartition. rewrite Hid. reflexivity.
Qed.

Lemma otherRows_filter (w : string) (m : EmbeddingModelClient) (d : Database)
    (keep : SelectEmbedding -> bool) :
  (forall r, inPartition w m r = false -> keep r = true) ->
  otherRows w m (setRows d (List.filter keep (rows d))) = otherRows w m d.
Proof.
  intros Hkeep. unfold otherRows. cbn [rows setRows].
  rewrite filter_filter_and. apply filter_pointwise. intros r _.
  destruct (inPartition w m r) eqn:Hp; simpl; [apply andb_false_r|].
  rewrite Hkeep by exact Hp. reflexivity.
Qed.

Lemma otherRows_clearAllVectors (w : string) (m : EmbeddingModelClient) (d : Database) :
  otherRows w m (clearAllVectors w m d) = otherRows w m d.
Proof.
  unfold clearAllVectors. apply otherRows_filter. intros r ->. reflexivity.
Qed.

Lemma otherRows_deleteVectorsForMultipleFiles (w : string) (ps : list string)
    (m : EmbeddingModelClient) (d : Database) :
  otherRows w m (deleteVectorsForMultipleFiles w ps m d) = otherRows w m d.
Proof.
  unfold deleteVectorsForMultipleFiles. destruct ps as [|p ps]; [reflexivity|].
  apply otherRows_filter. intros r ->. reflexivity.
Qed.

Lemma otherRows_deleteVectorsForDeletedFiles (w : string) (ps : list string)
    (m : EmbeddingModelClient) (d : Database) :
  otherRows w m (deleteVectorsForDeletedFiles w ps m d) = otherRows w m d.
Proof.
  unfold deleteVectorsForDeletedFiles.
  destruct ps as [|p ps]; [apply otherRows_clearAllVectors|].
  apply otherRows_filter. intros r ->. reflexivity.
Qed.

Lemma otherRows_insertVectors (w : string) (m : EmbeddingModelClient)
    (vs : list InsertEmbedding) (d : Database) :
  Forall (fun e => workspaceId e = w /\ model e = em_id m) vs ->
  otherRows w m (insertVectors vs d) = otherRows w m d.
Proof.
  intros Hvs. unfold otherRows, insertVectors.
  destruct vs as [|v vs]; [reflexivity|]. cbn [rows].
  rewrite List.filter_app.
  rewrite (filter_nothing _ (assignIds (nextId d) (v :: vs))); [apply app_nil_r|].
  intros r Hr. apply assignIds_row in Hr.
  rewrite Forall_forall in Hvs. apply list_elem_of_In, Hvs in Hr.
  destruct Hr as [Hw Hm]. unfold inPartition.
  rewrite !bool_decide_eq_true_2 by assumption. reflexivity.
Qed.

(** A step that leaves the table and the model of the configuration
    alone. *)
Lemma own_quiet {A : Type} (a : World -> A) (g : World -> World) :
  (forall w, db (g w) = db w) ->
  (forall w, cfg_model (config (g w)) = cfg_model (config w)) ->
  Tracks (SameModelId m0) (OwnWrites m0) (fun _ => True) (fun _ _ => True)
    (fun w => (Returned (a w), g w)).
Proof.
  intros Hdb Hcfg. apply Tracks_prim. intros w Hi _. unfold SameModelId, OwnWrites in *.
  rewrite Hdb, Hcfg. split; [exact Hi|]. split; [|exact I].
  split; [reflexivity|]. split; [reflexivity|]. intros r Hr. left. exact Hr.
Qed.

Lemma own_emit (e : Event) :
  Tracks (SameModelId m0) (OwnWrites m0) (fun _ => True) (fun _ _ => True) (emit e).
Proof. apply (own_quiet (fun _ => tt) (record e)); reflexivity. Qed.

Lemma own_updateLocals (f : Locals -> Locals) :
  Tracks (SameModelId m0) (OwnWrites m0) (fun _ => True) (fun _ _ => True) (updateLocals f).
Proof. apply (own_quiet (fun _ => tt) (withLocals f)); reflexivity. Qed.

Lemma own_getLocals :
  Tracks (SameModelId m0) (OwnWrites m0) (fun _ => True) (fun _ _ => True) getLocals.
Proof. apply (own_quiet locals (fun w => w)); reflexivity. Qed.

Lemma own_readCancelled (cp : Checkpoint) :
  Tracks (SameModelId m0) (OwnWrites m0) (fun _ => True) (fun _ _ => True)
    (readCancelled cp).
Proof. unfold readCancelled. apply own_quiet; reflexivity. Qed.

Lemma own_dateNow :
  Tracks (SameModelId m0) (OwnWrites m0) (fun _ => True) (fun _ _ => True) dateNow.
Proof. unfold dateNow. apply own_quiet; reflexivity. Qed.

Lemma own_embeddingsCreateM (text : string) :
  Tracks (SameModelId m0) (OwnWrites m0) (fun _ => True) (fun _ _ => True)
    (embeddingsCreateM text).
Proof.
  intros w Hi _. unfold embeddingsCreateM. cbn [fst snd].
  split; [exact Hi|]. split; [|auto].
  split; [reflexivity|]. split; [reflexivity|]. intros r Hr. left. exact Hr.
Qed.

(** The model the client names is the one of the invariant. *)
Lemma own_getModel :
  Tracks (SameModelId m0) (OwnWrites m0) (fun _ => True)
    (fun m _ => em_id m = em_id m0) getModel.
Proof.
  apply Tracks_prim. intros w Hi _. split; [exact Hi|]. split; [reflexivity|]. exact Hi.
Qed.

Lemma own_updateDb (f : Database -> Database) :
  Shrinks f ->
  (forall d, otherRows thisWorkspaceId m0 (f d) = otherRows thisWorkspaceId m0 d) ->
  (forall d, embeddingColumn (f d) = embeddingColumn d) ->
  Tracks (SameModelId m0) (OwnWrites m0) (fun _ => True) (fun _ _ => True) (updateDb f).
Proof.
  intros Hshrink Hother Hcol. apply Tracks_prim. intros w Hi _.
  split; [exact Hi|]. split; [|exact I]. split; [apply Hother|]. split; [apply Hcol|].
  intros r Hr. left. apply (Hshrink (db w)). exact Hr.
Qed.

Lemma own_insertVectorsM (vs : list InsertEmbedding) :
  Forall (OwnRow (em_id m0)) vs ->
  Tracks (SameModelId m0) (OwnWrites m0) (fun _ => True) (fun _ _ => True)
    (insertVectorsM vs).
Proof.
  intros Hvs w Hi _. unfold insertVectorsM, bind, updateDb, emit. cbn [fst snd].
  split; [exact Hi|]. split; [|auto]. split; [|split].
  - cbn [db record withDb]. apply otherRows_insertVectors.
    eapply Forall_impl; [exact Hvs|]. intros e (Hw & Hm & _). split; assumption.
  - cbn [db record withDb]. unfold insertVectors. destruct vs; reflexivity.
  - cbn [db record withDb]. intros r Hr. apply insertVectors_rows in Hr.
    destruct Hr as [Hr|Hr]; [left; exact Hr|]. right.
    rewrite Forall_forall in Hvs. apply Hvs, list_elem_of_In, Hr.
Qed.

Lemma own_getEmbedding (text : string) :
  Tracks (SameModelId m0) (OwnWrites m0) (fun _ => True) (fun _ _ => True)
    (getEmbedding text).
Proof.
  unfold getEmbedding.
  apply (Tracks_bind_pure _ _ _ (fun _ => True)); [apply (own_quiet config (fun w => w)); reflexivity|].
  intros c _. destruct (cfg_provider c); [destruct (cfg_apiKey c)| |];
    tracks_seq;
    first [ apply own_embeddingsCreateM
          | apply (own_quiet (fun _ => tt) (withConfig _)); reflexivity ].
Qed.

(** A row the request returns names the model of the invariant. *)
Lemma own_embedRequest chunk total nFiles :
  Tracks (SameModelId m0) (OwnWrites m0) (fun _ => True)
    (fun e _ => model e = em_id m0 /\ FromChunk chunk e)
    (embedRequest chunk total nFiles).
Proof.
  apply Tracks_value; [apply embedRequest_value|].
  unfold embedRequest, finishRequest.
  apply (Tracks_bind_pure _ _ _ (fun _ => True)); [apply own_readCancelled|].
  intros c1 _. destruct c1; [apply (Tracks_throw _ _)|].
  apply (Tracks_bind_pure _ _ _ (fun _ => True)); [apply own_getEmbedding|].
  intros vector _.
  apply (Tracks_bind_pure _ _ _ (fun _ => True)); [apply own_readCancelled|].
  intros c2 _. destruct c2; [apply (Tracks_throw _ _)|].
  apply (Tracks_bind_pure _ _ _ (fun _ => True)); [apply own_updateLocals|]. intros _ _.
  apply (Tracks_bind_pure _ _ _ (fun _ => True)); [apply own_dateNow|]. intros now _.
  apply (Tracks_bind_pure _ _ _ (fun _ => True)); [apply own_getLocals|]. intros l _.
  apply (Tracks_bind_pure _ _ _ (fun _ => True)).
  { destruct (500 <=? now - lastProgressUpdate l)%Z; tracks_seq;
      first [ apply own_updateLocals | apply own_emit ]. }
  intros _ _.
  apply (Tracks_bind_pure _ _ _ (fun m => em_id m = em_id m0)); [apply own_getModel|].
  intros m Hm. apply (Tracks_ret _ _). intros. exact Hm.
Qed.

Lemma own_retryOption chunk total nFiles e :
  Tracks (SameModelId m0) (OwnWrites m0) (fun _ => True) (fun _ _ => True)
    (retryOption chunk total nFiles e).
Proof.
  unfold retryOption. tracks_seq; first [ apply own_getLocals | apply own_emit ].
Qed.

Lemma own_reportCancelled total nFiles :
  Tracks (SameModelId m0) (OwnWrites m0) (fun _ => True) (fun _ _ => True)
    (reportCancelled total nFiles).
Proof.
  unfold reportCancelled. tracks_seq; first [ apply own_getLocals | apply own_emit ].
Qed.

Lemma own_processChunk total nFiles chunk :
  Tracks (SameModelId m0) (OwnWrites m0) (fun _ => True)
    (fun o _ => forall e, o = Some e -> model e = em_id m0 /\ FromChunk chunk e)
    (processChunk total nFiles chunk).
Proof.
  unfold processChunk.
  apply (Tracks_bind_pure _ _ _ (fun _ => True)); [apply own_readCancelled|]. intros c _.
  destruct c; [apply (Tracks_ret _ _); discriminate|].
  apply (Tracks_tryCatch _ _).
  - apply (Tracks_bind_pure _ _ _
             (fun e => model e = em_id m0 /\ FromChunk chunk e)).
    + apply (Tracks_backOff _ _); [apply own_embedRequest|].
      intros e. apply own_retryOption.
    + intros e He. apply (Tracks_ret _ _). intros w _ _ e' [= <-]. exact He.
  - intros error. destruct (bool_decide _); [apply (Tracks_ret _ _); discriminate|].
    apply (Tracks_bind_pure _ _ _ (fun _ => True)); [apply own_updateLocals|].
    intros _ _. apply (Tracks_ret _ _). discriminate.
Qed.

Lemma FromScan_OwnRow (c : ContentChunk) (e : InsertEmbedding) :
  FromScan c -> model e = em_id m0 -> FromChunk c e -> OwnRow (em_id m0) e.
Proof.
  intros (file & Hfile & Hp & Ht) Hm (Hw & Hpath & Hmtime & _).
  split; [exact Hw|]. split; [exact Hm|]. exists file.
  split; [exact Hfile|]. split; congruence.
Qed.

Lemma own_batchLoop total nFiles (batches : list (list ContentChunk)) :
  (forall batch c, In batch batches -> In c batch -> FromScan c) ->
  Tracks (SameModelId m0) (OwnWrites m0) (fun _ => True) (fun _ _ => True)
    (batchLoop total nFiles batches).
Proof.
  induction batches as [|batch rest IH]; intros HP; simpl.
  - apply (Tracks_ret _ _). auto.
  - apply (Tracks_bind_pure _ _ _ (fun _ => True)); [apply own_readCancelled|].
    intros c0 _. destruct c0.
    { tracks_seq. apply own_reportCancelled. }
    eapply (Tracks_bind_pure _ _ _).
    { apply (Tracks_mapM _ _). intros c _. apply own_processChunk. }
    intros embeddingBatch Hbatch. simpl in Hbatch.
    apply (Tracks_bind_pure _ _ _ (fun _ => True)); [apply own_readCancelled|].
    intros c1 _. destruct c1.
    { tracks_seq. apply own_reportCancelled. }
    assert (Hvalid : Forall (OwnRow (em_id m0)) (omap id embeddingBatch)).
    { eapply omap_id_Forall; [exact Hbatch|].
      intros c o e Hc Ho ->. destruct (Ho e eq_refl) as [Hm Hfrom].
      eapply FromScan_OwnRow; [|exact Hm|exact Hfrom].
      eapply HP; [left; reflexivity | exact Hc]. }
    apply (Tracks_bind_pure _ _ _ (fun _ => True)).
    { destruct (omap id embeddingBatch) eqn:Hv; [apply (Tracks_ret _ _); auto|].
      apply own_insertVectorsM. exact Hvalid. }
    intros _ _.
    apply (Tracks_bind_pure _ _ _ (fun _ => True)); [apply own_readCancelled|].
    intros c2 _. destruct c2.
    { tracks_seq. apply own_reportCancelled. }
    apply (Tracks_bind_pure _ _ _ (fun _ => True)); [apply own_getLocals|]. intros l _.
    apply (Tracks_bind_pure _ _ _ (fun _ => True)); [apply own_emit|]. intros _ _.
    apply (Tracks_bind_pure _ _ _ (fun _ => True)); [apply own_emit|]. intros _ _.
    apply IH. intros b c Hb. apply HP. right. exact Hb.
Qed.

Lemma own_processEmbeddings (chunks : list ContentChunk) (nFiles : nat) :
  (forall c, In c chunks -> FromScan c) ->
  Tracks (SameModelId m0) (OwnWrites m0) (fun _ => True) (fun _ _ => True)
    (processEmbeddings chunks nFiles).
Proof.
  intros HP. unfold processEmbeddings.
  apply (Tracks_bind_pure _ _ _ (fun _ => True)); [apply own_dateNow|]. intros start _.
  apply (Tracks_bind_pure _ _ _ (fun _ => True)); [apply own_updateLocals|]. intros _ _.
  apply (Tracks_bind_pure _ _ _ (fun _ => True)).
  { apply own_batchLoop. intros b c Hb Hc. apply HP. eapply slices_In; eassumption. }
  intros cancelled _. destruct cancelled; [apply (Tracks_ret _ _); auto|].
  apply (Tracks_bind_pure _ _ _ (fun _ => True)); [apply own_getLocals|]. intros l _.
  destruct (failedChunks l); tracks_seq; apply own_emit.
Qed.


Lemma processChunks_origin (chunks : list ContentChunk) (c : ContentChunk) :
  In c (processChunks chunks) ->
  exists c0, In c0 chunks /\ ch_path c = ch_path c0 /\ ch_mtime c = ch_mtime c0.
Proof.
  unfold processChunks. rewrite filter_In, in_map_iff.
  intros [(c0 & <- & Hc0) _]. exists c0. simpl. auto.
Qed.

Lemma readStep_origin (files : list FileInfo) acc (f : FileContent) :
  In f (fold_left readStep files acc).2 ->
  In f acc.2
  \/ exists file, In file files
                  /\ fc_path f = fi_path file /\ fc_mtime f = st_mtime (fi_stat file).
Proof.
  revert acc. induction files as [|file files IH]; intros acc; simpl; [auto|].
  intros Hf. apply IH in Hf. destruct Hf as [Hf|(file' & Hin & Hp)].
  - destruct acc as [[failed skippedFs] fileContents]. unfold readStep in Hf.
    destruct (readFileContent (fi_path file)); simpl in Hf; [|auto].
    destruct (Nat.eqb _ 0); simpl in Hf; [auto|].
    apply in_app_iff in Hf. destruct Hf as [Hf|[<-|[]]]; [auto|].
    right. exists file. split; [left; reflexivity | split; reflexivity].
  - right. exists file'. split; [right; exact Hin | exact Hp].
Qed.

(** A chunk carries the path and the modification time of the file it
    was cut from. *)
Lemma prepareContentChunks_origin (files : list FileInfo) (c : ContentChunk) :
  In c (contentChunks (prepareContentChunks files)) ->
  exists file, In file files
               /\ ch_path c = fi_path file /\ ch_mtime c = st_mtime (fi_stat file).
Proof.
  unfold prepareContentChunks.
  pose proof (readStep_origin files ([], [], [])) as Hfold.
  destruct (fold_left readStep files ([], [], [])) as [[failed skippedFs] fileContents].
  simpl in *. intros Hc. apply processChunks_origin in Hc.
  destruct Hc as (c0 & Hc0 & -> & ->).
  unfold createChunksForFiles in Hc0. rewrite in_concat in Hc0.
  destruct Hc0 as (cs & Hcs & Hc0). apply in_map_iff in Hcs.
  destruct Hcs as (f & <- & Hf). apply createChunks_lines in Hc0.
  destruct Hc0 as (-> & -> & _).
  destruct (Hfold f Hf) as [[]|Hfile]. exact Hfile.
Qed.

(** The marker of a skipped file carries the path and the modification
    time of the file it stands for. *)
Lemma dummyEmbeddings_own (skippedFs : list SkippedFile) (allFiles : list FileInfo)
    (m : EmbeddingModelClient) :
  (forall f, In f allFiles -> In f scanFiles) ->
  em_id m = em_id m0 ->
  Forall (OwnRow (em_id m0)) (dummyEmbeddings skippedFs allFiles m).
Proof.
  intros Hfiles Hm. unfold dummyEmbeddings. apply Forall_forall. intros e He.
  apply list_elem_of_omap in He. destruct He as (sk & _ & Hsk).
  destruct (fileMapOf allFiles !! sk_path sk) as [fileInfo|] eqn:Hlook; [|discriminate].
  injection Hsk as <-. unfold fileMapOf in Hlook.
  destruct (fileMapOf_fold allFiles ∅ (sk_path sk)) as [[Hl _]|(f & Hf & Hp & Hl)].
  - rewrite Hl, lookup_empty in Hlook. discriminate.
  - rewrite Hl in Hlook. injection Hlook as <-.
    split; [reflexivity|]. split; [exact Hm|]. exists f.
    split; [apply Hfiles; exact Hf|]. split; [symmetry; exact Hp | reflexivity].
Qed.

Lemma own_recordSkippedFiles skippedFs allFiles :
  (forall f, In f allFiles -> In f scanFiles) ->
  Tracks (SameModelId m0) (OwnWrites m0) (fun _ => True) (fun _ _ => True)
    (recordSkippedFiles skippedFs allFiles).
Proof.
  intros Hfiles. unfold recordSkippedFiles. destruct skippedFs as [|sk sks].
  - apply (Tracks_ret _ _). auto.
  - apply (Tracks_bind_pure _ _ _ (fun m => em_id m = em_id m0)); [apply own_getModel|].
    intros m Hm.
    pose proof (dummyEmbeddings_own (sk :: sks) allFiles m Hfiles Hm) as Hd.
    destruct (dummyEmbeddings (sk :: sks) allFiles m); [apply (Tracks_ret _ _); auto|].
    apply own_insertVectorsM. exact Hd.
Qed.

Lemma own_recordSkipped prepared files :
  (forall f, In f files -> In f scanFiles) ->
  Tracks (SameModelId m0) (OwnWrites m0) (fun _ => True) (fun _ _ => True)
    (recordSkipped prepared files).
Proof.
  intros Hfiles. unfold recordSkipped.
  destruct (skippedFiles prepared); tracks_seq;
    first [ apply own_emit | apply own_recordSkippedFiles; exact Hfiles ].
Qed.

Lemma getFilesToIndex_scanned (m : EmbeddingModelClient) (d : Database) (f : FileInfo) :
  In f (getFilesToIndex m d) -> In f scanFiles.
Proof.
  unfold getFilesToIndex, getFilesToReindex. rewrite filter_In. tauto.
Qed.

(** The files an update works on are files of the scan, and the
    deletions that come first stay within the partition. *)
Lemma own_selectFilesToIndex reindexAll :
  Tracks (SameModelId m0) (OwnWrites m0) (fun _ => True)
    (fun files _ => forall f, In f files -> In f scanFiles)
    (selectFilesToIndex reindexAll).
Proof.
  unfold selectFilesToIndex.
  apply (Tracks_bind_pure _ _ _ (fun m => em_id m = em_id m0)); [apply own_getModel|].
  intros m Hm.
  assert (Hclear : Tracks (SameModelId m0) (OwnWrites m0) (fun _ => True) (fun _ _ => True)
                     (updateDb (clearAllVectors thisWorkspaceId m))).
  { apply own_updateDb; [apply clearAllVectors_Shrinks| |reflexivity].
    intros d. rewrite <- !(otherRows_same_id _ m m0) by exact Hm.
    apply otherRows_clearAllVectors. }
  destruct reindexAll.
  - apply (Tracks_bind_pure _ _ _ (fun _ => True)); [exact Hclear|].
    intros _ _. apply (Tracks_ret _ _). auto.
  - apply (Tracks_bind_pure _ _ _ (fun _ => True)).
    { apply own_updateDb; [apply pruneDeletedFiles_Shrinks| |].
      - intros d. rewrite <- !(otherRows_same_id _ m m0) by exact Hm.
        apply otherRows_deleteVectorsForDeletedFiles.
      - intros d. unfold pruneDeletedFiles, deleteVectorsForDeletedFiles.
        destruct (List.filter _ _); reflexivity. }
    intros _ _.
    apply (Tracks_bind_pure _ _ _ (fun files => forall f, In f files -> In f scanFiles)).
    { apply Tracks_prim. intros w Hi _. split; [exact Hi|]. split; [reflexivity|].
      intros f. apply getFilesToIndex_scanned. }
    intros files Hfiles.
    apply (Tracks_bind_pure _ _ _ (fun _ => True)).
    { destruct files; [apply (Tracks_ret _ _); auto|].
      apply own_updateDb; [apply deleteVectorsForMultipleFiles_Shrinks| |reflexivity].
      intros d. rewrite <- !(otherRows_same_id _ m m0) by exact Hm.
      apply otherRows_deleteVectorsForMultipleFiles. }
    intros _ _. apply (Tracks_ret _ _). intros. apply Hfiles. assumption.
Qed.

Lemma own_embedPrepared prepared nFiles :
  (forall c, In c (contentChunks prepared) -> FromScan c) ->
  Tracks (SameModelId m0) (OwnWrites m0) (fun _ => True) (fun _ _ => True)
    (embedPrepared prepared nFiles).
Proof.
  intros HP. unfold embedPrepared.
  apply (Tracks_bind_pure _ _ _ (fun _ => True)).
  { destruct (failedFiles prepared); tracks_seq; apply own_emit. }
  intros _ _.
  destruct (contentChunks prepared) eqn:Hcs.
  - tracks_seq; apply own_emit.
  - rewrite <- Hcs.
    apply (Tracks_bind_pure _ _ _ (fun _ => True)); [apply own_emit|]. intros _ _.
    apply (Tracks_bind_pure _ _ _ (fun _ => True)); [apply own_emit|]. intros _ _.
    apply (Tracks_bind_pure _ _ _ (fun _ => True)).
    { apply own_processEmbeddings. rewrite Hcs. exact HP. }
    intros result _. tracks_seq. apply own_emit.
Qed.

Lemma own_updateBody reindexAll :
  Tracks (SameModelId m0) (OwnWrites m0) (fun _ => True) (fun _ _ => True)
    (updateBody reindexAll).
Proof.
  unfold updateBody.
  apply (Tracks_bind_pure _ _ _ (fun files => forall f, In f files -> In f scanFiles));
    [apply own_selectFilesToIndex|].
  intros filesToIndex Hfiles. destruct filesToIndex as [|f fs]; [apply own_emit|].
  set (files := f :: fs) in *.
  apply (Tracks_bind_pure _ _ _ (fun _ => True)); [apply own_readCancelled|]. intros c _.
  destruct c; [tracks_seq; apply own_emit|].
  apply (Tracks_bind_pure _ _ _ (fun _ => True)); [apply own_recordSkipped; exact Hfiles|].
  intros _ _. apply own_embedPrepared. intros c Hc.
  apply prepareContentChunks_origin in Hc. destruct Hc as (file & Hfile & Hp & Ht).
  exists file. split; [apply Hfiles; exact Hfile|]. split; assumption.
Qed.

Lemma own_updateVaultIndexInternal reindexAll :
  Tracks (SameModelId m0) (OwnWrites m0) (fun _ => True) (fun _ _ => True)
    (updateVaultIndexInternal reindexAll).
Proof.
  unfold updateVaultIndexInternal.
  apply (Tracks_tryCatch _ _); [apply own_updateBody|].
  intros e. tracks_seq. apply own_emit.
Qed.

End OwnFacts.

Section OwnUpdate.
Context `{Env}.

(** The whole update, from the world in which it is called. *)
Lemma updateVaultIndex_own reindexAll (w : World) :
  cfg_model (config (updateVaultIndex reindexAll w).2) = cfg_model (config w)
  /\ OwnWrites (clientOf (config w)) w (updateVaultIndex reindexAll w).2.
Proof.
  unfold updateVaultIndex. rewrite withAdvisoryLock_run.
  set (w1 := record (AdvisoryLock (workspaceIdToLockKey thisWorkspaceId))
               (withLocks (cons (workspaceIdToLockKey thisWorkspaceId)) w)).
  destruct (own_updateVaultIndexInternal (clientOf (config w)) reindexAll w1)
    as (Hi & Hown & _); [reflexivity | exact I |].
  cbn [snd]. unfold releaseAdvisoryLock, SameModelId in *.
  cbn [config db record withLocks]. split; [exact Hi|]. exact Hown.
Qed.

End OwnUpdate.

Section OwnTheorems.
Context `{Env} `{DbEngine}.

Lemma whereConditions_model w m files r :
  and_ (whereConditions w m files) r = true -> model (row r) = em_id m.
Proof.
  unfold and_, whereConditions. simpl. intros Hc.
  apply andb_true_iff in Hc. destruct Hc as [_ Hc].
  apply andb_true_iff in Hc. destruct Hc as [_ Hc].
  apply andb_true_iff in Hc. destruct Hc as [Hm _].
  apply bool_decide_eq_true in Hm. exact Hm.
Qed.

(** A filter that takes no row of the partition sees the other rows
    only. *)
Lemma filter_otherRows (w : string) (m : EmbeddingModelClient) (d : Database)
    (keep : SelectEmbedding -> bool) :
  (forall r, keep r = true -> inPartition w m r = false) ->
  List.filter keep (rows d) = List.filter keep (otherRows w m d).
Proof.
  intros Hkeep. unfold otherRows. rewrite filter_filter_and.
  apply filter_pointwise. intros r _.
  destruct (keep r) eqn:Hk; [|symmetry; apply andb_false_r].
  rewrite (Hkeep r Hk). reflexivity.
Qed.

(** X22. An index update leaves every row of another workspace, and
    every row of this workspace stored under another model, in place and
    in order. So a similarity search of another workspace, or with
    another model than the configured one, gives after the update what
    it gave before, whether the update returned or threw. *)
Theorem updateVaultIndex_keeps_other_partitions (reindexAll : bool) (w : World) :
  let after := (updateVaultIndex reindexAll w).2 in
  otherRows thisWorkspaceId (clientOf (config w)) (db after)
  = otherRows thisWorkspaceId (clientOf (config w)) (db w)
  /\ (forall other q m options,
        other <> thisWorkspaceId \/ em_id m <> cfg_model (config w) ->
        performSimilaritySearch other q m options (db after)
        = performSimilaritySearch other q m options (db w)).
Proof.
  intros after.
  destruct (updateVaultIndex_own reindexAll w) as (_ & Hother & Hcol & _).
  fold after in Hother, Hcol. split; [exact Hother|].
  intros other q m options Hdiff.
  apply search_depends_on_matching_rows; [exact Hcol|].
  assert (Hout : forall r,
             and_ (whereConditions other m (scope_files options)) r = true ->
             inPartition thisWorkspaceId (clientOf (config w)) r = false).
  { intros r Hc. unfold inPartition. apply andb_false_iff.
    destruct Hdiff as [Hw|Hm].
    - left. apply bool_decide_eq_false. apply whereConditions_workspace in Hc. congruence.
    - right. apply bool_decide_eq_false. apply whereConditions_model in Hc.
      simpl. congruence. }
  rewrite (filter_otherRows thisWorkspaceId (clientOf (config w)) (db after) _ Hout).
  rewrite (filter_otherRows thisWorkspaceId (clientOf (config w)) (db w) _ Hout).
  rewrite Hother. reflexivity.
Qed.

(** X23. Every row the table holds after an index update was there
    before or carries the identifier of this workspace, the model the
    client was configured for when the update began, and the path and the
    modification time of a file of the scan; and the update leaves the
    client configured for that model. *)
Theorem updateVaultIndex_new_rows (reindexAll : bool) (w : World) :
  Forall (fun r => In r (rows (db w)) \/ OwnRow (cfg_model (config w)) (row r))
         (rows (db (updateVaultIndex reindexAll w).2))
  /\ cfg_model (config (updateVaultIndex reindexAll w).2) = cfg_model (config w).
Proof.
  destruct (updateVaultIndex_own reindexAll w) as (Hmodel & _ & _ & Hrows).
  split; [|exact Hmodel].
  apply Forall_forall. intros r Hr. apply list_elem_of_In in Hr.
  destruct (Hrows r Hr) as [Hold|Hown]; [left; exact Hold | right; exact Hown].
Qed.

End OwnTheorems.

(** ** Progress reports of the embedding loop *)

Section ProgressFacts.
Context `{Env}.
Variables (total nFiles : nat).

Lemma progressEvents_app (t u : list Event) :
  progressEvents (t ++ u) = progressEvents t ++ progressEvents u.
Proof. unfold progressEvents. apply omap_app. Qed.

Lemma ascending_le (lo hi : nat) (xs : list nat) : ascending lo hi xs -> (lo <= hi)%nat.
Proof.
  revert lo. induction xs as [|x xs IH]; intros lo; simpl; [auto|].
  intros [Hlo Hxs]. apply IH in Hxs. lia.
Qed.

Lemma ascending_app (a b c : nat) (xs ys : list nat) :
  ascending a b xs -> ascending b c ys -> ascending a c (xs ++ ys).
Proof.
  revert a. induction xs as [|x xs IH]; intros a; simpl.
  - intros Hab Hys. destruct ys as [|y ys]; simpl in *; [lia|].
    destruct Hys as [Hby Hys]. split; [lia | exact Hys].
  - intros [Hax Hxs] Hys. split; [exact Hax | apply IH; assumption].
Qed.

Lemma ascending_Forall (lo hi : nat) (xs : list nat) :
  ascending lo hi xs -> Forall (fun x => (lo <= x <= hi)%nat) xs.
Proof.
  revert lo. induction xs as [|x xs IH]; intros lo; simpl; [constructor|].
  intros [Hlo Hxs]. pose proof (ascending_le _ _ _ Hxs) as Hle.
  constructor; [lia|]. eapply Forall_impl; [apply IH; exact Hxs|].
  simpl. intros y Hy. lia.
Qed.

#[global] Instance Advances_preorder : PreOrder (Advances total nFiles).
Proof.
  split.
  - intros w. exists []. rewrite app_nil_r. simpl. repeat split; [lia | constructor].
  - intros w1 w2 w3 (t & Ht & Ha & Hf) (u & Hu & Hb & Hg). exists (t ++ u).
    rewrite Hu, Ht, app_assoc, progressEvents_app, map_app.
    split; [reflexivity|]. split; [eapply ascending_app; eassumption|].
    apply Forall_app. split; assumption.
Qed.

(** A step that reports no progress and keeps the count. *)
Lemma adv_step {A : Type} (P : World -> Prop) (a : World -> A) (g : World -> World)
    (t : World -> list Event) :
  (forall w, trace (g w) = trace w ++ t w) ->
  (forall w, completed (locals (g w)) = completed (locals w)) ->
  (forall w, progressEvents (t w) = []) ->
  (forall w, P w -> P (g w)) ->
  Tracks (fun _ => True) (Advances total nFiles) P (fun _ => P)
    (fun w => (Returned (a w), g w)).
Proof.
  intros Ht Hc Hp HP. apply Tracks_prim. intros w _ Hw.
  split; [exact I|]. split; [|apply HP; exact Hw].
  exists (t w). rewrite Ht, Hc, Hp. simpl. repeat split; [lia | constructor].
Qed.

Lemma adv_emit (P : World -> Prop) (e : Event) :
  progressEvents [e] = [] ->
  (forall w, P w -> P (record e w)) ->
  Tracks (fun _ => True) (Advances total nFiles) P (fun _ => P) (emit e).
Proof.
  intros He HP.
  apply (adv_step P (fun _ => tt) (record e) (fun _ => [e])); auto.
Qed.

Lemma Counting_record (c : nat) (e : Event) (w : World) :
  Counting c w -> Counting c (record e w).
Proof. auto. Qed.

Lemma adv_readCancelled (cp : Checkpoint) :
  Tracks (fun _ => True) (Advances total nFiles) (fun _ => True) (fun _ _ => True)
    (readCancelled cp).
Proof.
  unfold readCancelled.
  apply (adv_step (fun _ => True) _ _
           (fun w => [CancelRead cp (cancelReads w) (isCancelledAt (cancelReads w))]));
    auto.
Qed.

Lemma adv_dateNow :
  Tracks (fun _ => True) (Advances total nFiles) (fun _ => True) (fun _ _ => True) dateNow.
Proof.
  unfold dateNow. apply (adv_step (fun _ => True) _ _ (fun _ => [])); auto.
  intros w. cbn [trace]. rewrite app_nil_r. reflexivity.
Qed.

Lemma adv_pure {A : Type} (a : World -> A) :
  Tracks (fun _ => True) (Advances total nFiles) (fun _ => True) (fun _ _ => True)
    (fun w => (Returned (a w), w)).
Proof.
  apply (adv_step (fun _ => True) a (fun w => w) (fun _ => [])); auto.
  intros w. rewrite app_nil_r. reflexivity.
Qed.

(** Reading the variables of the loop: the count read is the count. *)
Lemma adv_getLocals :
  Tracks (fun _ => True) (Advances total nFiles) (fun _ => True)
    (fun l => Counting (completed l)) getLocals.
Proof.
  apply Tracks_prim. intros w _ _. split; [exact I|]. split; [reflexivity|]. reflexivity.
Qed.

(** An update of the variables that does not lower the count. *)
Lemma adv_updateLocals (f : Locals -> Locals) :
  (forall l, (completed l <= completed (f l))%nat) ->
  Tracks (fun _ => True) (Advances total nFiles) (fun _ => True) (fun _ _ => True)
    (updateLocals f).
Proof.
  intros Hf. apply Tracks_prim. intros w _ _. split; [exact I|]. split; [|exact I].
  exists []. cbn [trace locals withLocals]. rewrite app_nil_r. simpl.
  repeat split; [apply Hf | constructor].
Qed.

(** An update of the variables that keeps the count. *)
Lemma adv_updateLocals_same (c : nat) (f : Locals -> Locals) :
  (forall l, completed (f l) = completed l) ->
  Tracks (fun _ => True) (Advances total nFiles) (Counting c) (fun _ => Counting c)
    (updateLocals f).
Proof.
  intros Hf. apply (adv_step (Counting c) (fun _ => tt) (withLocals f) (fun _ => [])); auto.
  - intros w. cbn [trace withLocals]. rewrite app_nil_r. reflexivity.
  - intros w. cbn [locals withLocals]. apply Hf.
  - intros w. unfold Counting. cbn [locals withLocals]. rewrite Hf. auto.
Qed.

(** A progress report with the current count. *)
Lemma adv_progress (c : nat) (p : IndexProgress) :
  completedChunks p = c -> totalChunks p = total -> totalFiles p = nFiles ->
  Tracks (fun _ => True) (Advances total nFiles) (Counting c) (fun _ => Counting c)
    (emit (Progress p)).
Proof.
  intros Hc Ht Hn. apply Tracks_prim. intros w _ Hw.
  split; [exact I|]. split; [|exact Hw].
  exists [Progress p]. cbn [trace locals record]. unfold Counting in Hw.
  split; [reflexivity|]. simpl. rewrite Hc, Hw. repeat split; try lia.
  constructor; [split; assumption | constructor].
Qed.

Lemma adv_embeddingsCreateM (text : string) :
  Tracks (fun _ => True) (Advances total nFiles) (fun _ => True) (fun _ _ => True)
    (embeddingsCreateM text).
Proof.
  intros w _ _. unfold embeddingsCreateM. cbn [fst snd].
  split; [exact I|]. split; [|auto].
  exists [EmbeddingCall (embeddingCalls w) text]. cbn [trace locals]. simpl.
  repeat split; [lia | constructor].
Qed.

Lemma adv_insertVectorsM (vs : list InsertEmbedding) :
  Tracks (fun _ => True) (Advances total nFiles) (fun _ => True) (fun _ _ => True)
    (insertVectorsM vs).
Proof.
  unfold insertVectorsM, updateDb.
  apply (Tracks_bind_pure _ _ _ (fun _ => True)).
  - apply (adv_step (fun _ => True) _ _ (fun _ => [])); auto.
    intros w. cbn [trace withDb]. rewrite app_nil_r. reflexivity.
  - intros _ _. apply adv_emit; auto.
Qed.

Lemma adv_getEmbedding (text : string) :
  Tracks (fun _ => True) (Advances total nFiles) (fun _ => True) (fun _ _ => True)
    (getEmbedding text).
Proof.
  unfold getEmbedding.
  apply (Tracks_bind_pure _ _ _ (fun _ => True)); [apply adv_pure|].
  intros c _. destruct (cfg_provider c); [destruct (cfg_apiKey c)| |];
    tracks_seq;
    first [ apply adv_embeddingsCreateM
          | apply (adv_step (fun _ => True) _ _ (fun _ => [])); auto;
            intros w; cbn [trace withConfig]; rewrite app_nil_r; reflexivity ].
Qed.

(** The report, when there is one, carries the count just read. *)
Lemma adv_finishRequest chunk vector :
  Tracks (fun _ => True) (Advances total nFiles) (fun _ => True) (fun _ _ => True)
    (finishRequest chunk total nFiles vector).
Proof.
  unfold finishRequest.
  apply (Tracks_bind_pure _ _ _ (fun _ => True)); [apply adv_readCancelled|].
  intros c2 _. destruct c2; [apply (Tracks_throw _ _)|].
  apply (Tracks_bind_pure _ _ _ (fun _ => True)).
  { apply adv_updateLocals. intros l. simpl. lia. }
  intros _ _.
  apply (Tracks_bind_pure _ _ _ (fun _ => True)); [apply adv_dateNow|]. intros now _.
  apply (Tracks_bind _ _ _ (fun l => Counting (completed l))); [apply adv_getLocals|].
  intros l.
  apply (Tracks_bind _ _ _ (fun _ _ => True)).
  { destruct (500 <=? now - lastProgressUpdate l)%Z.
    - apply (Tracks_bind _ _ _ (fun _ => Counting (completed l))).
      { apply adv_updateLocals_same. reflexivity. }
      intros _.
      apply (Tracks_bind _ _ _ (fun _ => Counting (completed l))).
      { apply adv_progress; reflexivity. }
      intros _. eapply Tracks_weaken; [| |apply (adv_emit (fun _ => True))]; auto.
    - apply (Tracks_ret _ _). auto. }
  intros _. tracks_seq. apply adv_pure.
Qed.

Lemma adv_embedRequest chunk :
  Tracks (fun _ => True) (Advances total nFiles) (fun _ => True) (fun _ _ => True)
    (embedRequest chunk total nFiles).
Proof.
  unfold embedRequest.
  apply (Tracks_bind_pure _ _ _ (fun _ => True)); [apply adv_readCancelled|].
  intros c1 _. destruct c1; [apply (Tracks_throw _ _)|].
  apply (Tracks_bind_pure _ _ _ (fun _ => True)); [apply adv_getEmbedding|].
  intros vector _. apply adv_finishRequest.
Qed.

(** A report made with the count that was just read. *)
Lemma adv_report (l : Locals) (current : option string) (waiting cancelled : bool) :
  Tracks (fun _ => True) (Advances total nFiles) (Counting (completed l))
    (fun _ _ => True)
    (emit (Progress (progressOf l total nFiles current waiting cancelled))).
Proof.
  eapply Tracks_weaken; [| |apply (adv_progress (completed l))]; auto.
Qed.

Lemma adv_log (ty : LogType) (msg : string) :
  Tracks (fun _ => True) (Advances total nFiles) (fun _ => True) (fun _ _ => True)
    (emit (Logged ty msg)).
Proof. apply adv_emit; auto. Qed.

Lemma adv_retryOption chunk e :
  Tracks (fun _ => True) (Advances total nFiles) (fun _ => True) (fun _ _ => True)
    (retryOption chunk total nFiles e).
Proof.
  unfold retryOption. destruct (_ || _); [|apply (Tracks_ret _ _); auto].
  apply (Tracks_bind _ _ _ (fun l => Counting (completed l))); [apply adv_getLocals|].
  intros l.
  apply (Tracks_bind _ _ _ (fun _ _ => True)); [apply adv_report|]. intros _.
  tracks_seq. apply adv_log.
Qed.

Lemma adv_reportCancelled :
  Tracks (fun _ => True) (Advances total nFiles) (fun _ => True) (fun _ _ => True)
    (reportCancelled total nFiles).
Proof.
  unfold reportCancelled.
  apply (Tracks_bind _ _ _ (fun l => Counting (completed l))); [apply adv_getLocals|].
  intros l.
  apply (Tracks_bind _ _ _ (fun _ => Counting (completed l))).
  { apply adv_emit; auto. }
  intros _. apply adv_report.
Qed.

Lemma adv_processChunk chunk :
  Tracks (fun _ => True) (Advances total nFiles) (fun _ => True) (fun _ _ => True)
    (processChunk total nFiles chunk).
Proof.
  unfold processChunk.
  apply (Tracks_bind_pure _ _ _ (fun _ => True)); [apply adv_readCancelled|]. intros c _.
  destruct c; [apply (Tracks_ret _ _); auto|].
  apply (Tracks_tryCatch _ _).
  - apply (Tracks_bind_pure _ _ _ (fun _ => True)).
    + apply (Tracks_backOff _ _); [apply adv_embedRequest|].
      intros e. apply adv_retryOption.
    + intros e _. apply (Tracks_ret _ _). auto.
  - intros error. destruct (bool_decide _); [apply (Tracks_ret _ _); auto|].
    apply (Tracks_bind_pure _ _ _ (fun _ => True)).
    { apply adv_updateLocals. intros l. simpl. lia. }
    intros _ _. apply (Tracks_ret _ _). auto.
Qed.

Lemma adv_batchLoop (batches : list (list ContentChunk)) :
  Tracks (fun _ => True) (Advances total nFiles) (fun _ => True) (fun _ _ => True)
    (batchLoop total nFiles batches).
Proof.
  induction batches as [|batch rest IH]; simpl.
  - apply (Tracks_ret _ _). auto.
  - apply (Tracks_bind_pure _ _ _ (fun _ => True)); [apply adv_readCancelled|].
    intros c0 _. destruct c0.
    { tracks_seq. apply adv_reportCancelled. }
    apply (Tracks_bind_pure _ _ _ (fun _ => True)).
    { eapply Tracks_weaken;
        [| |apply (Tracks_mapM _ _ (fun _ _ => True)); intros c _; apply adv_processChunk];
        auto. }
    intros embeddingBatch _.
    apply (Tracks_bind_pure _ _ _ (fun _ => True)); [apply adv_readCancelled|].
    intros c1 _. destruct c1.
    { tracks_seq. apply adv_reportCancelled. }
    apply (Tracks_bind_pure _ _ _ (fun _ => True)).
    { destruct (omap id embeddingBatch); [apply (Tracks_ret _ _); auto|].
      apply adv_insertVectorsM. }
    intros _ _.
    apply (Tracks_bind_pure _ _ _ (fun _ => True)); [apply adv_readCancelled|].
    intros c2 _. destruct c2.
    { tracks_seq. apply adv_reportCancelled. }
    apply (Tracks_bind _ _ _ (fun l => Counting (completed l))); [apply adv_getLocals|].
    intros l.
    apply (Tracks_bind _ _ _ (fun _ _ => True)); [apply adv_report|]. intros _.
    apply (Tracks_bind_pure _ _ _ (fun _ => True)); [apply adv_log|]. intros _ _.
    exact IH.
Qed.

End ProgressFacts.

(** ** Counting the completed chunks *)

Section CountRules.

Lemma Counts_weaken {A} (a b a' b' : nat) (m : M A) :
  (a <= a')%nat -> (b <= b')%nat -> Counts a b m -> Counts a' b' m.
Proof. intros Ha Hb Hm w. specialize (Hm w). destruct (m w).1; lia. Qed.

Lemma Counts_ret {A} (x : A) : Counts 0 0 (ret x).
Proof. intros w. simpl. lia. Qed.

Lemma Counts_throw {A} (e : JsError) : Counts 0 0 (@throw A e).
Proof. intros w. simpl. lia. Qed.

Lemma Counts_of_Step {A} (m : M A) : Step SameCount m -> Counts 0 0 m.
Proof.
  intros Hm w. destruct (Hm w) as [Hc _]. unfold SameCount in Hc. rewrite Hc.
  destruct (m w).1; lia.
Qed.

Lemma Counts_bind {A B} (a b c d a' b' : nat) (m : M A) (f : A -> M B) :
  Counts a b m -> (forall x, Counts c d (f x)) ->
  (a + c <= a')%nat -> (b <= b')%nat -> (a + d <= b')%nat ->
  Counts a' b' (bind m f).
Proof.
  intros Hm Hf H1 H2 H3 w. unfold bind. specialize (Hm w).
  destruct (m w) as [[x|e] w1]; simpl in *; [|lia].
  specialize (Hf x w1). destruct (f x w1) as [[y|e] w2]; simpl in *; lia.
Qed.

Lemma Counts_tryCatch {A} (a b c d a' b' : nat) (m : M A) (h : JsError -> M A) :
  Counts a b m -> (forall e, Counts c d (h e)) ->
  (a <= a')%nat -> (b + c <= a')%nat -> (b + d <= b')%nat ->
  Counts a' b' (tryCatch m h).
Proof.
  intros Hm Hh H1 H2 H3 w. unfold tryCatch. specialize (Hm w).
  destruct (m w) as [[x|e] w1]; simpl in *; [lia|].
  specialize (Hh e w1). destruct (h e w1) as [[y|e'] w2]; simpl in *; lia.
Qed.

(** A continuation that only returns adds nothing. *)
Lemma Counts_map {A B} (a b : nat) (m : M A) (g : A -> B) :
  Counts a b m -> Counts a b (bind m (fun x => ret (g x))).
Proof.
  intros Hm w. unfold bind, ret. specialize (Hm w).
  destruct (m w) as [[x|e] w1]; simpl in *; lia.
Qed.

(** A request that leaves the count alone when it throws can be retried
    without counting twice. *)
Lemma Counts_backOff {A} (a n : nat) (request : M A) (retry : JsError -> M bool) :
  Counts a 0 request -> (forall e, Counts 0 0 (retry e)) ->
  Counts a 0 (backOff n request retry).
Proof.
  intros Hreq Hretry. induction n as [|n IH]; simpl.
  - eapply Counts_weaken; [| |apply Counts_throw]; lia.
  - apply (Counts_tryCatch a 0 a 0); [exact Hreq| |lia|lia|lia].
    intros e. apply (Counts_bind 0 0 a 0); [apply Hretry| |lia|lia|lia].
    intros b. destruct (negb b || Nat.eqb n 0); [|exact IH].
    eapply Counts_weaken; [| |apply Counts_throw]; lia.
Qed.

Lemma Counts_mapM {A B} (f : A -> M B) (xs : list A) :
  (forall x, Counts 1 1 (f x)) -> Counts (length xs) (length xs) (mapM f xs).
Proof.
  intros Hf. induction xs as [|x xs IH]; simpl.
  - apply Counts_ret.
  - apply (Counts_bind 1 1 (length xs) (length xs)); [apply Hf| |lia|lia|lia].
    intros y. apply (Counts_bind (length xs) (length xs) 0 0); [exact IH| |lia|lia|lia].
    intros ys. apply Counts_ret.
Qed.

End CountRules.

Section CountFacts.
Context `{Env}.

Instance SameCount_preorder : PreOrder SameCount.
Proof.
  split.
  - intros w. reflexivity.
  - intros w1 w2 w3 H12 H23. unfold SameCount in *. congruence.
Qed.

Lemma SameCount_emit (e : Event) : Step SameCount (emit e).
Proof. apply (Hoare_prim SameCount); [|auto]. intros w. reflexivity. Qed.

Lemma SameCount_readCancelled (cp : Checkpoint) : Step SameCount (readCancelled cp).
Proof. apply (Hoare_prim SameCount); [|auto]. intros w. reflexivity. Qed.

Lemma SameCount_getEmbedding (text : string) : Step SameCount (getEmbedding text).
Proof.
  apply (frame_getEmbedding SameCount).
  - intros text' w. split; [reflexivity | auto].
  - intros f. apply (Hoare_prim SameCount); [|auto]. intros w. reflexivity.
Qed.

Lemma SameCount_retryOption chunk total nFiles e :
  Step SameCount (retryOption chunk total nFiles e).
Proof. apply (frame_retryOption SameCount). intros e' _. apply SameCount_emit. Qed.

Lemma SameCount_reportCancelled total nFiles :
  Step SameCount (reportCancelled total nFiles).
Proof. apply (frame_reportCancelled SameCount). intros e' _. apply SameCount_emit. Qed.

Lemma SameCount_insertVectorsM (vs : list InsertEmbedding) :
  Step SameCount (insertVectorsM vs).
Proof. intros w. split; [reflexivity | auto]. Qed.

(** The request counts its chunk when it returns, and only then: after
    the count is raised nothing throws. *)
Lemma count_finishRequest chunk total nFiles vector :
  Counts 1 0 (finishRequest chunk total nFiles vector).
Proof.
  intros w. unfold finishRequest, bind, readCancelled, throw, updateLocals, dateNow,
    getLocals, getModel, emit, ret.
  destruct (isCancelledAt (cancelReads w)); cbn [fst snd locals completed]; [lia|].
  cbn [withLocals locals clockReads lastProgressUpdate].
  destruct (500 <=? _)%Z; cbn [fst snd locals completed withLocals record]; lia.
Qed.

Lemma count_embedRequest chunk total nFiles :
  Counts 1 0 (embedRequest chunk total nFiles).
Proof.
  unfold embedRequest.
  apply (Counts_bind 0 0 1 0);
    [apply Counts_of_Step, SameCount_readCancelled| |lia|lia|lia].
  intros c1. destruct c1; [eapply Counts_weaken; [| |apply Counts_throw]; lia|].
  apply (Counts_bind 0 0 1 0);
    [apply Counts_of_Step, SameCount_getEmbedding| |lia|lia|lia].
  intros vector. apply count_finishRequest.
Qed.

(** One chunk raises the count by one at most, however often its request
    is retried. *)
Lemma count_processChunk total nFiles chunk :
  Counts 1 1 (processChunk total nFiles chunk).
Proof.
  unfold processChunk.
  apply (Counts_bind 0 0 1 1);
    [apply Counts_of_Step, SameCount_readCancelled| |lia|lia|lia].
  intros c. destruct c; [eapply Counts_weaken; [| |apply Counts_ret]; lia|].
  apply (Counts_tryCatch 1 0 0 0).
  - apply Counts_map. apply Counts_backOff; [apply count_embedRequest|].
    intros e. apply Counts_of_Step, SameCount_retryOption.
  - intros error. destruct (bool_decide _); [apply Counts_ret|].
    apply (Counts_bind 0 0 0 0); [| |lia|lia|lia].
    + apply Counts_of_Step. apply (Hoare_prim SameCount); [|auto]. intros w. reflexivity.
    + intros _. apply Counts_ret.
  - lia.
  - lia.
  - lia.
Qed.

Lemma count_batchLoop total nFiles (batches : list (list ContentChunk)) :
  Counts (length (concat batches)) (length (concat batches))
    (batchLoop total nFiles batches).
Proof.
  induction batches as [|batch rest IH]; simpl.
  - apply Counts_ret.
  - rewrite length_app.
    set (k := length batch). set (n := length (concat rest)) in *.
    assert (Hstop : Counts 0 0 (reportCancelled total nFiles >> ret true)).
    { apply (Counts_bind 0 0 0 0);
        [apply Counts_of_Step, SameCount_reportCancelled| |lia|lia|lia].
      intros _. apply Counts_ret. }
    apply (Counts_bind 0 0 (k + n) (k + n));
      [apply Counts_of_Step, SameCount_readCancelled| |lia|lia|lia].
    intros c0. destruct c0; [eapply Counts_weaken; [| |exact Hstop]; lia|].
    apply (Counts_bind k k n n);
      [apply Counts_mapM; intros c; apply count_processChunk| |lia|lia|lia].
    intros embeddingBatch.
    apply (Counts_bind 0 0 n n);
      [apply Counts_of_Step, SameCount_readCancelled| |lia|lia|lia].
    intros c1. destruct c1; [eapply Counts_weaken; [| |exact Hstop]; lia|].
    apply (Counts_bind 0 0 n n); [| |lia|lia|lia].
    { destruct (omap id embeddingBatch); [apply Counts_ret|].
      apply Counts_of_Step, SameCount_insertVectorsM. }
    intros _.
    apply (Counts_bind 0 0 n n);
      [apply Counts_of_Step, SameCount_readCancelled| |lia|lia|lia].
    intros c2. destruct c2; [eapply Counts_weaken; [| |exact Hstop]; lia|].
    apply (Counts_bind 0 0 n n); [apply Counts_of_Step, Step_pure; typeclasses eauto| |lia|lia|lia].
    intros l.
    apply (Counts_bind 0 0 n n); [apply Counts_of_Step, SameCount_emit| |lia|lia|lia].
    intros _.
    apply (Counts_bind 0 0 n n); [apply Counts_of_Step, SameCount_emit| |lia|lia|lia].
    intros _. exact IH.
Qed.

(** The batches hold the chunks, each once. *)
Lemma slices_concat {A : Type} (fuel n : nat) (l : list A) :
  (length (concat (slices fuel n l)) <= length l)%nat.
Proof.
  revert l. induction fuel as [|fuel IH]; intros l; simpl; [lia|].
  destruct l as [|x l]; [simpl; lia|].
  cbn [concat]. rewrite length_app.
  specialize (IH (drop n (x :: l))).
  pose proof (f_equal length (take_drop n (x :: l))) as Hsplit.
  rewrite length_app in Hsplit. lia.
Qed.

Lemma count_embedBatches (chunks : list ContentChunk) (nFiles : nat) :
  Counts (length chunks) (length chunks) (embedBatches chunks nFiles).
Proof.
  unfold embedBatches.
  pose proof (slices_concat (length chunks) batchSize chunks) as Hk.
  set (k := length (concat (slices (length chunks) batchSize chunks))) in *.
  apply (Counts_bind k k 0 0); [apply count_batchLoop| |lia|lia|lia].
  intros cancelled. destruct cancelled; [apply Counts_ret|].
  apply (Counts_bind 0 0 0 0);
    [apply Counts_of_Step, Step_pure; typeclasses eauto| |lia|lia|lia].
  intros l. destruct (failedChunks l).
  - apply (Counts_bind 0 0 0 0); [apply Counts_of_Step, SameCount_emit| |lia|lia|lia].
    intros _.
    apply (Counts_bind 0 0 0 0); [apply Counts_of_Step, SameCount_emit| |lia|lia|lia].
    intros _. apply Counts_ret.
  - apply (Counts_bind 0 0 0 0); [apply Counts_of_Step, SameCount_emit| |lia|lia|lia].
    intros _. apply Counts_throw.
Qed.

End CountFacts.

Section ProgressTheorem.
Context `{Env}.

Lemma adv_embedBatches (chunks : list ContentChunk) (nFiles : nat) :
  Tracks (fun _ => True) (Advances (length chunks) nFiles) (fun _ => True)
    (fun _ _ => True) (embedBatches chunks nFiles).
Proof.
  unfold embedBatches.
  apply (Tracks_bind_pure _ _ _ (fun _ => True)); [apply adv_batchLoop|].
  intros cancelled _. destruct cancelled; [apply (Tracks_ret _ _); auto|].
  apply (Tracks_bind _ _ _ (fun l => Counting (completed l))); [apply adv_getLocals|].
  intros l. destruct (failedChunks l).
  - apply (Tracks_bind _ _ _ (fun _ _ => True)); [apply adv_report|]. intros _.
    tracks_seq. apply adv_log.
  - apply (Tracks_bind _ _ _ (fun _ _ => True)).
    { eapply Tracks_weaken; [| |apply adv_log]; auto. }
    intros _. apply (Tracks_throw _ _).
Qed.

Lemma processEmbeddings_loopStart (chunks : list ContentChunk) (nFiles : nat) (w : World) :
  processEmbeddings chunks nFiles w = embedBatches chunks nFiles (loopStart w).
Proof. reflexivity. Qed.


End ProgressTheorem.

(** ** Queries *)

Section QueryFacts.
Context `{Env} `{DbEngine}.
Variables (fileUriOf : string -> string) (minimatch : string -> string -> bool).

Lemma getEmbedding_db (text : string) (w : World) :
  db (getEmbedding text w).2 = db w.
Proof.
  assert (Hpre : PreOrder (fun w w' : World => db w' = db w)).
  { split; [intros x; reflexivity | intros x y z Hxy Hyz; congruence]. }
  destruct (frame_getEmbedding (fun w w' => db w' = db w)
              (fun text' w' => conj eq_refl (fun _ _ => I))
              (fun f w' => conj eq_refl (fun _ _ => I)) text w) as [Hdb _].
  exact Hdb.
Qed.

Lemma filterByFolders_In (results : list SearchResult) (folder : string)
    (folders : list string) (r : SearchResult) :
  In r (filterByFolders minimatch results (Some (folder :: folders))) ->
  In r results
  /\ exists f, In f (folder :: folders)
               /\ minimatch (sr_path r) (convertFolderToGlob f) = true.
Proof.
  unfold filterByFolders. rewrite filter_In, existsb_exists.
  intros [Hr (pattern & Hp & Hm)]. split; [exact Hr|].
  apply in_map_iff in Hp. destruct Hp as (f & <- & Hf). exists f. auto.
Qed.

Lemma filterByFolders_length (results : list SearchResult) (folders : option (list string)) :
  (length (filterByFolders minimatch results folders) <= length results)%nat.
Proof.
  unfold filterByFolders. destruct folders as [[|f fs]|]; try lia.
  apply List.filter_length_le.
Qed.

(** X25. A query that returns changes nothing in the table and gives at
    most [limit] results ([maxResults] when the parameters name no
    limit). Each result shows the path, content, metadata and line range
    of a row of the table that belongs to this workspace and is not the
    marker of a skipped file, with a similarity not below the threshold;
    its path lies in the file scope when one is given and matches the
    pattern of one of the folders when folders are given. *)
Theorem processQuery_results (maxResults : nat) (minSimilarityDefault : float)
    (params : VaultSearchParams) (w : World) (results : list SearchResult) :
  (processQuery fileUriOf minimatch maxResults minSimilarityDefault params w).1
  = Returned results ->
  db (processQuery fileUriOf minimatch maxResults minSimilarityDefault params w).2 = db w
  /\ (length results <= default maxResults (vp_limit params))%nat
  /\ Forall (fun r =>
       (exists e, In e (rows (db w))
          /\ workspaceId (row e) = thisWorkspaceId
          /\ skipped (metadata (row e)) <> Some true
          /\ sr_path r = path (row e) /\ sr_content r = content (row e)
          /\ sr_metadata r = metadata (row e)
          /\ sr_fileUri r = fileUriOf (path (row e))
          /\ sr_lineRange r = (startLine (metadata (row e)), endLine (metadata (row e))))
       /\ PrimFloat.ltb (sr_similarity r)
            (default minSimilarityDefault (vp_minSimilarity params)) = false
       /\ (forall f fs, vp_files params = Some (f :: fs) -> In (sr_path r) (f :: fs))
       /\ (forall f fs, vp_folders params = Some (f :: fs) ->
             exists g, In g (f :: fs)
                       /\ minimatch (sr_path r) (convertFolderToGlob g) = true))
     results.
Proof.
  unfold processQuery, bind, getModel, managerPerformSimilaritySearch.
  pose proof (getEmbedding_db (vp_query params) w) as Hdb.
  destruct (getEmbedding (vp_query params) w) as [[q|e] w1]; [|discriminate].
  cbn [fst snd] in *.
  set (m := clientOf (config w1)).
  set (options := mkOptions (default minSimilarityDefault (vp_minSimilarity params))
                    (default maxResults (vp_limit params)) (vp_files params)).
  destruct (performSimilaritySearch thisWorkspaceId q m options (db w1))
    as [hits|e] eqn:Hs; [|discriminate].
  assert (Hhit : forall r, In r (map (toSearchResult fileUriOf) hits) ->
            (exists e, In e (rows (db w))
               /\ workspaceId (row e) = thisWorkspaceId
               /\ skipped (metadata (row e)) <> Some true
               /\ sr_path r = path (row e) /\ sr_content r = content (row e)
               /\ sr_metadata r = metadata (row e)
               /\ sr_fileUri r = fileUriOf (path (row e))
               /\ sr_lineRange r
                  = (startLine (metadata (row e)), endLine (metadata (row e))))
            /\ PrimFloat.ltb (sr_similarity r)
                 (default minSimilarityDefault (vp_minSimilarity params)) = false
            /\ (forall f fs, vp_files params = Some (f :: fs) -> In (sr_path r) (f :: fs))).
  { intros r Hr. apply in_map_iff in Hr. destruct Hr as (h & <- & Hh).
    destruct (search_hits_satisfy _ _ _ _ _ _ _ Hs Hh) as [Hrow Hconds].
    rewrite Hdb in Hrow. split; [|split].
    - exists (hit_row h). split; [exact Hrow|].
      split; [eapply whereConditions_workspace; exact Hconds|].
      split; [eapply whereConditions_notSkipped; exact Hconds|].
      repeat split.
    - simpl. unfold performSimilaritySearch in Hs.
      destruct (detectEmbeddingColumnType (db w1)) as [[|]|e]; [| |discriminate].
      + injection Hs as <-. eapply pgvector_hits_threshold, Hh.
      + eapply javascript_hits_threshold; eassumption.
    - intros f fs Hfiles. simpl.
      unfold and_, whereConditions in Hconds. rewrite forallb_app in Hconds.
      apply andb_true_iff in Hconds. destruct Hconds as [_ Hscope].
      change (scope_files options) with (vp_files params) in Hscope.
      rewrite Hfiles in Hscope. simpl in Hscope.
      apply andb_true_iff in Hscope. destruct Hscope as [Hin _].
      apply bool_decide_eq_true, list_elem_of_In in Hin. exact Hin. }
  pose proof (search_length _ _ _ _ _ _ Hs) as Hlen.
  change (limit options) with (default maxResults (vp_limit params)) in Hlen.
  destruct (vp_folders params) as [[|f fs]|] eqn:Hfolders; simpl; intros [= <-].
  - split; [exact Hdb|]. split; [rewrite length_map; exact Hlen|].
    apply Forall_forall. intros r Hr. apply list_elem_of_In in Hr.
    destruct (Hhit r Hr) as (H1 & H2 & H3).
    split; [exact H1|]. split; [exact H2|]. split; [exact H3|]. discriminate.
  - split; [exact Hdb|]. split.
    { pose proof (filterByFolders_length (map (toSearchResult fileUriOf) hits)
                    (Some (f :: fs))) as Hle.
      rewrite length_map in Hle. simpl in Hle. simpl. lia. }
    apply Forall_forall. intros r Hr. apply list_elem_of_In in Hr.
    apply filterByFolders_In in Hr. destruct Hr as [Hr Hmatch].
    destruct (Hhit r Hr) as (H1 & H2 & H3).
    split; [exact H1|]. split; [exact H2|]. split; [exact H3|].
    intros f' fs' [= <- <-]. exact Hmatch.
  - split; [exact Hdb|]. split; [rewrite length_map; exact Hlen|].
    apply Forall_forall. intros r Hr. apply list_elem_of_In in Hr.
    destruct (Hhit r Hr) as (H1 & H2 & H3).
    split; [exact H1|]. split; [exact H2|]. split; [exact H3|]. discriminate.
Qed.

End QueryFacts.

(** ** An update with nothing to do *)

Section UpToDate.
Context `{Env}.

Lemma setRows_rows (d : Database) : setRows d (rows d) = d.
Proof. destruct d. reflexivity. Qed.

Lemma fold_max_ge (l : list Z) (a : Z) :
  a <= fold_left Z.max l a /\ forall x, In x l -> x <= fold_left Z.max l a.
Proof.
  revert a. induction l as [|y l IH]; intros a; simpl; [split; [lia | tauto]|].
  destruct (IH (Z.max a y)) as [Ha Hl]. split; [lia|].
  intros x [<-|Hx]; [lia | apply Hl; exact Hx].
Qed.

(** With every indexed path still on disk and in the scan, the pruning
    deletes nothing. *)
Lemma pruneDeletedFiles_nothing (m : EmbeddingModelClient) (d : Database) :
  (forall p, In p (getIndexedFilePaths thisWorkspaceId m d) ->
     fileExists p = true /\ In p (map fi_path scanFiles)) ->
  pruneDeletedFiles m d = d.
Proof.
  intros Hlive. unfold pruneDeletedFiles.
  rewrite (filter_all fileExists) by (intros p Hp; apply Hlive; exact Hp).
  rewrite filter_all
    by (intros p Hp; apply bool_decide_eq_true, list_elem_of_In, Hlive; exact Hp).
  assert (Hkeep : forall r, In r (rows d) -> inPartition thisWorkspaceId m r = true ->
                    In (path (row r)) (getIndexedFilePaths thisWorkspaceId m d)).
  { intros r Hr Hp. apply getIndexedFilePaths_In. exists r. auto. }
  unfold deleteVectorsForDeletedFiles, clearAllVectors.
  destruct (getIndexedFilePaths thisWorkspaceId m d) as [|p ps] eqn:Hpaths.
  - rewrite filter_all; [apply setRows_rows|].
    intros r Hr. destruct (inPartition thisWorkspaceId m r) eqn:Hp; [|reflexivity].
    destruct (Hkeep r Hr Hp).
  - rewrite filter_all; [apply setRows_rows|].
    intros r Hr. destruct (inPartition thisWorkspaceId m r) eqn:Hp; [|reflexivity].
    simpl. rewrite bool_decide_eq_true_2; [reflexivity|].
    apply list_elem_of_In, Hkeep; assumption.
Qed.

(** With a row for every non-empty file that is stamped with a positive
    time not before the file's, no file is selected. *)
Lemma getFilesToIndex_up_to_date (m : EmbeddingModelClient) (d : Database) :
  (forall file, In file scanFiles -> st_size (fi_stat file) <> 0 ->
     exists r, In r (rows d) /\ inPartition thisWorkspaceId m r = true
               /\ path (row r) = fi_path file
               /\ 0 < mtime (row r) /\ st_mtime (fi_stat file) <= mtime (row r)) ->
  getFilesToIndex m d = [].
Proof.
  intros Hfresh. destruct (getFilesToIndex m d) as [|file files] eqn:Hsel; [reflexivity|].
  exfalso.
  assert (Hin : In file (getFilesToIndex m d)) by (rewrite Hsel; left; reflexivity).
  apply getFilesToIndex_decision in Hin. destruct Hin as (Hscan & Hsize & Hold).
  destruct (Hfresh file Hscan Hsize) as (r & Hr & Hp & Hpath & Hpos & Hle).
  assert (Hmax : mtime (row r) <= storedMax0 thisWorkspaceId m (fi_path file) d).
  { unfold storedMax0. apply fold_max_ge. apply in_map_iff. exists r.
    split; [reflexivity|]. unfold storedRows. apply filter_In. split; [exact Hr|].
    rewrite Hp, bool_decide_eq_true_2 by exact Hpath. reflexivity. }
  lia.
Qed.

(** X26. When every indexed path is still on disk and in the scan, and
    every non-empty file of the scan has a row of this workspace and
    model stamped with a positive time that is not before the file's
    modification time, an incremental update returns without a request to
    the provider and without a change of the table: between taking and
    releasing the lock it only reports a progress of 0 of 0. *)
Theorem updateVaultIndex_up_to_date (w : World) :
  (forall p, In p (getIndexedFilePaths thisWorkspaceId (clientOf (config w)) (db w)) ->
     fileExists p = true /\ In p (map fi_path scanFiles)) ->
  (forall file, In file scanFiles -> st_size (fi_stat file) <> 0 ->
     exists r, In r (rows (db w))
               /\ inPartition thisWorkspaceId (clientOf (config w)) r = true
               /\ path (row r) = fi_path file
               /\ 0 < mtime (row r) /\ st_mtime (fi_stat file) <= mtime (row r)) ->
  (updateVaultIndex false w).1 = Returned tt
  /\ db (updateVaultIndex false w).2 = db w
  /\ embeddingCalls (updateVaultIndex false w).2 = embeddingCalls w
  /\ trace (updateVaultIndex false w).2
     = trace w ++ [ AdvisoryLock (workspaceIdToLockKey thisWorkspaceId);
                    Progress (mkProgress 0 0 0 None None false false);
                    AdvisoryUnlock (workspaceIdToLockKey thisWorkspaceId) ].
Proof.
  intros Hlive Hfresh.
  unfold updateVaultIndex. rewrite withAdvisoryLock_run.
  set (w1 := record (AdvisoryLock (workspaceIdToLockKey thisWorkspaceId))
               (withLocks (cons (workspaceIdToLockKey thisWorkspaceId)) w)).
  unfold updateVaultIndexInternal, tryCatch, updateBody, bind.
  rewrite selectFilesToIndex_run.
  change (config w1) with (config w). change (db w1) with (db w).
  unfold filesSelected, dbAfterSelect.
  rewrite (pruneDeletedFiles_nothing _ _ Hlive).
  rewrite (getFilesToIndex_up_to_date _ _ Hfresh).
  unfold emit, releaseAdvisoryLock, deleteVectorsForMultipleFiles.
  cbn [fst snd map db embeddingCalls trace record withDb withLocks w1].
  rewrite !(pruneDeletedFiles_nothing _ _ Hlive).
  rewrite !(getFilesToIndex_up_to_date _ _ Hfresh). cbn [map].
  repeat split. rewrite <- !app_assoc. reflexivity.
Qed.

End UpToDate.

(** ** An update cancelled before the embedding begins *)

Section CancelledEarly.
Context `{Env}.

(** X27. When the cancellation flag is set at the check that follows
    reading and chunking, the update returns without an error, makes no
    request to the provider and inserts nothing; but the deletions that
    open the update have been made: the rows of every selected file are
    gone, which after a cancelled full rebuild is every row of this
    workspace and model. *)
Theorem updateVaultIndex_cancelled_after_prepare (reindexAll : bool) (w : World) :
  isCancelledAt (cancelReads w) = true ->
  (updateVaultIndex reindexAll w).1 = Returned tt
  /\ db (updateVaultIndex reindexAll w).2
     = dbAfterSelect reindexAll (clientOf (config w)) (db w)
  /\ embeddingCalls (updateVaultIndex reindexAll w).2 = embeddingCalls w
  /\ Forall (fun file =>
               storedRows thisWorkspaceId (clientOf (config w)) (fi_path file)
                 (db (updateVaultIndex reindexAll w).2) = [])
       (filesSelected reindexAll (clientOf (config w)) (db w))
  /\ (reindexAll = true ->
      getTotalIndexedChunks thisWorkspaceId (clientOf (config w))
        (db (updateVaultIndex reindexAll w).2) = 0%nat).
Proof.
  intros Hcancel.
  assert (Hrun : (updateVaultIndex reindexAll w).1 = Returned tt
                 /\ db (updateVaultIndex reindexAll w).2
                    = dbAfterSelect reindexAll (clientOf (config w)) (db w)
                 /\ embeddingCalls (updateVaultIndex reindexAll w).2 = embeddingCalls w).
  { unfold updateVaultIndex. rewrite withAdvisoryLock_run.
    set (w1 := record (AdvisoryLock (workspaceIdToLockKey thisWorkspaceId))
                 (withLocks (cons (workspaceIdToLockKey thisWorkspaceId)) w)).
    unfold updateVaultIndexInternal, tryCatch, updateBody, bind.
    rewrite selectFilesToIndex_run.
    change (config w1) with (config w). change (db w1) with (db w).
    destruct (filesSelected reindexAll (clientOf (config w)) (db w)) as [|f fs].
    - unfold emit, releaseAdvisoryLock. cbn [fst snd]. repeat split.
    - unfold readCancelled. cbn [cancelReads withDb w1 record withLocks].
      rewrite Hcancel. unfold emit, releaseAdvisoryLock. cbn [fst snd]. repeat split. }
  destruct Hrun as (Hret & Hdb & Hcalls).
  split; [exact Hret|]. split; [exact Hdb|]. split; [exact Hcalls|]. split.
  - apply Forall_forall. intros file Hfile. rewrite Hdb.
    apply storedRows_dbAfterSelect. apply list_elem_of_In. exact Hfile.
  - intros ->. rewrite Hdb. unfold getTotalIndexedChunks, dbAfterSelect, clearAllVectors.
    cbn [rows setRows]. rewrite filter_filter_and, filter_nothing; [reflexivity|].
    intros r _. destruct (inPartition thisWorkspaceId (clientOf (config w)) r); reflexivity.
Qed.

End CancelledEarly.

(** ** Cleaning the registry *)

Section RegistryCleanupFacts.
Variable isProcessAlive : Z -> bool.


End RegistryCleanupFacts.

(** * Part III: concrete runs

    A small workspace on which the properties above are instantiated and
    on which the divergences from the specification are exhibited. *)

Section CosineRuns.
Local Open Scope float_scope.

Lemma calculateCosineSimilarity_total_witness :
  calculateCosineSimilarity [3; 4] [3; 4] = Returned 1
  /\ calculateCosineSimilarity [0; 0] [4; 3] = Returned 0
  /\ calculateCosineSimilarity [1] [4; 3] = Thrown (Error "Vector dimensions must match").
Proof.
  split; [|split].
  - apply (proj1 (calculateCosineSimilarity_total [3; 4] [3; 4]) eq_refl).
    vm_compute. reflexivity.
  - apply (proj1 (calculateCosineSimilarity_total [0; 0] [4; 3]) eq_refl).
    vm_compute. reflexivity.
  - apply (proj2 (calculateCosineSimilarity_total [1] [4; 3])).
    simpl. lia.
Defined.

End CosineRuns.

Section DiffRuns.

(** C8 at a file stamped with the epoch. The file has a row in the
    store whose [mtime] equals the file's, 0, so the rule "new, or
    modified since" does not select it; the code selects it, because the
    map of stored times never receives a time that is not above 0 and
    [getFilesToReindex] reads the missing entry as "not indexed yet". *)
Lemma getFilesToIndex_selects_indexed_epoch_file :
  @getFilesToIndex epochEnv (clientOf demoConfig) epochDb = [epochFile]
  /\ storedMtime "0123456789abcdef" (clientOf demoConfig) "a.md" epochDb = Some 0
  /\ specSelectsForReindex "0123456789abcdef" (clientOf demoConfig) epochDb epochFile = false
  /\ getFileModificationTimes "0123456789abcdef" ["a.md"] (clientOf demoConfig) epochDb = ∅.
Proof. repeat split; vm_compute; reflexivity. Qed.

End DiffRuns.

Section LineRuns.


End LineRuns.

Section SearchRuns.
Local Open Scope float_scope.

(** An exact engine: the distance is one minus the cosine similarity and
    the rows are sorted by ascending key. *)
Lemma exactOrder_In (key : SelectEmbedding -> float) (n : nat)
    (l : list SelectEmbedding) (r : SelectEmbedding) :
  In r (take n (sortBy (fun a b => key a - key b) l)) -> In r l.
Proof. intros Hr. eapply sortBy_In, take_In, Hr. Qed.

Definition exactEngine : DbEngine :=
  {| cosineDistance := fun a b =>
       match calculateCosineSimilarity a b with
       | Returned s => 1 - s
       | Thrown _ => nan
       end;
     orderByLimit := fun key n l => take n (sortBy (fun a b => key a - key b) l);
     orderByLimit_In := exactOrder_In |}.

Lemma performSimilaritySearch_workspace_isolation_witness :
  (exists hits,
     @performSimilaritySearch exactEngine "0123456789abcdef" [1; 0]
       (clientOf demoConfig) demoOptions sharedDbVector = Returned hits
     /\ map (fun h => row_id (hit_row h)) hits = [1%Z]
     /\ forall h, In h hits -> workspaceId (row (hit_row h)) = "0123456789abcdef")
  /\ (exists hits,
        @performSimilaritySearch exactEngine "0123456789abcdef" [1; 0]
          (clientOf demoConfig) demoOptions sharedDbJsonb = Returned hits
        /\ map (fun h => row_id (hit_row h)) hits = [1%Z]
        /\ forall h, In h hits -> workspaceId (row (hit_row h)) = "0123456789abcdef").
Proof.
  split.
  - eexists. split; [vm_compute; reflexivity|]. split; [reflexivity|].
    intros h Hh.
    eapply (proj2 (proj2 (@performSimilaritySearch_workspace_isolation exactEngine
                            "0123456789abcdef" [1; 0] (clientOf demoConfig)
                            demoOptions sharedDbVector)));
      [vm_compute; reflexivity | exact Hh].
  - eexists. split; [vm_compute; reflexivity|]. split; [reflexivity|].
    intros h Hh.
    eapply (proj2 (proj2 (@performSimilaritySearch_workspace_isolation exactEngine
                            "0123456789abcdef" [1; 0] (clientOf demoConfig)
                            demoOptions sharedDbJsonb)));
      [vm_compute; reflexivity | exact Hh].
Defined.

End SearchRuns.

Section LockRuns.

Lemma withAdvisoryLock_releases_witness :
  let w := demoWorld emptyDb in
  let r := withAdvisoryLock "0123456789abcdef" failingOperation w in
  workspaceIdToLockKey "0123456789abcdef" = 285443752
  /\ r.1 = Thrown (Error "connection reset")
  /\ heldLocks r.2 = []
  /\ trace r.2 = [ AdvisoryLock 285443752;
                   Inserted [mkInsert "0123456789abcdef" "a.md" 10 "alpha"
                               "nomic-embed-text" 2 [1%float; 0%float]
                               (mkMeta 1 1 None None None)];
                   AdvisoryUnlock 285443752 ].
Proof.
  intros w r.
  pose proof (withAdvisoryLock_releases "0123456789abcdef" failingOperation w) as Hw.
  cbv zeta in Hw. destruct Hw as (_ & _ & _ & _ & Hout & Htrace & _ & Hlocks).
  subst r.
  split; [vm_compute; reflexivity|].
  split; [rewrite Hout; reflexivity|].
  split; [apply Hlocks; intros w0; reflexivity|].
  rewrite Htrace. reflexivity.
Defined.

End LockRuns.

Section SkipRuns.

Lemma twoFiles_NoDup : NoDup (map fi_path (@scanFiles twoFilesEnv)).
Proof.
  simpl. apply NoDup_cons. split; [|apply NoDup_singleton].
  intros Hin. apply list_elem_of_In in Hin. destruct Hin as [Heq|[]]. discriminate.
Qed.



End SkipRuns.

Section CancelRuns.

Lemma cancelFrom_Monotone (k : nat) : Monotone (cancelFrom k).
Proof.
  intros i j Hij Hi. unfold cancelFrom in *.
  apply Nat.leb_le. apply Nat.leb_le in Hi. lia.
Qed.


(** The run of the witness: the flag is set while the provider answers
    the first request; the answer is dropped, the second chunk is not
    requested and nothing is inserted. *)
Lemma lateCancel_run :
  (@processEmbeddings lateCancelEnv notesChunks 1 (demoWorld emptyDb)).1
  = Returned (mkResult true)
  /\ List.filter needsGuard
       (trace (@processEmbeddings lateCancelEnv notesChunks 1 (demoWorld emptyDb)).2)
     = [EmbeddingCall 0 "alpha"]
  /\ rows (db (@processEmbeddings lateCancelEnv notesChunks 1 (demoWorld emptyDb)).2) = [].
Proof.
  split; [|split]; vm_compute; reflexivity.
Qed.

End CancelRuns.

Section RetryRuns.

Lemma unauthorized_request_is_retried_witness :
  (@processChunk unauthorizedEnv 2 1 (mkChunk "notes.md" 20 "alpha" (mkMeta 1 1 None None None))
     (openAIWorld emptyDb)).1 = Returned None
  /\ List.filter isCall
       (trace (@processChunk unauthorizedEnv 2 1
                 (mkChunk "notes.md" 20 "alpha" (mkMeta 1 1 None None None))
                 (openAIWorld emptyDb)).2)
     = [EmbeddingCall 0 "alpha"; EmbeddingCall 1 "alpha"; EmbeddingCall 2 "alpha";
        EmbeddingCall 3 "alpha"; EmbeddingCall 4 "alpha"].
Proof.
  destruct (@unauthorized_request_is_retried unauthorizedEnv
              (mkChunk "notes.md" 20 "alpha" (mkMeta 1 1 None None None)) 2 1
              (fun n => eq_refl)
              (fun n text => ex_intro _ _ (conj eq_refl eq_refl))
              (openAIWorld emptyDb) "sk-invalid" eq_refl eq_refl)
    as (Hout & Htrace & _).
  split; [exact Hout|]. rewrite Htrace. reflexivity.
Defined.

(** The whole loop on the two chunks of [notes.md]: ten requests, and
    the failure is reported once both chunks have been given up. *)
Lemma unauthorized_run :
  (@processEmbeddings unauthorizedEnv notesChunks 1 (openAIWorld emptyDb)).1
  = Thrown (IndexingError
              "Failed to embed 2 out of 2 chunks. Check API configuration and rate limits.")
  /\ embeddingCalls (@processEmbeddings unauthorizedEnv notesChunks 1 (openAIWorld emptyDb)).2
     = 10%nat
  /\ length (List.filter (fun e => match e with
                                   | Progress p => waitingForRateLimit p
                                   | _ => false
                                   end)
               (trace (@processEmbeddings unauthorizedEnv notesChunks 1
                         (openAIWorld emptyDb)).2))
     = 10%nat.
Proof.
  split; [|split]; vm_compute; reflexivity.
Qed.

End RetryRuns.

Section HandlerRuns.

(** Two requests in a row at the console of the index manager, then the
    end of the first indexing: the second request was never answered
    with 409 and is now indexing. *)
Lemma two_requests_at_the_console :
  IndexManager.rebuildIndexHandler IndexManager.idle
    [ IndexManager.RebuildRequested (IndexManager.mkRequest 1 false);
      IndexManager.RebuildRequested (IndexManager.mkRequest 2 false) ]
  = IndexManager.mkManager (Some (IndexManager.mkRequest 1 false))
      [IndexManager.mkRequest 2 false] false []
  /\ IndexManager.rebuildIndexHandler IndexManager.idle
       [ IndexManager.RebuildRequested (IndexManager.mkRequest 1 false);
         IndexManager.RebuildRequested (IndexManager.mkRequest 2 false);
         IndexManager.IndexingSettled IndexManager.Completed ]
     = IndexManager.mkManager (Some (IndexManager.mkRequest 2 false)) [] false
         [(1%nat, IndexManager.mkMcp false "Index update completed successfully.")].
Proof.
  split; reflexivity.
Qed.

End HandlerRuns.

Section SchemaRuns.



End SchemaRuns.

Section StatisticsRuns.

Lemma getProjectStatistics_not_indexed_witness :
  NoDup (map fi_path (@scanFiles twoFilesEnv))
  /\ notIndexedFiles (@getProjectStatistics twoFilesEnv (clientOf demoConfig) emptyDb) = 2.
Proof.
  split; [exact twoFiles_NoDup|].
  rewrite (proj1 (@getProjectStatistics_not_indexed twoFilesEnv (clientOf demoConfig) emptyDb
                    twoFiles_NoDup)).
  vm_compute. reflexivity.
Defined.

End StatisticsRuns.

Section SearchBoundRuns.

Lemma performSimilaritySearch_bounds_witness :
  exists hits,
    @performSimilaritySearch exactEngine "0123456789abcdef" [1%float; 0%float]
      (clientOf demoConfig) demoOptions sharedDbVector = Returned hits
    /\ (length hits <= 10)%nat.
Proof.
  eexists. split; [vm_compute; reflexivity|].
  apply (proj1 (@performSimilaritySearch_bounds exactEngine "0123456789abcdef"
                  [1%float; 0%float] (clientOf demoConfig) demoOptions sharedDbVector _
                  eq_refl)).
Defined.


End SearchBoundRuns.

Section RegistryRuns.

Lemma register_then_getByWorkspace_witness :
  (Registry.getByWorkspace (fun _ => true) "0123456789abcdef"
     (Registry.register (fun _ => true) "2025-01-01T00:00:00.000Z"
        (Registry.mkInfo "0123456789abcdef" "/home/u/notes" 4242 3456
           "2025-01-01T00:00:00.000Z" None)
        None)).1
  = Some (Registry.mkInfo "0123456789abcdef" "/home/u/notes" 4242 3456
            "2025-01-01T00:00:00.000Z" (Some "2025-01-01T00:00:00.000Z")).
Proof.
  apply (proj1 (register_then_getByWorkspace (fun _ => true) "2025-01-01T00:00:00.000Z"
                  (Registry.mkInfo "0123456789abcdef" "/home/u/notes" 4242 3456
                     "2025-01-01T00:00:00.000Z" None)
                  None eq_refl)).
Defined.

End RegistryRuns.

Section SessionRuns.


End SessionRuns.

Section QueryRuns.

Lemma processQuery_results_witness :
  exists results,
    (@processQuery twoFilesEnv exactEngine (fun p => "file:///notes/" +:+ p)
       (fun _ _ => true) 10 0%float (mkParams "alpha" None None None (Some ["docs"]))
       (demoWorld sharedDbVector)).1 = Returned results
    /\ (length results <= 10)%nat.
Proof.
  eexists. split; [vm_compute; reflexivity|].
  apply (proj1 (proj2 (@processQuery_results twoFilesEnv exactEngine
                         (fun p => "file:///notes/" +:+ p) (fun _ _ => true) 10 0%float
                         (mkParams "alpha" None None None (Some ["docs"]))
                         (demoWorld sharedDbVector) _ eq_refl))).
Defined.

End QueryRuns.

Section UpToDateRuns.

Lemma updateVaultIndex_up_to_date_witness :
  (@updateVaultIndex twoFilesEnv false (demoWorld upToDateDb)).1 = Returned tt
  /\ db (@updateVaultIndex twoFilesEnv false (demoWorld upToDateDb)).2 = upToDateDb.
Proof.
  destruct (@updateVaultIndex_up_to_date twoFilesEnv (demoWorld upToDateDb))
    as (Hret & Hdb & _).
  - intros p Hp. vm_compute in Hp. destruct Hp as [<-|[<-|[]]]; split; vm_compute; auto.
  - intros file [<-|[<-|[]]] _.
    + exists (mkRow 1 (mkInsert "0123456789abcdef" "blank.md" 10
                        "[SKIPPED: No indexable content]" "nomic-embed-text" 2
                        [0%float; 0%float]
                        (mkMeta 0 0 (Some true)
                           (Some "File contains no indexable content after processing")
                           (Some 3)))).
      split; [left; reflexivity|]. split; [reflexivity|]. split; [reflexivity|].
      simpl. lia.
    + exists (mkRow 2 (mkInsert "0123456789abcdef" "notes.md" 20 "alpha"
                        "nomic-embed-text" 2 [1%float; 0%float]
                        (mkMeta 1 1 None None None))).
      split; [right; left; reflexivity|]. split; [reflexivity|]. split; [reflexivity|].
      simpl. lia.
  - split; [exact Hret | exact Hdb].
Defined.

End UpToDateRuns.

Section CancelledEarlyRuns.

Lemma updateVaultIndex_cancelled_after_prepare_witness :
  (@updateVaultIndex cancelledEnv true (demoWorld upToDateDb)).1 = Returned tt
  /\ rows (db (@updateVaultIndex cancelledEnv true (demoWorld upToDateDb)).2) = [].
Proof.
  destruct (@updateVaultIndex_cancelled_after_prepare cancelledEnv true
              (demoWorld upToDateDb) eq_refl) as (Hret & Hdb & _).
  split; [exact Hret|]. rewrite Hdb. vm_compute. reflexivity.
Defined.

End CancelledEarlyRuns.
